(** * Property Value Finder: the value extractor of [src/app/page.tsx]

    The extractor receives a text blob and a key and returns the value of
    the key, trying a strict JSON parse with dot-path traversal, a JSON-ish
    regular expression, the URL and query-string interpretations and a
    generic [key: value] regular expression, in that order.

    The functions of the source ([isObject], [getByPath], [tryParseJson],
    [escapeRegExp], [decodeMaybe], [searchUrlLike], [searchJsonLike],
    [extractValue]) are embedded under their own names.  The JavaScript
    built-ins they call ([String.prototype.trim], [split], [JSON.parse],
    [Number], [RegExp], [String.prototype.match], [decodeURIComponent],
    [URLSearchParams]) are modelled by executable definitions that follow
    ECMAScript and the WHATWG URL standard; the URL record parser behind
    [new URL] is a parameter of the development.  Of the page component
    the search effect, [display] and the two rendering conditions are
    embedded, with [String] of a Number; a state setter of [useState]
    takes a function for an updater, and the call of that function on the
    state held before is a parameter as well.  The clipboard and focus
    handlers are not embedded.

    Strings are sequences of UTF-16 code units, values are JavaScript
    values, and a computation that can throw returns a [completion]. *)

From Stdlib Require Import List NArith ZArith Bool String Ascii Lia.
From Stdlib Require Import Floats.SpecFloat.
Import ListNotations.

#[local] Set Warnings "-register-all".

Open Scope string_scope.
Open Scope list_scope.

(** ** Strings *)

(** A code unit of a JavaScript string. *)
Definition char := N.
Bind Scope N_scope with char.

(** A JavaScript string: the sequence of its UTF-16 code units. *)
Definition jsstring := list char.

(** ASCII text as a JavaScript string. *)
Definition str (s : string) : jsstring :=
  map N_of_ascii (list_ascii_of_string s).

Coercion str : string >-> jsstring.

(** [quoted s] is [s] where every backquote stands for a double quote; it
    keeps JSON texts readable. *)
Definition quoted (s : string) : jsstring :=
  map (fun c => if N.eqb c 96 then 34%N else c) (str s).

Definition dq : jsstring := [34%N].

Fixpoint jsstring_eqb (a b : jsstring) : bool :=
  match a, b with
  | [], [] => true
  | x :: a', y :: b' => N.eqb x y && jsstring_eqb a' b'
  | _, _ => false
  end.

(** ** Values and completions *)

(** A Number value: an IEEE 754 binary64 datum. *)
Definition number := spec_float.

Definition prec64 : Z := 53.
Definition emax64 : Z := 1024.

Definition NaN : number := S754_nan.

(** The Number value of an integer (rounded to nearest, ties to even). *)
Definition number_of_Z (z : Z) : number :=
  binary_normalize prec64 emax64 z 0 false.

(** JavaScript values that the extractor can meet: the JSON values, the
    [undefined] sentinel, and what property lookup on a parsed object can
    reach through the prototype chain ([Object.prototype] and the
    functions it carries). *)
Inductive value : Type :=
| VUndefined
| VNull
| VBool (b : bool)
| VNumber (n : number)
| VString (s : jsstring)
| VArray (elems : list value)
| VObject (props : list (jsstring * value))
| VObjectPrototype
| VFunction (name : jsstring).

Inductive error : Type :=
| SyntaxError
| TypeError
| URIError
| Unsupported.

(** The outcome of an evaluation: a value or a thrown exception.
    [Unsupported] marks a use of a built-in outside the fragment that is
    modelled; no such use is reachable from [extractValue]. *)
Inductive completion (A : Type) : Type :=
| Normal (a : A)
| Throw (e : error).

Arguments Normal {A} a.
Arguments Throw {A} e.

Definition bind {A B} (c : completion A) (k : A -> completion B) : completion B :=
  match c with
  | Normal a => k a
  | Throw e => Throw e
  end.

Notation "x <- c ;; k" := (bind c (fun x => k))
  (at level 61, c at next level, right associativity).

(** [try { c } catch { h }] *)
Definition try_catch {A} (c : completion A) (h : completion A) : completion A :=
  match c with
  | Normal a => Normal a
  | Throw _ => h
  end.

(** [typeof v] *)
Inductive type_tag : Type :=
| TUndefined | TObject | TBoolean | TNumber | TString | TFunction.

Definition typeof (v : value) : type_tag :=
  match v with
  | VUndefined => TUndefined
  | VNull => TObject
  | VBool _ => TBoolean
  | VNumber _ => TNumber
  | VString _ => TString
  | VArray _ => TObject
  | VObject _ => TObject
  | VObjectPrototype => TObject
  | VFunction _ => TFunction
  end.

Definition type_tag_eqb (a b : type_tag) : bool :=
  match a, b with
  | TUndefined, TUndefined | TObject, TObject | TBoolean, TBoolean
  | TNumber, TNumber | TString, TString | TFunction, TFunction => true
  | _, _ => false
  end.

(** [v === undefined] *)
Definition is_undefined (v : value) : bool :=
  match v with VUndefined => true | _ => false end.

(** [v === null] *)
Definition is_null (v : value) : bool :=
  match v with VNull => true | _ => false end.

(** [v == null]: the loose comparison holds for [null] and [undefined]. *)
Definition loose_null (v : value) : bool :=
  is_null v || is_undefined v.

(** [Array.isArray(v)] *)
Definition Array_isArray (v : value) : bool :=
  match v with VArray _ => true | _ => false end.

(** ** White space, [trim], [split], [includes] *)

(** WhiteSpace and LineTerminator code units of ECMAScript (12.2, 12.3):
    what [trim] removes and what [\s] matches. *)
Definition isWhiteSpace (c : char) : bool :=
  existsb (N.eqb c)
    [9; 10; 11; 12; 13; 32; 160; 5760; 8232; 8233; 8239; 8287; 12288; 65279]%N
  || (N.leb 8192 c && N.leb c 8202).

(** [dropWhile p s] is [s] without its longest prefix of characters that
    satisfy [p]. *)
Fixpoint dropWhile (p : char -> bool) (s : jsstring) : jsstring :=
  match s with
  | c :: s' => if p c then dropWhile p s' else s
  | [] => []
  end.

(** [strip p s] is [s] without the characters that satisfy [p] at its two
    ends. *)
Definition strip (p : char -> bool) (s : jsstring) : jsstring :=
  rev (dropWhile p (rev (dropWhile p s))).

Definition trimStart (s : jsstring) : jsstring := dropWhile isWhiteSpace s.

Definition trimEnd (s : jsstring) : jsstring := rev (trimStart (rev s)).

(** [s.trim()] *)
Definition trim (s : jsstring) : jsstring := trimEnd (trimStart s).

(** [s.split(sep)] for a one-character separator. *)
Fixpoint split (sep : char) (s : jsstring) : list jsstring :=
  match s with
  | [] => [[]]
  | c :: s' =>
      if N.eqb c sep then [] :: split sep s'
      else match split sep s' with
           | p :: ps => (c :: p) :: ps
           | [] => [[c]]
           end
  end.

(** ToBoolean of a string: the empty string is falsy. *)
Definition truthy_string (s : jsstring) : bool :=
  match s with [] => false | _ => true end.

(** [s.includes(c)] for a one-character argument. *)
Definition includes (s : jsstring) (c : char) : bool := existsb (N.eqb c) s.

Definition dot : char := 46%N.

(** ** Numbers: [Number(s)], [Number.isInteger], [Number.isNaN] *)

Definition isDigit (c : char) : bool := N.leb 48 c && N.leb c 57.

Definition digit_val (c : char) : Z := Z.of_N c - 48.

(** The longest prefix of [s] whose characters satisfy [p], and the rest. *)
Fixpoint span (p : char -> bool) (s : jsstring) : jsstring * jsstring :=
  match s with
  | c :: s' => if p c then let (a, b) := span p s' in (c :: a, b) else ([], s)
  | [] => ([], [])
  end.

Definition digits_val (base : Z) (val : char -> Z) (ds : jsstring) : Z :=
  fold_left (fun acc c => base * acc + val c)%Z ds 0%Z.

(** The binary64 nearest to [(-1)^neg * m * 10^e] for [0 <= m], ties to
    even.  For a negative exponent the quotient is computed with more than
    sixty extra bits and a sticky bit, then rounded once. *)
Definition decimal_to_number (neg : bool) (m e : Z) : number :=
  if (m =? 0)%Z then S754_zero neg
  else
    let sign z := if neg then Z.opp z else z in
    if (0 <=? e)%Z then binary_normalize prec64 emax64 (sign (m * 10 ^ e)%Z) 0 neg
    else
      let d := (10 ^ (- e))%Z in
      let k := (Z.log2 d + 64)%Z in
      let q := ((m * 2 ^ k) / d)%Z in
      let sticky := if ((m * 2 ^ k) mod d =? 0)%Z then 0%Z else 1%Z in
      binary_normalize prec64 emax64 (sign (2 * q + sticky)%Z) (- (k + 1)) neg.

Definition isHexDigit (c : char) : bool :=
  isDigit c || (N.leb 65 c && N.leb c 70) || (N.leb 97 c && N.leb c 102).

Definition hex_val (c : char) : Z :=
  if isDigit c then Z.of_N c - 48
  else if N.leb 97 c then Z.of_N c - 87 else Z.of_N c - 55.

(** ExponentPart_opt at the end of a numeric literal: the exponent, or
    [None] when the text is neither empty nor a well-formed exponent. *)
Definition parse_exponent (s : jsstring) : option Z :=
  match s with
  | [] => Some 0%Z
  | c :: s1 =>
      if N.eqb c 101 || N.eqb c 69 then
        let '(neg, s2) :=
          match s1 with
          | 43%N :: r => (false, r)
          | 45%N :: r => (true, r)
          | _ => (false, s1)
          end in
        let (ds, r) := span isDigit s2 in
        match ds, r with
        | _ :: _, [] =>
            let e := digits_val 10 digit_val ds in
            Some (if neg then Z.opp e else e)
        | _, _ => None
        end
      else None
  end.

(** StrUnsignedDecimalLiteral without [Infinity]:
    [digits . digits? exp?], [. digits exp?] or [digits exp?]. *)
Definition parse_unsigned_decimal (neg : bool) (s : jsstring) : option number :=
  let (ip, r1) := span isDigit s in
  let '(fp, r2, ok) :=
    match r1 with
    | 46%N :: r =>
        let (fp, r2) := span isDigit r in
        (fp, r2, truthy_string ip || truthy_string fp)
    | _ => ([], r1, truthy_string ip)
    end in
  if ok then
    match parse_exponent r2 with
    | Some e =>
        Some (decimal_to_number neg (digits_val 10 digit_val (ip ++ fp))
                (e - Z.of_nat (List.length fp)))
    | None => None
    end
  else None.

Definition parse_radix (base : Z) (p : char -> bool) (val : char -> Z)
    (ds : jsstring) : option number :=
  match ds with
  | [] => None
  | _ => if forallb p ds then Some (number_of_Z (digits_val base val ds)) else None
  end.

Definition isOctalDigit (c : char) : bool := N.leb 48 c && N.leb c 55.
Definition isBinaryDigit (c : char) : bool := N.leb 48 c && N.leb c 49.

(** StrNumericLiteral (ECMAScript 7.1.4.1.1). *)
Definition parse_StrNumericLiteral (s : jsstring) : option number :=
  match s with
  | 48%N :: 120%N :: ds | 48%N :: 88%N :: ds => parse_radix 16 isHexDigit hex_val ds
  | 48%N :: 111%N :: ds | 48%N :: 79%N :: ds => parse_radix 8 isOctalDigit digit_val ds
  | 48%N :: 98%N :: ds | 48%N :: 66%N :: ds => parse_radix 2 isBinaryDigit digit_val ds
  | _ =>
      let '(neg, r) :=
        match s with
        | 43%N :: r => (false, r)
        | 45%N :: r => (true, r)
        | _ => (false, s)
        end in
      if jsstring_eqb r (str "Infinity") then Some (S754_infinity neg)
      else parse_unsigned_decimal neg r
  end.

(** [Number(s)] for a string argument (StringToNumber): white space around
    the literal is ignored, the empty literal is [+0], and a text outside
    the grammar is [NaN]. *)
Definition Number (s : jsstring) : number :=
  match trim s with
  | [] => S754_zero false
  | t => match parse_StrNumericLiteral t with
         | Some n => n
         | None => NaN
         end
  end.

Definition Number_isNaN (n : number) : bool :=
  match n with S754_nan => true | _ => false end.

Definition Number_isInteger (n : number) : bool :=
  match n with
  | S754_zero _ => true
  | S754_finite _ m e => (0 <=? e)%Z || (Z.pos m mod 2 ^ (- e) =? 0)%Z
  | _ => false
  end.

(** The mathematical value of an integral Number. *)
Definition integer_value (n : number) : Z :=
  match n with
  | S754_finite s m e =>
      let a := if (0 <=? e)%Z then (Z.pos m * 2 ^ e)%Z else (Z.pos m / 2 ^ (- e))%Z in
      if s then Z.opp a else a
  | _ => 0%Z
  end.

(** ** Objects, arrays and property lookup *)

(** The own property [k] of an object. *)
Fixpoint get_own (props : list (jsstring * value)) (k : jsstring) : option value :=
  match props with
  | [] => None
  | (k', v) :: rest => if jsstring_eqb k' k then Some v else get_own rest k
  end.

(** CreateDataProperty: a later definition of a key replaces the earlier. *)
Fixpoint set_prop (props : list (jsstring * value)) (k : jsstring) (v : value)
    : list (jsstring * value) :=
  match props with
  | [] => [(k, v)]
  | (k', v') :: rest =>
      if jsstring_eqb k' k then (k, v) :: rest else (k', v') :: set_prop rest k v
  end.

(** The function-valued properties of [Object.prototype]. *)
Definition ObjectPrototype_methods : list jsstring :=
  [str "__defineGetter__"; str "__defineSetter__"; str "hasOwnProperty";
   str "__lookupGetter__"; str "__lookupSetter__"; str "isPrototypeOf";
   str "propertyIsEnumerable"; str "toString"; str "valueOf";
   str "toLocaleString"].

(** Lookup of [k] on [Object.prototype], for a receiver that is the
    prototype itself ([self = true]) or an ordinary object inheriting from
    it: [constructor] is the function [Object], [__proto__] is an accessor
    returning the prototype of the receiver. *)
Definition ObjectPrototype_get (self : bool) (k : jsstring) : value :=
  if jsstring_eqb k (str "__proto__") then
    if self then VNull else VObjectPrototype
  else if jsstring_eqb k (str "constructor") then VFunction (str "Object")
  else if existsb (jsstring_eqb k) ObjectPrototype_methods then VFunction k
  else VUndefined.

(** The property [k] of an ordinary object with own properties [props]:
    own properties first, then the prototype chain. *)
Definition object_get (props : list (jsstring * value)) (k : jsstring) : value :=
  match get_own props k with
  | Some v => v
  | None => ObjectPrototype_get false k
  end.

(** The element of an array at an integral Number: [undefined] outside
    [0 .. length - 1]; [-0] is index 0. *)
Definition array_get (elems : list value) (idx : number) : value :=
  let z := integer_value idx in
  if (z <? 0)%Z || (Z.of_nat (List.length elems) <=? z)%Z then VUndefined
  else nth (Z.to_nat z) elems VUndefined.

(** [o[k]] for a string key [k].  Reading a property of [null] or
    [undefined] throws; strings, numbers, booleans and functions are never
    read from. *)
Definition Get (o : value) (k : jsstring) : completion value :=
  match o with
  | VObject props => Normal (object_get props k)
  | VObjectPrototype => Normal (ObjectPrototype_get true k)
  | VUndefined | VNull => Throw TypeError
  | _ => Throw Unsupported
  end.

(** [a[idx]] for an integral Number [idx]. *)
Definition GetIndex (a : value) (idx : number) : completion value :=
  match a with
  | VArray elems => Normal (array_get elems idx)
  | VUndefined | VNull => Throw TypeError
  | _ => Throw Unsupported
  end.

(** ** [JSON.parse] *)

Definition isJsonWhiteSpace (c : char) : bool :=
  N.eqb c 32 || N.eqb c 9 || N.eqb c 10 || N.eqb c 13.

Definition skip_ws (s : jsstring) : jsstring := dropWhile isJsonWhiteSpace s.

(** [strip_prefix p s] is the rest of [s] after the prefix [p]. *)
Fixpoint strip_prefix (p s : jsstring) : option jsstring :=
  match p, s with
  | [], _ => Some s
  | a :: p', b :: s' => if N.eqb a b then strip_prefix p' s' else None
  | _ :: _, [] => None
  end.

Definition hex4 (a b c d : char) : option char :=
  if isHexDigit a && isHexDigit b && isHexDigit c && isHexDigit d then
    Some (Z.to_N (((hex_val a * 16 + hex_val b) * 16 + hex_val c) * 16 + hex_val d))
  else None.

(** The characters of a JSON string after its opening quote, up to the
    closing quote; [acc] holds the decoded characters in reverse. *)
Fixpoint json_string_body (s : jsstring) (acc : jsstring) : option (jsstring * jsstring) :=
  match s with
  | [] => None
  | c :: r =>
      if N.eqb c 34 then Some (rev acc, r)
      else if N.eqb c 92 then
        match r with
        | [] => None
        | e :: r1 =>
            if N.eqb e 34 || N.eqb e 92 || N.eqb e 47 then json_string_body r1 (e :: acc)
            else if N.eqb e 98 then json_string_body r1 (8%N :: acc)
            else if N.eqb e 102 then json_string_body r1 (12%N :: acc)
            else if N.eqb e 110 then json_string_body r1 (10%N :: acc)
            else if N.eqb e 114 then json_string_body r1 (13%N :: acc)
            else if N.eqb e 116 then json_string_body r1 (9%N :: acc)
            else if N.eqb e 117 then
              match r1 with
              | h1 :: h2 :: h3 :: h4 :: r2 =>
                  match hex4 h1 h2 h3 h4 with
                  | Some u => json_string_body r2 (u :: acc)
                  | None => None
                  end
              | _ => None
              end
            else None
        end
      else if N.ltb c 32 then None
      else json_string_body r (c :: acc)
  end.

(** The fraction of a JSON number, [(. digits)?]: its digits, the text
    after it, and whether it is well formed. *)
Definition json_fraction (s : jsstring) : jsstring * jsstring * bool :=
  match strip_prefix [46%N] s with
  | Some r => let (fp, r2) := span isDigit r in (fp, r2, truthy_string fp)
  | None => ([], s, true)
  end.

(** The exponent of a JSON number, [([eE] [+-]? digits)?]: its value, the
    text after it, and whether it is well formed. *)
Definition json_exponent (s : jsstring) : Z * jsstring * bool :=
  match s with
  | c :: r =>
      if N.eqb c 101 || N.eqb c 69 then
        let '(eneg, r') :=
          match strip_prefix [43%N] r, strip_prefix [45%N] r with
          | Some t, _ => (false, t)
          | None, Some t => (true, t)
          | None, None => (false, r)
          end in
        let (ds, r4) := span isDigit r' in
        let e := digits_val 10 digit_val ds in
        (if eneg then Z.opp e else e, r4, truthy_string ds)
      else (0%Z, s, true)
  | [] => (0%Z, s, true)
  end.

(** A JSON number: [-? (0 | [1-9] digits) (. digits)? ([eE] [+-]? digits)?]. *)
Definition json_number (s : jsstring) : option (number * jsstring) :=
  let '(neg, s1) :=
    match strip_prefix [45%N] s with Some r => (true, r) | None => (false, s) end in
  let (ip, r1) := span isDigit s1 in
  let int_ok :=
    match ip with
    | [] => false
    | d :: more => negb (N.eqb d 48 && truthy_string more)
    end in
  let '(fp, r2, frac_ok) := json_fraction r1 in
  let '(e, r3, exp_ok) := json_exponent r2 in
  if int_ok && frac_ok && exp_ok then
    Some (decimal_to_number neg (digits_val 10 digit_val (ip ++ fp))
            (e - Z.of_nat (List.length fp)), r3)
  else None.

Section JsonContainers.

(** The parser of one value, used for the members and elements. *)
Variable parse : jsstring -> option (value * jsstring).

(** The members of an object after [{] or [,]. *)
Fixpoint json_members (fuel : nat) (s : jsstring) (acc : list (jsstring * value))
    : option (value * jsstring) :=
  match fuel with
  | O => None
  | S f =>
      match skip_ws s with
      | c :: r =>
          if N.eqb c 34 then
            match json_string_body r [] with
            | Some (k, r1) =>
                match skip_ws r1 with
                | c1 :: r2 =>
                    if N.eqb c1 58 then
                      match parse r2 with
                      | Some (v, r3) =>
                          match skip_ws r3 with
                          | c2 :: r4 =>
                              if N.eqb c2 44 then json_members f r4 (set_prop acc k v)
                              else if N.eqb c2 125 then Some (VObject (set_prop acc k v), r4)
                              else None
                          | [] => None
                          end
                      | None => None
                      end
                    else None
                | [] => None
                end
            | None => None
            end
          else None
      | [] => None
      end
  end.

(** The elements of an array after [[] or [,]; [acc] is reversed. *)
Fixpoint json_elements (fuel : nat) (s : jsstring) (acc : list value)
    : option (value * jsstring) :=
  match fuel with
  | O => None
  | S f =>
      match parse s with
      | Some (v, r) =>
          match skip_ws r with
          | c :: r1 =>
              if N.eqb c 44 then json_elements f r1 (v :: acc)
              else if N.eqb c 93 then Some (VArray (rev (v :: acc)), r1)
              else None
          | [] => None
          end
      | None => None
      end
  end.

End JsonContainers.

(** One JSON value at the front of [s], and the text after it.  Each
    nested value starts at least one character further on, so a fuel of
    one more than the length of the text is never exhausted. *)
Fixpoint json_value (fuel : nat) (s : jsstring) : option (value * jsstring) :=
  match fuel with
  | O => None
  | S f =>
      match skip_ws s with
      | [] => None
      | c :: r =>
          if N.eqb c 123 then
            match strip_prefix [125%N] (skip_ws r) with
            | Some r' => Some (VObject [], r')
            | None => json_members (json_value f) f r []
            end
          else if N.eqb c 91 then
            match strip_prefix [93%N] (skip_ws r) with
            | Some r' => Some (VArray [], r')
            | None => json_elements (json_value f) f r []
            end
          else if N.eqb c 34 then
            match json_string_body r [] with
            | Some (k, r') => Some (VString k, r')
            | None => None
            end
          else if N.eqb c 45 || isDigit c then
            match json_number (c :: r) with
            | Some (n, r') => Some (VNumber n, r')
            | None => None
            end
          else
            match strip_prefix (str "true") (c :: r),
                  strip_prefix (str "false") (c :: r),
                  strip_prefix (str "null") (c :: r) with
            | Some r', _, _ => Some (VBool true, r')
            | _, Some r', _ => Some (VBool false, r')
            | _, _, Some r' => Some (VNull, r')
            | _, _, _ => None
            end
      end
  end.

(** [JSON.parse(s)]: the value of the text, which is one value with white
    space around it, or a [SyntaxError]. *)
Definition JSON_parse (s : jsstring) : completion value :=
  let text := strip isJsonWhiteSpace s in
  match json_value (S (List.length text)) text with
  | Some (v, []) => Normal v
  | _ => Throw SyntaxError
  end.

(** ** Regular expressions: [new RegExp(pattern, "i")] and [String.prototype.match]

    The pattern language covers what the three patterns of the source use:
    literal characters, identity escapes, [\s] and [\d], character classes
    without ranges, capturing and non-capturing groups, alternation, [^],
    [$], [.], and the greedy [*] and [+] on a single-character atom.  Valid
    syntax outside this fragment is reported as [Unsupported]. *)

Inductive class_escape : Type :=
| CESpace
| CEDigit.

Inductive class_item : Type :=
| CIChar (c : char)
| CIEscape (e : class_escape).

(** The atoms that match exactly one character. *)
Inductive charset : Type :=
| CSChar (c : char)
| CSAny
| CSEscape (e : class_escape)
| CSClass (negated : bool) (items : list class_item).

Inductive regex : Type :=
| REmpty
| RSet (cs : charset)
| RStar (cs : charset)
| RPlus (cs : charset)
| RBol
| REol
| RCat (r1 r2 : regex)
| RAlt (r1 r2 : regex)
| RGroup (n : nat) (r : regex).

(** SyntaxCharacter of the pattern grammar; also the characters that
    [escapeRegExp] escapes: [. * + ? ^ $ { } ( ) | [ ] \]. *)
Definition syntax_chars : list char :=
  [46; 42; 43; 63; 94; 36; 123; 125; 40; 41; 124; 91; 93; 92]%N.

Definition isSyntaxChar (c : char) : bool := existsb (N.eqb c) syntax_chars.

(** The letters and digits after a backslash that do not stand for
    themselves: [d D s S w W b B f n r t v c x u k p P] and [0]-[9]. *)
Definition isEscapeLetter (c : char) : bool :=
  existsb (N.eqb c)
    [100; 68; 115; 83; 119; 87; 98; 66; 102; 110; 114; 116; 118; 99; 120;
     117; 107; 112; 80]%N
  || isDigit c.

Definition mk_cat (terms : list regex) : regex := fold_right RCat REmpty terms.

Fixpoint mk_alt (first : regex) (others : list regex) : regex :=
  match others with
  | [] => first
  | r :: rest => RAlt first (mk_alt r rest)
  end.

(** A group under construction: its capture index, the alternatives that
    are complete and the terms of the current alternative, both reversed. *)
Record frame : Type := mkFrame {
  fr_group : option nat;
  fr_alts : list regex;
  fr_seq : list regex
}.

Inductive pmode : Type :=
| PNormal
| PEscape
| PGroupOpen
| PGroupQuestion
| PClassStart
| PClass (negated : bool) (items : list class_item)
| PClassEscape (negated : bool) (items : list class_item).

Record pstate : Type := mkPState {
  p_mode : pmode;
  p_top : frame;
  p_stack : list frame;
  p_groups : nat
}.

Definition push_term (t : regex) (st : pstate) : pstate :=
  let f := p_top st in
  mkPState PNormal (mkFrame (fr_group f) (fr_alts f) (t :: fr_seq f))
    (p_stack st) (p_groups st).

Definition close_frame (f : frame) : regex :=
  match rev (mk_cat (rev (fr_seq f)) :: fr_alts f) with
  | [] => REmpty
  | a :: rest =>
      match fr_group f with
      | Some n => RGroup n (mk_alt a rest)
      | None => mk_alt a rest
      end
  end.

Definition open_frame (capturing : bool) (st : pstate) : pstate :=
  if capturing then
    mkPState PNormal (mkFrame (Some (S (p_groups st))) [] [])
      (p_top st :: p_stack st) (S (p_groups st))
  else
    mkPState PNormal (mkFrame None [] []) (p_top st :: p_stack st) (p_groups st).

(** A quantifier applies to the last term, which must be an atom. *)
Definition quantify (q : charset -> regex) (st : pstate) : completion pstate :=
  let f := p_top st in
  match fr_seq f with
  | RSet cs :: rest =>
      Normal (mkPState PNormal (mkFrame (fr_group f) (fr_alts f) (q cs :: rest))
                (p_stack st) (p_groups st))
  | [] | RBol :: _ | REol :: _ => Throw SyntaxError
  | _ => Throw Unsupported
  end.

Definition set_mode (m : pmode) (st : pstate) : pstate :=
  mkPState m (p_top st) (p_stack st) (p_groups st).

(** One character of the pattern outside classes and escapes. *)
Definition step_normal (st : pstate) (c : char) : completion pstate :=
  if N.eqb c 92 then Normal (set_mode PEscape st)
  else if N.eqb c 40 then Normal (set_mode PGroupOpen st)
  else if N.eqb c 41 then
    match p_stack st with
    | outer :: rest =>
        Normal (push_term (close_frame (p_top st))
                  (mkPState PNormal outer rest (p_groups st)))
    | [] => Throw SyntaxError
    end
  else if N.eqb c 124 then
    let f := p_top st in
    Normal (mkPState PNormal
              (mkFrame (fr_group f) (mk_cat (rev (fr_seq f)) :: fr_alts f) [])
              (p_stack st) (p_groups st))
  else if N.eqb c 91 then Normal (set_mode PClassStart st)
  else if N.eqb c 42 then quantify RStar st
  else if N.eqb c 43 then quantify RPlus st
  else if N.eqb c 63 then
    match fr_seq (p_top st) with
    | [] | RBol :: _ | REol :: _ => Throw SyntaxError
    | _ => Throw Unsupported
    end
  else if N.eqb c 94 then Normal (push_term RBol st)
  else if N.eqb c 36 then Normal (push_term REol st)
  else if N.eqb c 46 then Normal (push_term (RSet CSAny) st)
  else if N.eqb c 123 || N.eqb c 125 || N.eqb c 93 then Throw Unsupported
  else Normal (push_term (RSet (CSChar c)) st).

Definition step_class (negated : bool) (items : list class_item) (st : pstate)
    (c : char) : completion pstate :=
  if N.eqb c 93 then Normal (push_term (RSet (CSClass negated (rev items))) st)
  else if N.eqb c 92 then Normal (set_mode (PClassEscape negated items) st)
  else if N.eqb c 45 then Throw Unsupported
  else Normal (set_mode (PClass negated (CIChar c :: items)) st).

(** The pattern parser reads one character in one state. *)
Definition step (st : pstate) (c : char) : completion pstate :=
  match p_mode st with
  | PNormal => step_normal st c
  | PEscape =>
      if N.eqb c 115 then Normal (push_term (RSet (CSEscape CESpace)) st)
      else if N.eqb c 100 then Normal (push_term (RSet (CSEscape CEDigit)) st)
      else if isEscapeLetter c then Throw Unsupported
      else Normal (push_term (RSet (CSChar c)) st)
  | PGroupOpen =>
      if N.eqb c 63 then Normal (set_mode PGroupQuestion st)
      else step_normal (open_frame true st) c
  | PGroupQuestion =>
      if N.eqb c 58 then Normal (open_frame false st) else Throw Unsupported
  | PClassStart =>
      if N.eqb c 94 then Normal (set_mode (PClass true []) st)
      else step_class false [] st c
  | PClass negated items => step_class negated items st c
  | PClassEscape negated items =>
      if N.eqb c 115 then Normal (set_mode (PClass negated (CIEscape CESpace :: items)) st)
      else if N.eqb c 100 then Normal (set_mode (PClass negated (CIEscape CEDigit :: items)) st)
      else if isEscapeLetter c then Throw Unsupported
      else Normal (set_mode (PClass negated (CIChar c :: items)) st)
  end.

Fixpoint parse_pattern (st : pstate) (pattern : jsstring) : completion pstate :=
  match pattern with
  | [] => Normal st
  | c :: rest => st' <- step st c ;; parse_pattern st' rest
  end.

Definition initial_pstate : pstate :=
  mkPState PNormal (mkFrame None [] []) [] 0.

Definition finish_pattern (st : pstate) : completion regex :=
  match p_mode st, p_stack st with
  | PNormal, [] => Normal (close_frame (p_top st))
  | PGroupOpen, _ | PGroupQuestion, _ => Throw SyntaxError
  | _, _ => Throw SyntaxError
  end.

(** A compiled regular expression. *)
Record RegExp : Type := mkRegExp {
  re_source : regex;
  re_ignoreCase : bool
}.

(** [new RegExp(pattern, flags)]; [ignoreCase] tells whether the flags are
    ["i"].  An invalid pattern throws a [SyntaxError]. *)
Definition RegExp_new (pattern : jsstring) (ignoreCase : bool) : completion RegExp :=
  st <- parse_pattern initial_pstate pattern ;;
  r <- finish_pattern st ;;
  Normal (mkRegExp r ignoreCase).

(** The case pairs of Canonicalize, for a match with the flag [i] and
    without the flag [u] (ECMAScript 22.2.2.7.3): an entry
    [(lo, hi, stride, to)] maps every code unit [c] with [lo <= c <= hi]
    and [c - lo] a multiple of [stride] to [to + (c - lo)].  The entries
    are the code units whose upper case, by the toUppercase of the Unicode
    Default Case Conversion, is one other code unit; a code unit from
    U+0080 on whose upper case is below U+0080 keeps itself, so [U+017F]
    and [U+0131] have no entry, and a code unit whose upper case is more
    than one code unit, as [U+00DF], has none either.  The table is the one
    of Unicode 14.0, which the versions 15.0 and 15.1 leave as it is on the
    Basic Multilingual Plane; Unicode 16.0 adds a few pairs of Latin and
    Cyrillic letters, which an engine of that version folds and this table
    does not. *)
Definition case_pairs : list (N * N * N * N) :=
  [(97, 122, 1, 65); (181, 181, 1, 924); (224, 246, 1, 192);
   (248, 254, 1, 216); (255, 255, 1, 376); (257, 303, 2, 256);
   (307, 311, 2, 306); (314, 328, 2, 313); (331, 375, 2, 330);
   (378, 382, 2, 377); (384, 384, 1, 579); (387, 389, 2, 386);
   (392, 392, 1, 391); (396, 396, 1, 395); (402, 402, 1, 401);
   (405, 405, 1, 502); (409, 409, 1, 408); (410, 410, 1, 573);
   (414, 414, 1, 544); (417, 421, 2, 416); (424, 424, 1, 423);
   (429, 429, 1, 428); (432, 432, 1, 431); (436, 438, 2, 435);
   (441, 441, 1, 440); (445, 445, 1, 444); (447, 447, 1, 503);
   (453, 453, 1, 452); (454, 454, 1, 452); (456, 456, 1, 455);
   (457, 457, 1, 455); (459, 459, 1, 458); (460, 460, 1, 458);
   (462, 476, 2, 461); (477, 477, 1, 398); (479, 495, 2, 478);
   (498, 498, 1, 497); (499, 499, 1, 497); (501, 501, 1, 500);
   (505, 543, 2, 504); (547, 563, 2, 546); (572, 572, 1, 571);
   (575, 576, 1, 11390); (578, 578, 1, 577); (583, 591, 2, 582);
   (592, 592, 1, 11375); (593, 593, 1, 11373); (594, 594, 1, 11376);
   (595, 595, 1, 385); (596, 596, 1, 390); (598, 599, 1, 393);
   (601, 601, 1, 399); (603, 603, 1, 400); (604, 604, 1, 42923);
   (608, 608, 1, 403); (609, 609, 1, 42924); (611, 611, 1, 404);
   (613, 613, 1, 42893); (614, 614, 1, 42922); (616, 616, 1, 407);
   (617, 617, 1, 406); (618, 618, 1, 42926); (619, 619, 1, 11362);
   (620, 620, 1, 42925); (623, 623, 1, 412); (625, 625, 1, 11374);
   (626, 626, 1, 413); (629, 629, 1, 415); (637, 637, 1, 11364);
   (640, 640, 1, 422); (642, 642, 1, 42949); (643, 643, 1, 425);
   (647, 647, 1, 42929); (648, 648, 1, 430); (649, 649, 1, 580);
   (650, 651, 1, 433); (652, 652, 1, 581); (658, 658, 1, 439);
   (669, 669, 1, 42930); (670, 670, 1, 42928); (837, 837, 1, 921);
   (881, 883, 2, 880); (887, 887, 1, 886); (891, 893, 1, 1021);
   (940, 940, 1, 902); (941, 943, 1, 904); (945, 961, 1, 913);
   (962, 962, 1, 931); (963, 971, 1, 931); (972, 972, 1, 908);
   (973, 974, 1, 910); (976, 976, 1, 914); (977, 977, 1, 920);
   (981, 981, 1, 934); (982, 982, 1, 928); (983, 983, 1, 975);
   (985, 1007, 2, 984); (1008, 1008, 1, 922); (1009, 1009, 1, 929);
   (1010, 1010, 1, 1017); (1011, 1011, 1, 895); (1013, 1013, 1, 917);
   (1016, 1016, 1, 1015); (1019, 1019, 1, 1018); (1072, 1103, 1, 1040);
   (1104, 1119, 1, 1024); (1121, 1153, 2, 1120); (1163, 1215, 2, 1162);
   (1218, 1230, 2, 1217); (1231, 1231, 1, 1216); (1233, 1327, 2, 1232);
   (1377, 1414, 1, 1329); (4304, 4346, 1, 7312); (4349, 4351, 1, 7357);
   (5112, 5117, 1, 5104); (7296, 7296, 1, 1042); (7297, 7297, 1, 1044);
   (7298, 7298, 1, 1054); (7299, 7300, 1, 1057); (7301, 7301, 1, 1058);
   (7302, 7302, 1, 1066); (7303, 7303, 1, 1122); (7304, 7304, 1, 42570);
   (7545, 7545, 1, 42877); (7549, 7549, 1, 11363); (7566, 7566, 1, 42950);
   (7681, 7829, 2, 7680); (7835, 7835, 1, 7776); (7841, 7935, 2, 7840);
   (7936, 7943, 1, 7944); (7952, 7957, 1, 7960); (7968, 7975, 1, 7976);
   (7984, 7991, 1, 7992); (8000, 8005, 1, 8008); (8017, 8023, 2, 8025);
   (8032, 8039, 1, 8040); (8048, 8049, 1, 8122); (8050, 8053, 1, 8136);
   (8054, 8055, 1, 8154); (8056, 8057, 1, 8184); (8058, 8059, 1, 8170);
   (8060, 8061, 1, 8186); (8112, 8113, 1, 8120); (8126, 8126, 1, 921);
   (8144, 8145, 1, 8152); (8160, 8161, 1, 8168); (8165, 8165, 1, 8172);
   (8526, 8526, 1, 8498); (8560, 8575, 1, 8544); (8580, 8580, 1, 8579);
   (9424, 9449, 1, 9398); (11312, 11359, 1, 11264); (11361, 11361, 1, 11360);
   (11365, 11365, 1, 570); (11366, 11366, 1, 574); (11368, 11372, 2, 11367);
   (11379, 11379, 1, 11378); (11382, 11382, 1, 11381);
   (11393, 11491, 2, 11392); (11500, 11502, 2, 11499);
   (11507, 11507, 1, 11506); (11520, 11557, 1, 4256);
   (11559, 11559, 1, 4295); (11565, 11565, 1, 4301);
   (42561, 42605, 2, 42560); (42625, 42651, 2, 42624);
   (42787, 42799, 2, 42786); (42803, 42863, 2, 42802);
   (42874, 42876, 2, 42873); (42879, 42887, 2, 42878);
   (42892, 42892, 1, 42891); (42897, 42899, 2, 42896);
   (42900, 42900, 1, 42948); (42903, 42921, 2, 42902);
   (42933, 42947, 2, 42932); (42952, 42954, 2, 42951);
   (42961, 42961, 1, 42960); (42967, 42969, 2, 42966);
   (42998, 42998, 1, 42997); (43859, 43859, 1, 42931);
   (43888, 43967, 1, 5024); (65345, 65370, 1, 65313)]%N.

Definition in_case_entry (c : char) (e : N * N * N * N) : bool :=
  let '(lo, hi, stride, _) := e in
  N.leb lo c && N.leb c hi && N.eqb ((c - lo) mod stride) 0.

(** Canonicalize of a case-insensitive match without the unicode flag: the
    upper-case mapping of one code unit. *)
Definition canonicalize (c : char) : char :=
  match find (in_case_entry c) case_pairs with
  | Some (lo, _, _, to) => (to + (c - lo))%N
  | None => c
  end.

Definition char_eq (ic : bool) (a c : char) : bool :=
  if ic then N.eqb (canonicalize a) (canonicalize c) else N.eqb a c.

Definition escape_mem (e : class_escape) (c : char) : bool :=
  match e with
  | CESpace => isWhiteSpace c
  | CEDigit => isDigit c
  end.

Definition item_mem (ic : bool) (it : class_item) (c : char) : bool :=
  match it with
  | CIChar a => char_eq ic a c
  | CIEscape e => escape_mem e c
  end.

Definition isLineTerminator (c : char) : bool :=
  N.eqb c 10 || N.eqb c 13 || N.eqb c 8232 || N.eqb c 8233.

Definition charset_mem (ic : bool) (cs : charset) (c : char) : bool :=
  match cs with
  | CSChar a => char_eq ic a c
  | CSAny => negb (isLineTerminator c)
  | CSEscape e => escape_mem e c
  | CSClass negated items => xorb negated (existsb (fun it => item_mem ic it c) items)
  end.

(** The captures of a match: group index and captured text, the latest
    first.  A group that took no part in the match has no entry. *)
Definition captures := list (nat * jsstring).

(** A continuation of the backtracking matcher: the position in the input,
    the text that is left and the captures so far. *)
Definition continuation := nat -> jsstring -> captures -> option captures.

Section Matcher.

Variable ic : bool.

(** Greedy repetition of a one-character atom: as many characters as
    possible first, one fewer when the continuation fails. *)
Fixpoint match_star (cs : charset) (k : continuation) (pos : nat) (s : jsstring)
    (caps : captures) : option captures :=
  match s with
  | c :: s' =>
      if charset_mem ic cs c then
        match match_star cs k (S pos) s' caps with
        | Some r => Some r
        | None => k pos s caps
        end
      else k pos s caps
  | [] => k pos s caps
  end.

(** The backtracking matcher of ECMAScript (22.2.2), in continuation
    passing style. *)
Fixpoint rmatch (r : regex) (k : continuation) (pos : nat) (s : jsstring)
    (caps : captures) : option captures :=
  match r with
  | REmpty => k pos s caps
  | RSet cs =>
      match s with
      | c :: s' => if charset_mem ic cs c then k (S pos) s' caps else None
      | [] => None
      end
  | RStar cs => match_star cs k pos s caps
  | RPlus cs =>
      match s with
      | c :: s' => if charset_mem ic cs c then match_star cs k (S pos) s' caps else None
      | [] => None
      end
  | RBol => if Nat.eqb pos 0 then k pos s caps else None
  | REol => match s with [] => k pos s caps | _ :: _ => None end
  | RCat r1 r2 => rmatch r1 (fun pos' s' caps' => rmatch r2 k pos' s' caps') pos s caps
  | RAlt r1 r2 =>
      match rmatch r1 k pos s caps with
      | Some res => Some res
      | None => rmatch r2 k pos s caps
      end
  | RGroup n r1 =>
      rmatch r1 (fun pos' s' caps' => k pos' s' ((n, firstn (pos' - pos) s) :: caps'))
        pos s caps
  end.

(** The match that starts at position [pos], where [s] is the input from
    [pos] on; group 0 is the whole match. *)
Definition match_at (r : regex) (pos : nat) (s : jsstring) : option captures :=
  rmatch r (fun pos' _ caps => Some ((0, firstn (pos' - pos) s) :: caps)) pos s [].

(** The first position, from [pos] on, at which the expression matches. *)
Fixpoint search_from (r : regex) (pos : nat) (s : jsstring) : option captures :=
  match match_at r pos s with
  | Some caps => Some caps
  | None =>
      match s with
      | [] => None
      | _ :: s' => search_from r (S pos) s'
      end
  end.

End Matcher.

(** [s.match(re)] for an expression without the global flag: the captures
    of the leftmost match, or [None] for [null]. *)
Definition String_match (s : jsstring) (re : RegExp) : option captures :=
  search_from (re_ignoreCase re) (re_source re) 0 s.

(** [m[i]] as an optional string: [None] is [undefined]. *)
Fixpoint group (m : captures) (i : nat) : option jsstring :=
  match m with
  | [] => None
  | (n, t) :: rest => if Nat.eqb n i then Some t else group rest i
  end.

(** ** UTF-8, percent-decoding, [decodeURIComponent], [URLSearchParams] *)

Definition in_range (lo hi c : N) : bool := N.leb lo c && N.leb c hi.

(** The code points of a string; an unpaired surrogate becomes U+FFFD, as
    in the conversion to a scalar value string. *)
Fixpoint to_code_points (s : jsstring) : list N :=
  match s with
  | [] => []
  | c :: r =>
      if in_range 55296 56319 c then
        match r with
        | d :: r' =>
            if in_range 56320 57343 d then
              (65536 + (c - 55296) * 1024 + (d - 56320))%N :: to_code_points r'
            else 65533%N :: to_code_points r
        | [] => [65533%N]
        end
      else if in_range 56320 57343 c then 65533%N :: to_code_points r
      else c :: to_code_points r
  end.

Definition utf16_of_code_point (cp : N) : jsstring :=
  if N.ltb cp 65536 then [cp]
  else [55296 + (cp - 65536) / 1024; 56320 + (cp - 65536) mod 1024]%N.

Definition utf8_of_code_point (cp : N) : list N :=
  if N.ltb cp 128 then [cp]
  else if N.ltb cp 2048 then [192 + cp / 64; 128 + cp mod 64]%N
  else if N.ltb cp 65536 then
    [224 + cp / 4096; 128 + (cp / 64) mod 64; 128 + cp mod 64]%N
  else
    [240 + cp / 262144; 128 + (cp / 4096) mod 64; 128 + (cp / 64) mod 64;
     128 + cp mod 64]%N.

(** UTF-8 encode of a string. *)
Definition utf8_encode (s : jsstring) : list N :=
  flat_map utf8_of_code_point (to_code_points s).

Inductive utf8_state : Type :=
| U8Start
| U8Cont (needed : nat) (cp lower upper : N).

(** The first byte of a UTF-8 sequence: what it emits and the next state. *)
Definition utf8_lead (b : N) : list N * utf8_state :=
  if N.ltb b 128 then ([b], U8Start)
  else if in_range 194 223 b then ([], U8Cont 1 (b - 192) 128 191)
  else if in_range 224 239 b then
    ([], U8Cont 2 (b - 224) (if N.eqb b 224 then 160 else 128)
           (if N.eqb b 237 then 159 else 191)%N)
  else if in_range 240 244 b then
    ([], U8Cont 3 (b - 240) (if N.eqb b 240 then 144 else 128)
           (if N.eqb b 244 then 143 else 191)%N)
  else ([65533%N], U8Start).

(** The UTF-8 decoder of the WHATWG Encoding standard, which replaces an
    ill-formed sequence by U+FFFD; it yields code points. *)
Fixpoint utf8_decode (st : utf8_state) (bytes : list N) : list N :=
  match bytes with
  | [] => match st with U8Start => [] | U8Cont _ _ _ _ => [65533%N] end
  | b :: r =>
      match st with
      | U8Start => let (out, st') := utf8_lead b in out ++ utf8_decode st' r
      | U8Cont needed cp lower upper =>
          if in_range lower upper b then
            let cp' := (cp * 64 + (b - 128))%N in
            match needed with
            | S (S n) => utf8_decode (U8Cont (S n) cp' 128 191) r
            | _ => cp' :: utf8_decode U8Start r
            end
          else
            let (out, st') := utf8_lead b in
            65533%N :: out ++ utf8_decode st' r
      end
  end.

(** UTF-8 decode without BOM, to a string. *)
Definition utf8_decode_string (bytes : list N) : jsstring :=
  flat_map utf16_of_code_point (utf8_decode U8Start bytes).

Definition byte_of_hex (h1 h2 : char) : N := Z.to_N (hex_val h1 * 16 + hex_val h2).

(** Percent-decode of a byte sequence: a [%] that two hexadecimal digits
    do not follow stays as it is. *)
Fixpoint percent_decode (bs : list N) : list N :=
  match bs with
  | [] => []
  | b :: r =>
      if N.eqb b 37 then
        match r with
        | h1 :: h2 :: r' =>
            if isHexDigit h1 && isHexDigit h2 then byte_of_hex h1 h2 :: percent_decode r'
            else b :: percent_decode r
        | _ => b :: percent_decode r
        end
      else b :: percent_decode r
  end.

(** The application/x-www-form-urlencoded parser: the name and value pairs
    of a byte sequence. *)
Definition urlencoded_parse (input : list N) : list (jsstring * jsstring) :=
  flat_map
    (fun bytes =>
       match bytes with
       | [] => []
       | _ =>
           let (name, rest) := span (fun c => negb (N.eqb c 61)) bytes in
           let value := tl rest in
           let plus_to_space := map (fun c => if N.eqb c 43 then 32%N else c) in
           [(utf8_decode_string (percent_decode (plus_to_space name)),
             utf8_decode_string (percent_decode (plus_to_space value)))]
       end)
    (split 38%N input).

(** The list of a [URLSearchParams] object. *)
Definition URLSearchParams := list (jsstring * jsstring).

(** [new URLSearchParams(init)] for a string: one leading [?] is dropped. *)
Definition URLSearchParams_new (init : jsstring) : URLSearchParams :=
  let init' := match init with 63%N :: r => r | _ => init end in
  urlencoded_parse (utf8_encode init').

(** [params.get(name)]: the value of the first pair with that name;
    [None] is [null]. *)
Definition URLSearchParams_get (params : URLSearchParams) (name : jsstring)
    : option jsstring :=
  let name' := flat_map utf16_of_code_point (to_code_points name) in
  match find (fun p => jsstring_eqb (fst p) name') params with
  | Some p => Some (snd p)
  | None => None
  end.

(** The code point of a well-formed UTF-8 sequence of two to four bytes. *)
Definition utf8_strict (bytes : list N) : option N :=
  match bytes with
  | [b0; b1] =>
      if in_range 194 223 b0 && in_range 128 191 b1
      then Some ((b0 - 192) * 64 + (b1 - 128))%N else None
  | [b0; b1; b2] =>
      if in_range 224 239 b0
         && in_range (if N.eqb b0 224 then 160 else 128) (if N.eqb b0 237 then 159 else 191) b1
         && in_range 128 191 b2
      then Some (((b0 - 224) * 64 + (b1 - 128)) * 64 + (b2 - 128))%N else None
  | [b0; b1; b2; b3] =>
      if in_range 240 244 b0
         && in_range (if N.eqb b0 240 then 144 else 128) (if N.eqb b0 244 then 143 else 191) b1
         && in_range 128 191 b2 && in_range 128 191 b3
      then Some ((((b0 - 240) * 64 + (b1 - 128)) * 64 + (b2 - 128)) * 64 + (b3 - 128))%N
      else None
  | _ => None
  end.

(** [n] escaped bytes [%XX] at the front of [s], and the rest. *)
Fixpoint take_escaped (n : nat) (s : jsstring) : option (list N * jsstring) :=
  match n with
  | O => Some ([], s)
  | S n' =>
      match s with
      | c :: h1 :: h2 :: r =>
          if N.eqb c 37 && isHexDigit h1 && isHexDigit h2 then
            match take_escaped n' r with
            | Some (bs, r') => Some (byte_of_hex h1 h2 :: bs, r')
            | None => None
            end
          else None
      | _ => None
      end
  end.

(** Decode of ECMAScript (19.2.6.6) with an empty reserved set.  Every
    step consumes a character, so the fuel of [decodeURIComponent] is
    never exhausted. *)
Fixpoint decode_uri (fuel : nat) (s : jsstring) : completion jsstring :=
  match fuel with
  | O => Throw URIError
  | S f =>
      match s with
      | [] => Normal []
      | c :: r =>
          if negb (N.eqb c 37) then
            rest <- decode_uri f r ;; Normal (c :: rest)
          else
            match r with
            | h1 :: h2 :: r1 =>
                if isHexDigit h1 && isHexDigit h2 then
                  let b := byte_of_hex h1 h2 in
                  if N.ltb b 128 then
                    rest <- decode_uri f r1 ;; Normal (b :: rest)
                  else
                    let n := if in_range 192 223 b then 2%nat
                             else if in_range 224 239 b then 3%nat
                             else if in_range 240 247 b then 4%nat else 0%nat in
                    match n with
                    | O => Throw URIError
                    | S n' =>
                        match take_escaped n' r1 with
                        | Some (bs, r2) =>
                            match utf8_strict (b :: bs) with
                            | Some cp =>
                                rest <- decode_uri f r2 ;;
                                Normal (utf16_of_code_point cp ++ rest)
                            | None => Throw URIError
                            end
                        | None => Throw URIError
                        end
                    end
                else Throw URIError
            | _ => Throw URIError
            end
      end
  end.

(** [decodeURIComponent(s)]; a malformed escape throws a [URIError]. *)
Definition decodeURIComponent (s : jsstring) : completion jsstring :=
  decode_uri (S (List.length s)) s.

(** ** The URL record of [new URL] *)

(** What the extractor reads of a parsed URL: its query, without the
    leading [?] (empty when the URL has none). *)
Record URL : Type := mkURL {
  url_query : jsstring
}.

(** [u.searchParams] *)
Definition searchParams (u : URL) : URLSearchParams :=
  urlencoded_parse (utf8_encode (url_query u)).

(** ** The extractor ([src/app/page.tsx], lines 16 to 130) *)

(** [typeof v === "object" && v !== null && !Array.isArray(v)] *)
Definition isObject (v : value) : bool :=
  type_tag_eqb (typeof v) TObject && negb (is_null v) && negb (Array_isArray v).

(** The [for (const p of parts)] loop of [getByPath], from the current
    value [cur]. *)
Fixpoint getByPath_loop (parts : list jsstring) (cur : value) : completion value :=
  match parts with
  | [] => Normal cur
  | p :: rest =>
      if loose_null cur then Normal VUndefined
      else if Array_isArray cur then
        let idx := Number p in
        cur' <- (if Number_isInteger idx then GetIndex cur idx else Normal VUndefined) ;;
        getByPath_loop rest cur'
      else if isObject cur then
        cur' <- Get cur p ;;
        getByPath_loop rest cur'
      else Normal VUndefined
  end.

Definition getByPath (obj : value) (path : jsstring) : completion value :=
  if negb (isObject obj) then Normal VUndefined
  else
    let parts := filter truthy_string (split dot path) in
    getByPath_loop parts obj.

Definition tryParseJson (input : jsstring) : completion value :=
  let trimmed := trim input in
  if negb (truthy_string trimmed) then Normal VUndefined
  else try_catch (JSON_parse trimmed) (Normal VUndefined).

(** [s.replace(/[.*+?^${}()|[\]\\]/g, "\\$&")]: a backslash before every
    syntax character. *)
Definition escapeRegExp (s : jsstring) : jsstring :=
  flat_map (fun c => if isSyntaxChar c then [92%N; c] else [c]) s.

Definition decodeMaybe (s : jsstring) : completion jsstring :=
  try_catch (decodeURIComponent s) (Normal s).

(** [a || b] on optional strings: [undefined] and the empty string are
    falsy. *)
Definition or_else (a b : option jsstring) : option jsstring :=
  match a with
  | Some (_ :: _) => a
  | _ => b
  end.

(** ToString of an optional string argument. *)
Definition ToString (a : option jsstring) : jsstring :=
  match a with
  | Some s => s
  | None => str "undefined"
  end.

(** [s.toLowerCase()], on the letters A to Z. *)
Definition toLowerCase (s : jsstring) : jsstring :=
  map (fun c => if in_range 65 90 c then (c + 32)%N else c) s.

(** [raw.replace(/^[?#]/, "")] *)
Definition strip_leading_mark (s : jsstring) : jsstring :=
  match s with
  | c :: r => if N.eqb c 63 || N.eqb c 35 then r else s
  | [] => []
  end.

(** The pattern of line 78. *)
Definition urlPattern (key : jsstring) : jsstring :=
  str "(?:^|[?&;,\s])" ++ escapeRegExp key ++ str "\s*(?:=|:)\s*(" ++ dq
    ++ str "([^" ++ dq ++ str "]+)" ++ dq ++ str "|'([^']+)'|([^\s&;,]+))".

(** The pattern of line 101. *)
Definition jsonishPattern (key : jsstring) : jsstring :=
  dq ++ escapeRegExp key ++ dq ++ str "\s*:\s*(?:" ++ dq ++ str "([^" ++ dq
    ++ str "]+)" ++ dq ++ str "|'([^']+)'|([\-\d.]+)|(true|false)|null)".

(** The pattern of line 125. *)
Definition genericPattern (key : jsstring) : jsstring :=
  str "(?:^|[\s,;|])" ++ escapeRegExp key ++ str "\s*(?:=|:)\s*(" ++ dq
    ++ str "([^" ++ dq ++ str "]+)" ++ dq ++ str "|'([^']+)'|([^\s,;|]+))".

(** Lines 89 to 97 of [searchJsonLike]: the strict parse.  [Some v] is the
    early [return v]. *)
Definition jsonStrict (input key : jsstring) : completion (option value) :=
  parsed <- tryParseJson input ;;
  if negb (is_undefined parsed) then
    val <- (if includes key dot then getByPath parsed key
            else if isObject parsed then Get parsed key
            else Normal VUndefined) ;;
    if negb (is_undefined val) && negb (type_tag_eqb (typeof val) TObject)
    then Normal (Some val)
    else Normal None
  else Normal None.

(** Lines 99 to 111 of [searchJsonLike]: the JSON-ish pattern. *)
Definition jsonishFallback (input key : jsstring) : completion value :=
  jsonishRe <- RegExp_new (jsonishPattern key) true ;;
  match String_match input jsonishRe with
  | None => Normal VUndefined
  | Some m =>
      match group m 1, group m 2, group m 3, group m 4 with
      | Some s, _, _, _ => Normal (VString s)
      | None, Some s, _, _ => Normal (VString s)
      | None, None, Some s, _ =>
          let n := Number s in
          Normal (if Number_isNaN n then VString s else VNumber n)
      | None, None, None, Some s =>
          Normal (VBool (jsstring_eqb (toLowerCase s) (str "true")))
      | None, None, None, None => Normal VNull
      end
  end.

Definition searchJsonLike (input key : jsstring) : completion value :=
  strict <- jsonStrict input key ;;
  match strict with
  | Some val => Normal val
  | None => jsonishFallback input key
  end.

(** Lines 124 to 129 of [extractValue]: the generic pattern. *)
Definition genericFallback (input key : jsstring) : completion value :=
  generic <- RegExp_new (genericPattern key) true ;;
  match String_match input generic with
  | Some m =>
      Normal (match or_else (or_else (group m 2) (group m 3)) (group m 4) with
              | Some s => VString s
              | None => VUndefined
              end)
  | None => Normal VUndefined
  end.

Section Extractor.

(** [new URL(s)]: the WHATWG URL parser without a base URL, which throws
    a [TypeError] when [s] is not an absolute URL. *)
Variable URL_new : jsstring -> completion URL.

Definition searchUrlLike (input key : jsstring) : completion value :=
  full <- try_catch
            (u <- URL_new (trim input) ;;
             match URLSearchParams_get (searchParams u) key with
             | Some val => d <- decodeMaybe val ;; Normal (Some (VString d))
             | None => Normal None
             end)
            (Normal None) ;;
  match full with
  | Some v => Normal v
  | None =>
      let raw := strip_leading_mark (trim input) in
      let qs := URLSearchParams_new raw in
      match URLSearchParams_get qs key with
      | Some val => d <- decodeMaybe val ;; Normal (VString d)
      | None =>
          re <- RegExp_new (urlPattern key) true ;;
          match String_match raw re with
          | Some m =>
              d <- decodeMaybe
                     (ToString (or_else (or_else (group m 2) (group m 3)) (group m 4))) ;;
              Normal (VString d)
          | None => Normal VUndefined
          end
      end
  end.

Definition extractValue (input key : jsstring) : completion value :=
  if negb (truthy_string (trim key)) then Normal VUndefined
  else
    j <- searchJsonLike input key ;;
    if negb (is_undefined j) then Normal j
    else
      u <- searchUrlLike input key ;;
      if negb (is_undefined u) then Normal u
      else genericFallback input key.

End Extractor.

(** ** A URL parser for the examples

    The theorems below hold for every URL parser.  The examples run the
    extractor with this one, which follows the WHATWG parser on the part
    that decides them: leading and trailing C0 controls and spaces are
    dropped and tabs and newlines removed; a text without a scheme is not
    a URL; a special scheme needs a host; the query is the text between the
    first [?] and the first [#], percent-encoded.  The host itself is not
    validated. *)

Definition isAsciiAlpha (c : char) : bool := in_range 65 90 c || in_range 97 122 c.

Definition isSchemeChar (c : char) : bool :=
  isAsciiAlpha c || isDigit c || N.eqb c 43 || N.eqb c 45 || N.eqb c 46.

Definition trim_c0 (s : jsstring) : jsstring :=
  let drop := fix drop (t : jsstring) : jsstring :=
    match t with
    | c :: t' => if N.leb c 32 then drop t' else t
    | [] => []
    end in
  rev (drop (rev (drop s))).

Definition special_schemes : list jsstring :=
  [str "http"; str "https"; str "ws"; str "wss"; str "ftp"].

Definition hex_digit (n : N) : char := if N.ltb n 10 then (48 + n)%N else (55 + n)%N.

(** The UTF-8 percent-encoding of the query state. *)
Definition encode_query (special : bool) (q : jsstring) : jsstring :=
  flat_map
    (fun cp =>
       if N.leb cp 32 || N.leb 127 cp || N.eqb cp 34 || N.eqb cp 35 || N.eqb cp 60
          || N.eqb cp 62 || (special && N.eqb cp 39)
       then flat_map (fun b => [37%N; hex_digit (b / 16); hex_digit (b mod 16)])
              (utf8_of_code_point cp)
       else [cp])
    (to_code_points q).

Definition basic_URL_parser (input : jsstring) : completion URL :=
  let s := filter (fun c => negb (N.eqb c 9 || N.eqb c 10 || N.eqb c 13)) (trim_c0 input) in
  match span isSchemeChar s with
  | (c :: scheme, 58%N :: rest) =>
      if isAsciiAlpha c then
        let special := existsb (jsstring_eqb (toLowerCase (c :: scheme))) special_schemes in
        let (before_fragment, _) := span (fun x => negb (N.eqb x 35)) rest in
        let (hier, q) := span (fun x => negb (N.eqb x 63)) before_fragment in
        let (_, after_slashes) := span (fun x => N.eqb x 47 || N.eqb x 92) hier in
        let (host, _) := span (fun x => negb (N.eqb x 47 || N.eqb x 92)) after_slashes in
        if special && negb (truthy_string host) then Throw TypeError
        else Normal (mkURL (encode_query special (tl q)))
      else Throw TypeError
  | _ => Throw TypeError
  end.

(** ** The three patterns as syntax trees *)

(** A literal character of a pattern. *)
Definition lit (c : char) : regex := RSet (CSChar c).

Definition space_star : regex := RStar (CSEscape CESpace).

(** A quoted value: the quote, a captured run of other characters, the
    quote. *)
Definition quoted_value (quote : char) (n : nat) : regex :=
  mk_cat [lit quote; RGroup n (mk_cat [RPlus (CSClass true [CIChar quote])]); lit quote].

(** The value alternatives of the JSON-ish pattern: a double-quoted string
    (group 1), a single-quoted string (group 2), a run of [-], digits and
    [.] (group 3), [true] or [false] (group 4), [null]. *)
Definition jsonish_values : regex :=
  mk_alt (quoted_value 34 1)
    [quoted_value 39 2;
     mk_cat [RGroup 3 (mk_cat [RPlus (CSClass false [CIChar 45; CIEscape CEDigit; CIChar 46])])];
     mk_cat [RGroup 4 (mk_alt (mk_cat (map lit (str "true"))) [mk_cat (map lit (str "false"))])];
     mk_cat (map lit (str "null"))].

(** The JSON-ish pattern for [key]: the key between double quotes,
    character by character, then [\s*:\s*] and a value. *)
Definition jsonish_regex (key : jsstring) : regex :=
  mk_cat ([lit 34] ++ map lit key ++ [lit 34; space_star; lit 58; space_star; jsonish_values]).

(** The value alternatives of the two [key = value] patterns: group 1
    around a double-quoted string (group 2), a single-quoted string
    (group 3) or a run of characters outside [stops] (group 4). *)
Definition separator_values (stops : list class_item) : regex :=
  RGroup 1
    (mk_alt (quoted_value 34 2)
       [quoted_value 39 3;
        mk_cat [RGroup 4 (mk_cat [RPlus (CSClass true stops)])]]).

Definition key_value_regex (before stops : list class_item) (key : jsstring) : regex :=
  mk_cat ([mk_alt (mk_cat [RBol]) [mk_cat [RSet (CSClass false before)]]]
            ++ map lit key
            ++ [space_star; mk_alt (mk_cat [lit 61]) [mk_cat [lit 58]]; space_star;
                separator_values stops]).

Definition url_regex : jsstring -> regex :=
  key_value_regex [CIChar 63; CIChar 38; CIChar 59; CIChar 44; CIEscape CESpace]
    [CIEscape CESpace; CIChar 38; CIChar 59; CIChar 44].

Definition generic_regex : jsstring -> regex :=
  key_value_regex [CIEscape CESpace; CIChar 44; CIChar 59; CIChar 124]
    [CIEscape CESpace; CIChar 44; CIChar 59; CIChar 124].

(** The parser state after the literal characters of [key]. *)
Definition push_literals (key : jsstring) (st : pstate) : pstate :=
  mkPState PNormal
    (mkFrame (fr_group (p_top st)) (fr_alts (p_top st))
       (rev (map lit key) ++ fr_seq (p_top st)))
    (p_stack st) (p_groups st).

(** A parser state outside every group. *)
Definition top_state (seq : list regex) (n : nat) : pstate :=
  mkPState PNormal (mkFrame None [] seq) [] n.

(** ** [String(n)] for a Number: Number::toString with radix 10 *)

Fixpoint digits_loop (fuel : nat) (z : Z) (acc : jsstring) : jsstring :=
  match fuel with
  | O => acc
  | S f =>
      let acc' := Z.to_N (48 + z mod 10) :: acc in
      if (z <? 10)%Z then acc' else digits_loop f (z / 10) acc'
  end.

(** The decimal digits of [z], for [0 <= z]; a number has no more decimal
    digits than binary ones. *)
Definition decimal_digits (z : Z) : jsstring :=
  digits_loop (S (Z.to_nat (Z.log2 z))) z [].

(** The value [m * 2^e] as a fraction. *)
Definition number_fraction (m : positive) (e : Z) : Z * Z :=
  if (0 <=? e)%Z then (Z.pos m * 2 ^ e, 1)%Z else (Z.pos m, 2 ^ (- e))%Z.

(** The least [j] from [j] on with [den <= num * 10^j]. *)
Fixpoint first_scale (fuel : nat) (num den j : Z) : Z :=
  match fuel with
  | O => j
  | S f => if (den <=? num * 10 ^ j)%Z then j else first_scale f num den (j + 1)
  end.

(** The [n] with [10^(n-1) <= num / den < 10^n], for a positive fraction. *)
Definition decimal_order (num den : Z) : Z :=
  if (den <=? num)%Z then Z.of_nat (List.length (decimal_digits (num / den)))
  else (1 - first_scale (S (Z.to_nat (Z.log2 den))) num den 1)%Z.

(** Whether two finite numbers have the same sign and value. *)
Definition same_value (a b : number) : bool :=
  match a, b with
  | S754_finite s1 m1 e1, S754_finite s2 m2 e2 =>
      let e := Z.min e1 e2 in
      Bool.eqb s1 s2 && (Z.pos m1 * 2 ^ (e1 - e) =? Z.pos m2 * 2 ^ (e2 - e))%Z
  | _, _ => false
  end.

(** The digits [s] and the order [n] of the decimal with [k] digits that
    reads back as [x] and is nearest to it (the even one of two equally
    near), when there is one.  [x] is [num / den] and [n] its order. *)
Definition decimal_candidate (x : number) (num den n k : Z) : option (Z * Z) :=
  let sh := (k - n)%Z in
  let '(q, r, d) :=
    if (0 <=? sh)%Z then
      let a := (num * 10 ^ sh)%Z in (a / den, a mod den, den)%Z
    else
      let d := (den * 10 ^ (- sh))%Z in (num / d, num mod d, d)%Z in
  let reads_back s := same_value (decimal_to_number false s (n - k)) x in
  let lo := (q, n) in
  let hi := if (q + 1 =? 10 ^ k)%Z then (10 ^ (k - 1), n + 1)%Z else (q + 1, n)%Z in
  match reads_back q, reads_back (q + 1)%Z with
  | true, true =>
      if (2 * r <? d)%Z then Some lo
      else if (d <? 2 * r)%Z then Some hi
      else if Z.even q then Some lo else Some hi
  | true, false => Some lo
  | false, true => Some hi
  | false, false => None
  end.

(** The shortest decimal that reads back as [x]: the candidate with the
    fewest digits, from [k] digits on. *)
Fixpoint shortest_decimal (fuel : nat) (x : number) (num den n k : Z) : Z * Z :=
  match decimal_candidate x num den n k with
  | Some sn => sn
  | None =>
      match fuel with
      | O => ((num * 10 ^ (k - n)) / den, n)%Z
      | S f => shortest_decimal f x num den n (k + 1)
      end
  end.

(** The digits [ds] of a decimal of order [n] as Number::toString writes
    them: plainly for [-6 < n <= 21], with an exponent otherwise. *)
Definition format_decimal (ds : jsstring) (n : Z) : jsstring :=
  let k := Z.of_nat (List.length ds) in
  if (-6 <? n)%Z && (n <=? 21)%Z then
    if (k <=? n)%Z then ds ++ repeat 48%N (Z.to_nat (n - k))
    else if (0 <? n)%Z then firstn (Z.to_nat n) ds ++ [46%N] ++ skipn (Z.to_nat n) ds
    else [48%N; 46%N] ++ repeat 48%N (Z.to_nat (- n)) ++ ds
  else
    let e := (n - 1)%Z in
    let exponent := (if (e <? 0)%Z then 45%N else 43%N) :: decimal_digits (Z.abs e) in
    match ds with
    | [] => []
    | [d] => d :: 101%N :: exponent
    | d :: rest => d :: 46%N :: rest ++ 101%N :: exponent
    end.

(** [String(x)] for a Number [x] (ECMAScript 6.1.6.1.20). *)
Definition Number_toString (x : number) : jsstring :=
  match x with
  | S754_nan => str "NaN"
  | S754_zero _ => str "0"
  | S754_infinity s => if s then str "-Infinity" else str "Infinity"
  | S754_finite s m e =>
      let (num, den) := number_fraction m e in
      let n := decimal_order num den in
      let (digits, n') := shortest_decimal 16 (S754_finite false m e) num den n 1 in
      (if s then [45%N] else []) ++ format_decimal (decimal_digits digits) n'
  end.

(** [String(b)] for a boolean. *)
Definition Boolean_toString (b : bool) : jsstring :=
  if b then str "true" else str "false".

(** ** The page ([src/app/page.tsx], lines 132 to 258) *)

(** The two pieces of state that the search writes: [result] and
    [message]. *)
Record view : Type := mkView {
  result : value;
  message : jsstring
}.

(** [setMessage(m)] for a string [m]. *)
Definition setMessage (m : jsstring) (st : view) : view := mkView (result st) m.

Section Page.

Variable URL_new : jsstring -> completion URL.

(** [f(previous)] for a function value [f], as React evaluates it while
    rendering when a state setter was given [f]: the built-in behind the
    function value, called with one argument and no receiver.  It is a
    parameter of the development. *)
Variable call_updater : value -> value -> completion value.

(** [setResult(action)], a state setter of [useState]: a function is an
    updater, which React applies to the state held before, and any other
    value is the next state.  A [Throw] is an updater that throws: the
    render fails and the page shows nothing of this component. *)
Definition setResult (action : value) (st : view) : completion view :=
  match action with
  | VFunction _ =>
      next <- call_updater action (result st) ;;
      Normal (mkView next (message st))
  | _ => Normal (mkView action (message st))
  end.

(** The effect of lines 141 to 160, which runs when [raw] or [propKey]
    changes, and the state of the render that follows it; what the effect
    writes to the console is left out. *)
Definition search_effect (raw propKey : jsstring) (st : view) : completion view :=
  let st := setMessage [] st in
  if negb (truthy_string (trim raw)) then setResult VUndefined st
  else
    match extractValue URL_new raw (trim propKey) with
    | Normal value =>
        st <- setResult value st ;;
        if is_undefined value then Normal (setMessage (str "No match found.") st)
        else Normal (setMessage [] st)
    | Throw _ =>
        setResult VUndefined (setMessage (str "An error occurred while searching.") st)
    end.

End Page.

(** [display] of lines 185 to 191; [None] is [null]. *)
Definition display (result : value) : option jsstring :=
  match result with
  | VUndefined => None
  | VString s => Some s
  | VNumber n => Some (Number_toString n)
  | VBool b => Some (Boolean_toString b)
  | VNull => Some (str "null")
  | VArray _ | VObject _ | VObjectPrototype | VFunction _ => Some []
  end.

(** Line 203: the message paragraph is rendered when [message] is not
    empty. *)
Definition shows_message (st : view) : bool := truthy_string (message st).

(** Line 205: the result box is rendered when [display] is neither [null]
    nor empty; it holds the text of [display]. *)
Definition shown_result (st : view) : option jsstring :=
  match display (result st) with
  | Some (c :: s) => Some (c :: s)
  | _ => None
  end.

(** ** The functions of [Object.prototype] as updaters, for the examples

    The theorems below hold for every behaviour of the updater call.  The
    examples run the page with this one: what [f(previous)] gives for the
    function values that property lookup can reach, called without a
    receiver.  [Object] converts its argument to an object, [toString]
    names the missing receiver, [isPrototypeOf] answers [false] for an
    argument that is no object, and every other call needs its receiver
    and throws a [TypeError].  The wrapper object that [Object] makes of a
    string, a number or a boolean is outside the values modelled. *)
Definition call_Object_prototype (f previous : value) : completion value :=
  match f with
  | VFunction name =>
      if jsstring_eqb name (str "Object") then
        match previous with
        | VUndefined | VNull => Normal (VObject [])
        | VBool _ | VNumber _ | VString _ => Throw Unsupported
        | VArray _ | VObject _ | VObjectPrototype | VFunction _ => Normal previous
        end
      else if jsstring_eqb name (str "toString") then
        Normal (VString (str "[object Undefined]"))
      else if jsstring_eqb name (str "isPrototypeOf") then
        match previous with
        | VArray _ | VObject _ | VObjectPrototype | VFunction _ => Throw TypeError
        | _ => Normal (VBool false)
        end
      else Throw TypeError
  | _ => Throw TypeError
  end.

(** ** The values of JSON *)

(** A value that a JSON text can denote: [null], a boolean, a number, a
    string, an array of such values or an object whose fields hold such
    values. *)
Fixpoint is_json (v : value) : bool :=
  match v with
  | VNull | VBool _ | VNumber _ | VString _ => true
  | VArray elems => forallb is_json elems
  | VObject props => forallb (fun p => is_json (snd p)) props
  | VUndefined | VObjectPrototype | VFunction _ => false
  end.

(** ** Patterns without groups, and the stops of the generic pattern *)

(** A pattern that captures nothing. *)
Fixpoint capture_free (r : regex) : bool :=
  match r with
  | REmpty | RSet _ | RStar _ | RPlus _ | RBol | REol => true
  | RCat r1 r2 | RAlt r1 r2 => capture_free r1 && capture_free r2
  | RGroup _ _ => false
  end.

(** The characters that end an unquoted value of the generic pattern:
    white space, [,], [;] and [|]. *)
Definition isGenericStop (c : char) : bool :=
  isWhiteSpace c || N.eqb c 44 || N.eqb c 59 || N.eqb c 124.

(** ** The path resolver in the words of the specification (section 4.1) *)

(** The segments of a dot-separated path: its maximal runs of characters
    other than the dot.  Empty segments (leading, trailing or consecutive
    dots) are skipped.  [cur] is the run being read, reversed. *)
Fixpoint path_segments_from (s : jsstring) (cur : jsstring) : list jsstring :=
  let flush := if truthy_string cur then [rev cur] else [] in
  match s with
  | [] => flush
  | c :: r =>
      if N.eqb c dot then flush ++ path_segments_from r []
      else path_segments_from r (c :: cur)
  end.

Definition path_segments (path : jsstring) : list jsstring :=
  path_segments_from path [].

(** The walk, segment by segment: [undefined] is the absent result.  A
    null or absent current value fails; on a sequence the segment must
    convert to an integer, which is the index; on a mapping the segment is
    looked up as a key; any other current value fails. *)
Fixpoint resolve (cur : value) (segments : list jsstring) : value :=
  match segments with
  | [] => cur
  | segment :: rest =>
      match cur with
      | VUndefined | VNull => VUndefined
      | VArray elems =>
          if Number_isInteger (Number segment)
          then resolve (array_get elems (Number segment)) rest
          else VUndefined
      | VObject props => resolve (object_get props segment) rest
      | VObjectPrototype => resolve (ObjectPrototype_get true segment) rest
      | VBool _ | VNumber _ | VString _ | VFunction _ => VUndefined
      end
  end.

(** ** Occurrences of a key in a text *)

(** Two strings that agree character by character up to letter case. *)
Definition same_letters (a b : jsstring) : Prop :=
  Forall2 (fun x y => canonicalize x = canonicalize y) a b.

Fixpoint isPrefix (p s : jsstring) : bool :=
  match p, s with
  | [], _ => true
  | a :: p', b :: s' => N.eqb a b && isPrefix p' s'
  | _ :: _, [] => false
  end.

(** [isInfix p s]: the text [s] contains [p]. *)
Fixpoint isInfix (p s : jsstring) : bool :=
  isPrefix p s || match s with
                  | [] => false
                  | _ :: s' => isInfix p s'
                  end.

(** The characters of a numeric literal of the JSON-ish pattern: [-], a
    digit, [.]. *)
Definition isNumericChar (c : char) : bool := N.eqb c 45 || isDigit c || N.eqb c 46.

(** ** The end of a parsed text *)

(** [ends_plain s r]: the text [s] read up to [r] ends with a character
    that is not white space. *)
Definition ends_plain (s r : jsstring) : Prop :=
  exists pre d, s = pre ++ d :: r /\ isWhiteSpace d = false.

(** ** The claims that the code does not meet, as the specification states them *)

(** The claim C2 as the specification states it: every top-level scalar
    field, [null] included, under every key without a dot. *)
Definition top_level_scalar_returned : Prop :=
  forall input key props v,
    includes key dot = false ->
    JSON_parse input = Normal (VObject props) ->
    get_own props key = Some v ->
    (v = VNull \/ (exists s, v = VString s) \/ (exists n, v = VNumber n)
     \/ (exists b, v = VBool b)) ->
    forall U, extractValue U input key = Normal v.

(** The claim C5 as the specification states it: the resolver walks a
    value of any top-level shape. *)
Definition resolver_walks_any_shape : Prop :=
  forall obj path, getByPath obj path = Normal (resolve obj (path_segments path)).



(** * Properties *)

(** ** The built-ins on known values *)

Example Number_examples :
  Number (str "20") = number_of_Z 20
  /\ Number (str " 12 ") = number_of_Z 12
  /\ Number [] = S754_zero false
  /\ Number (str "-0") = S754_zero true
  /\ Number (str "0x1F") = number_of_Z 31
  /\ Number (str "1.") = number_of_Z 1
  /\ Number (str "0.1") = S754_finite false 7205759403792794 (-56)
  /\ Number (str "5e-324") = S754_finite false 1 (-1074)
  /\ Number (str "1.7976931348623157e308") = S754_finite false 9007199254740991 971
  /\ Number (str "1e309") = S754_infinity false
  /\ Number (str "-Infinity") = S754_infinity true
  /\ Number (str "-0x1F") = NaN
  /\ Number (str "1e") = NaN
  /\ Number (str ".") = NaN
  /\ Number (str "--1") = NaN
  /\ Number_isInteger (Number (str "1e-400")) = true
  /\ Number_isInteger (Number (str "1.5")) = false
  /\ integer_value (Number (str "9007199254740993")) = 9007199254740992%Z.
Proof. repeat split; vm_compute; reflexivity. Qed.

Example trim_split_examples :
  trim [9; 32; 97; 32; 98; 160; 10]%N = str "a b"
  /\ split dot (str "a..b.") = [str "a"; []; str "b"; []]
  /\ split dot [] = [[]]
  /\ path_segments (str ".a..b.") = [str "a"; str "b"]
  /\ escapeRegExp (str "a.b*[c]\d") = str "a\.b\*\[c\]\\d".
Proof. repeat split; vm_compute; reflexivity. Qed.

Example JSON_parse_examples :
  JSON_parse (quoted " {`a`: [1, -2.5e1, true, null, {`b`: `x\nyA`}], `a`: 3} ")
  = Normal (VObject [(str "a", VNumber (number_of_Z 3))])
  /\ JSON_parse (quoted "[`\u00e9\uD83D\uDE00`, {}]")
     = Normal (VArray [VString [233; 55357; 56832]%N; VObject []])
  /\ JSON_parse (quoted "{`__proto__`: 5}")
     = Normal (VObject [(str "__proto__", VNumber (number_of_Z 5))])
  /\ JSON_parse (str "01") = Throw SyntaxError
  /\ JSON_parse (str "[1,]") = Throw SyntaxError
  /\ JSON_parse (quoted "{`a`:1,}") = Throw SyntaxError
  /\ JSON_parse (quoted "{'a':1}") = Throw SyntaxError
  /\ JSON_parse (str "1.") = Throw SyntaxError
  /\ JSON_parse (str "nul") = Throw SyntaxError
  /\ JSON_parse [] = Throw SyntaxError.
Proof. repeat split; vm_compute; reflexivity. Qed.

Example property_lookup_examples :
  Get (VObject [(str "a", VNull)]) (str "a") = Normal VNull
  /\ Get (VObject [(str "a", VNull)]) (str "b") = Normal VUndefined
  /\ Get (VObject []) (str "constructor") = Normal (VFunction (str "Object"))
  /\ Get (VObject []) (str "__proto__") = Normal VObjectPrototype
  /\ Get (VObject [(str "__proto__", VBool true)]) (str "__proto__") = Normal (VBool true)
  /\ Get VObjectPrototype (str "__proto__") = Normal VNull
  /\ Get VNull (str "a") = Throw TypeError
  /\ GetIndex (VArray [VBool true; VBool false]) (Number (str "1")) = Normal (VBool false)
  /\ GetIndex (VArray [VBool true; VBool false]) (Number (str "-0")) = Normal (VBool true)
  /\ GetIndex (VArray [VBool true; VBool false]) (Number (str "2")) = Normal VUndefined
  /\ GetIndex (VArray [VBool true; VBool false]) (Number (str "-1")) = Normal VUndefined.
Proof. repeat split; vm_compute; reflexivity. Qed.

Example decodeURIComponent_examples :
  decodeURIComponent (str "abc%20def") = Normal (str "abc def")
  /\ decodeURIComponent (str "a+b") = Normal (str "a+b")
  /\ decodeURIComponent (str "%E2%82%AC") = Normal [8364%N]
  /\ decodeURIComponent (str "%F0%9F%98%80") = Normal [55357; 56832]%N
  /\ decodeURIComponent (str "100%") = Throw URIError
  /\ decodeURIComponent (str "%zz") = Throw URIError
  /\ decodeURIComponent (str "%C0%80") = Throw URIError
  /\ decodeURIComponent (str "%ED%A0%80") = Throw URIError
  /\ decodeURIComponent (str "%E2%82") = Throw URIError.
Proof. repeat split; vm_compute; reflexivity. Qed.

Example URLSearchParams_examples :
  URLSearchParams_new (str "?eid=abc%20def&x=1&&y&=z&a=b=c&p=1+2&q=%ZZ&r=%FF")
  = [(str "eid", str "abc def"); (str "x", str "1"); (str "y", []); ([], str "z");
     (str "a", str "b=c"); (str "p", str "1 2"); (str "q", str "%ZZ");
     (str "r", [65533%N])]
  /\ URLSearchParams_get (URLSearchParams_new (str "a=1&a=2")) (str "a") = Some (str "1")
  /\ URLSearchParams_get (URLSearchParams_new (str "a=1&a=2")) (str "b") = None.
Proof. repeat split; vm_compute; reflexivity. Qed.

Example RegExp_examples :
  RegExp_new (str "(a") true = Throw SyntaxError
  /\ RegExp_new (str "a)") true = Throw SyntaxError
  /\ RegExp_new (str "[a") true = Throw SyntaxError
  /\ RegExp_new (str "*a") true = Throw SyntaxError
  /\ RegExp_new (str "a\") true = Throw SyntaxError
  /\ RegExp_new (jsonishPattern (str "a(")) true
     = Normal (mkRegExp (jsonish_regex (str "a(")) true)
  /\ (re <- RegExp_new (genericPattern (str "eid")) true ;;
      Normal (String_match (str "name: John; EID = 'x y', z") re))
     = Normal (Some [(0, str " EID = 'x y'"); (1, str "'x y'"); (3, str "x y")])
  /\ (re <- RegExp_new (urlPattern (str "a.b")) true ;;
      Normal (String_match (str "aXb=1&a.b=2") re))
     = Normal (Some [(0, str "&a.b=2"); (1, str "2"); (4, str "2")]).
Proof. repeat split; vm_compute; reflexivity. Qed.

(** ** Strings *)

(** [jsstring_eqb] decides equality. *)
Lemma jsstring_eqb_spec a b : reflect (a = b) (jsstring_eqb a b).
Proof.
  revert b; induction a as [|x a IH]; intros [|y b]; simpl;
    try (constructor; congruence).
  destruct (N.eqb_spec x y); simpl.
  - destruct (IH b); constructor; congruence.
  - constructor; congruence.
Qed.

(** ** The pattern parser on an escaped key *)

(** Parsing a pattern in two parts. *)
Lemma parse_pattern_app st a b :
  parse_pattern st (a ++ b) = (st' <- parse_pattern st a ;; parse_pattern st' b).
Proof.
  revert st; induction a as [|c a IH]; intros st; simpl; [reflexivity|].
  destruct (step st c); simpl; [apply IH | reflexivity].
Qed.

Lemma existsb_false_In (c : char) l :
  existsb (N.eqb c) l = false -> forall x, In x l -> N.eqb c x = false.
Proof.
  induction l as [|y l IH]; simpl; intros H x Hx; [contradiction|].
  apply orb_false_iff in H; destruct H as [H1 H2].
  destruct Hx as [<-|Hx]; auto.
Qed.

(** A character that is no syntax character is read as itself. *)
Lemma step_plain_char st c :
  p_mode st = PNormal -> isSyntaxChar c = false ->
  step st c = Normal (push_term (lit c) st).
Proof.
  intros Hm Hc. unfold step. rewrite Hm. unfold step_normal.
  pose proof (existsb_false_In _ _ Hc) as H.
  rewrite !H by (simpl; tauto). reflexivity.
Qed.

(** A syntax character after a backslash is read as itself. *)
Lemma step_escaped_char st c :
  p_mode st = PNormal -> isSyntaxChar c = true ->
  (st' <- step st 92%N ;; step st' c) = Normal (push_term (lit c) st).
Proof.
  intros Hm Hc. unfold step at 1. rewrite Hm. unfold step_normal. simpl.
  unfold isSyntaxChar in Hc. apply existsb_exists in Hc.
  destruct Hc as [x [Hin Hx]]. apply N.eqb_eq in Hx. subst x.
  simpl in Hin.
  repeat (destruct Hin as [<-|Hin]; [reflexivity|]). contradiction.
Qed.

Lemma push_literals_cons c key st :
  push_literals key (push_term (lit c) st) = push_literals (c :: key) st.
Proof.
  unfold push_literals, push_term; simpl. rewrite <- app_assoc. reflexivity.
Qed.

(** The parser reads [escapeRegExp key] as the characters of [key], one
    literal each, whatever the key holds. *)
Lemma parse_escaped_key key : forall st rest,
  p_mode st = PNormal ->
  parse_pattern st (escapeRegExp key ++ rest) = parse_pattern (push_literals key st) rest.
Proof.
  induction key as [|c key IH]; intros st rest Hm.
  - simpl. destruct st as [m [g a s] stk n]; simpl in *; subst; reflexivity.
  - unfold escapeRegExp; simpl. fold (escapeRegExp key).
    destruct (isSyntaxChar c) eqn:Hc.
    + simpl app.
      change (parse_pattern st (92%N :: c :: escapeRegExp key ++ rest))
        with (bind (step st 92%N)
                (fun s1 => bind (step s1 c)
                   (fun s2 => parse_pattern s2 (escapeRegExp key ++ rest)))).
      pose proof (step_escaped_char st c Hm Hc) as E.
      destruct (step st 92%N) as [s1|e]; simpl in *; [|discriminate].
      rewrite E; simpl. rewrite IH by reflexivity. now rewrite push_literals_cons.
    + simpl app. simpl parse_pattern. rewrite (step_plain_char st c Hm Hc). simpl.
      rewrite IH by reflexivity. now rewrite push_literals_cons.
Qed.

(** A pattern made of a prefix, the escaped key and a suffix, both read
    outside every group, compiles to the prefix, the literal key and the
    suffix in sequence. *)
Lemma RegExp_new_with_key pre key post seq_pre n_pre tail n ic :
  parse_pattern initial_pstate pre = Normal (top_state seq_pre n_pre) ->
  (forall L, parse_pattern (top_state (L ++ seq_pre) n_pre) post
             = Normal (top_state (rev tail ++ L ++ seq_pre) n)) ->
  RegExp_new (pre ++ escapeRegExp key ++ post) ic
  = Normal (mkRegExp (mk_cat (rev seq_pre ++ map lit key ++ tail)) ic).
Proof.
  intros Hpre Hpost. unfold RegExp_new.
  rewrite parse_pattern_app, Hpre. simpl bind.
  rewrite parse_escaped_key by reflexivity.
  unfold push_literals, top_state. simpl.
  fold (top_state (rev (map lit key) ++ seq_pre) n_pre).
  rewrite Hpost. simpl. unfold finish_pattern, close_frame. simpl.
  rewrite !rev_app_distr, !rev_involutive, <- app_assoc. reflexivity.
Qed.

(** The three patterns of the source compile for every key. *)
Lemma RegExp_new_jsonish key :
  RegExp_new (jsonishPattern key) true = Normal (mkRegExp (jsonish_regex key) true).
Proof.
  unfold jsonishPattern, jsonish_regex.
  apply (RegExp_new_with_key dq key _ [lit 34] 0
           [lit 34; space_star; lit 58; space_star; jsonish_values] 4 true).
  - reflexivity.
  - intros L. reflexivity.
Qed.

Lemma RegExp_new_url key :
  RegExp_new (urlPattern key) true = Normal (mkRegExp (url_regex key) true).
Proof.
  unfold urlPattern, url_regex, key_value_regex.
  eapply (RegExp_new_with_key _ key _ [_] 0 _ 4 true).
  - reflexivity.
  - intros L. reflexivity.
Qed.

Lemma RegExp_new_generic key :
  RegExp_new (genericPattern key) true = Normal (mkRegExp (generic_regex key) true).
Proof.
  unfold genericPattern, generic_regex, key_value_regex.
  eapply (RegExp_new_with_key _ key _ [_] 0 _ 4 true).
  - reflexivity.
  - intros L. reflexivity.
Qed.

(** ** No step of the extractor throws *)

(** [decodeMaybe] is the decoded text, or the text itself when decoding
    throws. *)
Lemma decodeMaybe_eq s :
  decodeMaybe s = Normal (match decodeURIComponent s with
                          | Normal d => d
                          | Throw _ => s
                          end).
Proof. unfold decodeMaybe, try_catch. destruct (decodeURIComponent s); reflexivity. Qed.

Lemma tryParseJson_normal input : exists v, tryParseJson input = Normal v.
Proof.
  unfold tryParseJson, try_catch.
  destruct (negb (truthy_string (trim input))); [eauto|].
  destruct (JSON_parse (trim input)); eauto.
Qed.

Lemma getByPath_loop_normal parts : forall cur,
  exists v, getByPath_loop parts cur = Normal v.
Proof.
  induction parts as [|p rest IH]; intros cur; simpl; [eauto|].
  destruct cur; simpl; eauto.
  destruct (Number_isInteger (Number p)); simpl; apply IH.
Qed.

Lemma getByPath_normal obj path : exists v, getByPath obj path = Normal v.
Proof.
  unfold getByPath. destruct (negb (isObject obj)); [eauto|].
  apply getByPath_loop_normal.
Qed.

Lemma Get_isObject_normal v k :
  isObject v = true -> exists r, Get v k = Normal r.
Proof. destruct v; simpl; try discriminate; eauto. Qed.

Lemma jsonStrict_normal input key : exists o, jsonStrict input key = Normal o.
Proof.
  unfold jsonStrict.
  destruct (tryParseJson_normal input) as [parsed ->]. simpl.
  destruct (negb (is_undefined parsed)); [|eauto].
  assert (exists val,
            (if includes key dot then getByPath parsed key
             else if isObject parsed then Get parsed key else Normal VUndefined)
            = Normal val) as [val ->].
  { destruct (includes key dot); [apply getByPath_normal|].
    destruct (isObject parsed) eqn:E; [now apply Get_isObject_normal | eauto]. }
  simpl.
  destruct (negb (is_undefined val) && negb (type_tag_eqb (typeof val) TObject)); eauto.
Qed.

Lemma jsonishFallback_normal input key : exists v, jsonishFallback input key = Normal v.
Proof.
  unfold jsonishFallback. rewrite RegExp_new_jsonish. simpl.
  destruct (String_match _ _) as [m|]; [|eauto].
  destruct (group m 1), (group m 2), (group m 3), (group m 4); eauto.
Qed.

Lemma searchJsonLike_normal input key : exists v, searchJsonLike input key = Normal v.
Proof.
  unfold searchJsonLike.
  destruct (jsonStrict_normal input key) as [[v|] ->]; simpl; [eauto|].
  apply jsonishFallback_normal.
Qed.

Lemma genericFallback_normal input key : exists v, genericFallback input key = Normal v.
Proof.
  unfold genericFallback. rewrite RegExp_new_generic. simpl.
  destruct (String_match _ _); eauto.
Qed.

(** The result of the URL strategy is a string or [undefined], whatever the
    URL parser does. *)
Lemma searchUrlLike_string U input key :
  exists v, searchUrlLike U input key = Normal v
            /\ (v = VUndefined \/ exists s, v = VString s).
Proof.
  unfold searchUrlLike.
  assert (exists full,
            try_catch
              (u <- U (trim input) ;;
               match URLSearchParams_get (searchParams u) key with
               | Some val => d <- decodeMaybe val ;; Normal (Some (VString d))
               | None => Normal None
               end) (Normal None) = Normal full
            /\ (full = None \/ exists s, full = Some (VString s))) as [full [-> Hfull]].
  { destruct (U (trim input)) as [u|e]; simpl; [|eauto].
    destruct (URLSearchParams_get (searchParams u) key) as [val|]; simpl; [|eauto].
    rewrite decodeMaybe_eq. simpl. eauto. }
  simpl. destruct Hfull as [->|[s ->]]; [|eauto].
  destruct (URLSearchParams_get _ key) as [val|].
  - rewrite decodeMaybe_eq. simpl. eauto.
  - rewrite RegExp_new_url. simpl.
    destruct (String_match _ _) as [m|]; [|eauto].
    rewrite decodeMaybe_eq. simpl. eauto.
Qed.

Lemma genericFallback_string input key :
  exists v, genericFallback input key = Normal v
            /\ (v = VUndefined \/ exists s, v = VString s).
Proof.
  unfold genericFallback. rewrite RegExp_new_generic. simpl.
  destruct (String_match _ _) as [m|]; [|eauto].
  destruct (or_else _ _); eauto.
Qed.

(** ** The orchestrator *)

Lemma trimStart_blank s : forallb isWhiteSpace s = true -> trimStart s = [].
Proof.
  unfold trimStart. induction s as [|c s IH]; simpl; [reflexivity|].
  intros H. apply andb_true_iff in H. destruct H as [Hc Hs].
  rewrite Hc. auto.
Qed.

Lemma trim_blank s : forallb isWhiteSpace s = true -> trim s = [].
Proof.
  intros H. unfold trim, trimEnd. rewrite (trimStart_blank s H). reflexivity.
Qed.

(** C4: for every input and every key that is empty or consists only of
    white space, [extractValue] returns absent ([undefined]) at once,
    whatever the input and whatever the URL parser. *)
Theorem extractValue_blank_key U input key :
  forallb isWhiteSpace key = true ->
  extractValue U input key = Normal VUndefined.
Proof.
  intros H. unfold extractValue. rewrite (trim_blank key H). reflexivity.
Qed.

(** A key of a space, a tab, a no-break space and a newline, and the empty
    key. *)
Lemma extractValue_blank_key_witness :
  forallb isWhiteSpace [32; 9; 160; 10]%N = true
  /\ extractValue basic_URL_parser (quoted "{` `:1, `eid`:`A1`}") [32; 9; 160; 10]%N
     = Normal VUndefined
  /\ extractValue basic_URL_parser (str "eid=77") [] = Normal VUndefined.
Proof.
  split; [reflexivity|].
  split; apply extractValue_blank_key; reflexivity.
Defined.

(** C10: a result of the URL/query strategy or of the generic pattern that
    is not absent is a string; a number, a boolean or [null] returned by
    [extractValue] is the result of the JSON-like strategy. *)
Theorem fallback_results_are_strings U input key :
  (forall v, searchUrlLike U input key = Normal v -> v <> VUndefined ->
             exists s, v = VString s)
  /\ (forall v, genericFallback input key = Normal v -> v <> VUndefined ->
                exists s, v = VString s)
  /\ (forall v, extractValue U input key = Normal v ->
                (v = VNull \/ (exists b, v = VBool b) \/ (exists n, v = VNumber n)) ->
                searchJsonLike input key = Normal v).
Proof.
  destruct (searchUrlLike_string U input key) as [u [Hu Hus]].
  destruct (genericFallback_string input key) as [g [Hg Hgs]].
  split; [|split].
  - intros v Hv Hne. rewrite Hu in Hv. injection Hv as <-.
    destruct Hus as [->|Hs]; [congruence | exact Hs].
  - intros v Hv Hne. rewrite Hg in Hv. injection Hv as <-.
    destruct Hgs as [->|Hs]; [congruence | exact Hs].
  - intros v Hv Hscalar. unfold extractValue in Hv.
    destruct (negb (truthy_string (trim key))).
    { injection Hv as <-. destruct Hscalar as [H|[[b H]|[n H]]]; discriminate. }
    destruct (searchJsonLike_normal input key) as [j Hj]. rewrite Hj in *. simpl in Hv.
    destruct (negb (is_undefined j)); [exact Hv|].
    rewrite Hu in Hv. simpl in Hv.
    destruct (negb (is_undefined u)).
    { injection Hv as <-.
      destruct Hus as [->|[s ->]]; destruct Hscalar as [H|[[b H]|[n H]]]; discriminate. }
    rewrite Hg in Hv. injection Hv as <-.
    destruct Hgs as [->|[s ->]]; destruct Hscalar as [H|[[b H]|[n H]]]; discriminate.
Qed.

(** The text [eid=77] gives the string [77], found by the URL/query
    strategy. *)
Lemma fallback_results_are_strings_witness :
  searchJsonLike (str "eid=77") (str "eid") = Normal VUndefined
  /\ extractValue basic_URL_parser (str "eid=77") (str "eid") = Normal (VString (str "77"))
  /\ (exists s, VString (str "77") = VString s)
  /\ extractValue basic_URL_parser (str "name: John | eid: 77") (str "eid")
     = Normal (VString (str "77")).
Proof.
  split; [vm_compute; reflexivity|].
  split; [vm_compute; reflexivity|].
  split; [|vm_compute; reflexivity].
  apply (proj1 (fallback_results_are_strings basic_URL_parser (str "eid=77") (str "eid"))).
  - vm_compute. reflexivity.
  - discriminate.
Defined.

(** ** The URL/query strategy *)



(** ** White space around a JSON text *)

Lemma dropWhile_split p s :
  exists w, s = w ++ dropWhile p s /\ forallb p w = true.
Proof.
  induction s as [|c s [w [E F]]]; simpl.
  - exists []. split; reflexivity.
  - destruct (p c) eqn:Hc.
    + exists (c :: w). simpl. rewrite Hc, F. split; [congruence | reflexivity].
    + exists []. split; reflexivity.
Qed.

Lemma dropWhile_head p s c r : dropWhile p s = c :: r -> p c = false.
Proof.
  induction s as [|a s IH]; simpl; [discriminate|].
  destruct (p a) eqn:Ha; [exact IH|].
  intros E. injection E as -> _. exact Ha.
Qed.

Lemma dropWhile_app p w x : forallb p w = true -> dropWhile p (w ++ x) = dropWhile p x.
Proof.
  induction w as [|a w IH]; simpl; [reflexivity|].
  intros H. apply andb_true_iff in H as [Ha Hw]. rewrite Ha. exact (IH Hw).
Qed.

Lemma strip_shape p s :
  exists w1 w2, s = w1 ++ strip p s ++ w2 /\ forallb p w1 = true /\ forallb p w2 = true.
Proof.
  unfold strip.
  destruct (dropWhile_split p s) as [w1 [E1 F1]].
  destruct (dropWhile_split p (rev (dropWhile p s))) as [w2 [E2 F2]].
  exists w1, (rev w2). repeat split.
  - rewrite <- rev_app_distr, <- E2, rev_involutive. exact E1.
  - exact F1.
  - rewrite forallb_forall in *. intros x Hx. apply F2, in_rev, Hx.
Qed.

Lemma strip_core p w1 w2 c d mid :
  forallb p w1 = true -> forallb p w2 = true -> p c = false -> p d = false ->
  forall t, t = c :: mid -> (exists t', t = t' ++ [d]) ->
  strip p (w1 ++ t ++ w2) = t.
Proof.
  intros F1 F2 Hc Hd t Et [t' Et']. unfold strip.
  rewrite (dropWhile_app p w1 _ F1).
  assert (dropWhile p (t ++ w2) = t ++ w2) as ->
    by (rewrite Et; simpl; rewrite Hc; reflexivity).
  rewrite rev_app_distr, dropWhile_app.
  - rewrite Et', rev_app_distr. simpl. rewrite Hd.
    change (d :: rev t') with (rev [d] ++ rev t').
    rewrite <- rev_app_distr. apply rev_involutive.
  - rewrite forallb_forall in *. intros x Hx. apply F2, in_rev, Hx.
Qed.

(** What [strip] leaves starts and ends with a character that stays. *)
Lemma strip_ends p s c mid :
  strip p s = c :: mid ->
  p c = false /\ exists t' d, c :: mid = t' ++ [d] /\ p d = false.
Proof.
  unfold strip. intros E.
  assert (dropWhile p (rev (dropWhile p s)) = rev (c :: mid)) as E'
    by (rewrite <- E, rev_involutive; reflexivity).
  split.
  - destruct (dropWhile_split p (rev (dropWhile p s))) as [w [Ew _]].
    rewrite E' in Ew. apply (f_equal (@rev char)) in Ew.
    rewrite rev_involutive, rev_app_distr, rev_involutive in Ew. simpl in Ew.
    apply (dropWhile_head p s c (mid ++ rev w)). exact Ew.
  - simpl in E'. destruct (rev (c :: mid)) as [|d t] eqn:R.
    + apply (f_equal (@rev char)) in R. rewrite rev_involutive in R. discriminate.
    + exists (rev t), d. split.
      * apply (f_equal (@rev char)) in R. rewrite rev_involutive in R.
        rewrite R. reflexivity.
      * simpl in R. rewrite R in E'. exact (dropWhile_head _ _ _ _ E').
Qed.

Lemma json_white_space_is_white_space c :
  isJsonWhiteSpace c = true -> isWhiteSpace c = true.
Proof.
  unfold isJsonWhiteSpace. rewrite !orb_true_iff, !N.eqb_eq.
  intros [[[->| ->]| ->]| ->]; reflexivity.
Qed.

Lemma not_white_space_not_json c :
  isWhiteSpace c = false -> isJsonWhiteSpace c = false.
Proof.
  intros H. destruct (isJsonWhiteSpace c) eqn:E; [|reflexivity].
  apply json_white_space_is_white_space in E. congruence.
Qed.

Lemma trim_is_strip s : trim s = strip isWhiteSpace s.
Proof. reflexivity. Qed.

(** ** Where a JSON value ends *)

Lemma ends_plain_cons c s r : ends_plain s r -> ends_plain (c :: s) r.
Proof. intros [pre [d [E H]]]. exists (c :: pre), d. rewrite E. split; [reflexivity | exact H]. Qed.

Lemma ends_plain_app w s r : ends_plain s r -> ends_plain (w ++ s) r.
Proof. induction w; simpl; [tauto|]. intros H. apply ends_plain_cons. tauto. Qed.

Lemma ends_plain_trans s r r' : ends_plain s r -> ends_plain r r' -> ends_plain s r'.
Proof.
  intros [pre [d [E H]]] H'. rewrite E.
  apply ends_plain_app, ends_plain_cons. exact H'.
Qed.

Lemma ends_plain_skip s r : ends_plain (skip_ws s) r -> ends_plain s r.
Proof.
  destruct (dropWhile_split isJsonWhiteSpace s) as [w [E _]].
  intros H. rewrite E. apply ends_plain_app. exact H.
Qed.

Lemma ends_plain_here d r : isWhiteSpace d = false -> ends_plain (d :: r) r.
Proof. intros H. exists [], d. split; [reflexivity | exact H]. Qed.

Lemma strip_prefix_app p s r : strip_prefix p s = Some r -> s = p ++ r.
Proof.
  revert s. induction p as [|a p IH]; intros s; simpl.
  - intros [= <-]. reflexivity.
  - destruct s as [|b s]; [discriminate|].
    destruct (N.eqb a b) eqn:E; [|discriminate]. apply N.eqb_eq in E as ->.
    intros H. rewrite (IH s H). reflexivity.
Qed.

Lemma span_app p s a b : span p s = (a, b) -> s = a ++ b /\ forallb p a = true.
Proof.
  revert a b. induction s as [|c s IH]; simpl; intros a b.
  - intros [= <- <-]. split; reflexivity.
  - destruct (p c) eqn:Hc.
    + destruct (span p s) as [a' b'] eqn:E. intros [= <- <-].
      destruct (IH _ _ eq_refl) as [-> F]. simpl. rewrite Hc, F. split; reflexivity.
    + intros [= <- <-]. split; reflexivity.
Qed.

Lemma isDigit_not_space d : isDigit d = true -> isWhiteSpace d = false.
Proof.
  unfold isDigit. rewrite andb_true_iff, !N.leb_le. intros [H1 H2].
  unfold isWhiteSpace, existsb.
  repeat match goal with
  | |- context [N.eqb d ?k] =>
      replace (N.eqb d k) with false by (symmetry; apply N.eqb_neq; unfold char in *; lia)
  end.
  replace (N.leb 8192 d) with false
    by (symmetry; apply N.leb_gt; unfold char in *; lia).
  reflexivity.
Qed.

Lemma digits_end ds r :
  truthy_string ds = true -> forallb isDigit ds = true -> ends_plain (ds ++ r) r.
Proof.
  intros Hne F.
  assert (ds <> []) as Hne' by (destruct ds; [discriminate | congruence]).
  destruct (exists_last Hne') as [pre [d E]]. subst ds.
  rewrite forallb_app in F. apply andb_true_iff in F as [_ F]. simpl in F.
  rewrite andb_true_r in F.
  rewrite <- app_assoc. simpl. apply ends_plain_app, ends_plain_here.
  exact (isDigit_not_space _ F).
Qed.

Lemma json_string_body_ends n :
  forall s acc k r,
    (List.length s <= n)%nat -> json_string_body s acc = Some (k, r) -> ends_plain s r.
Proof.
  induction n as [|n IH]; intros s acc k r Hn.
  - destruct s; [discriminate | simpl in Hn; lia].
  - destruct s as [|c s]; [discriminate|]. simpl in Hn.
    cbn [json_string_body].
    destruct (N.eqb c 34) eqn:Eq.
    + intros [= <- <-]. apply N.eqb_eq in Eq as ->.
      apply ends_plain_here. reflexivity.
    + destruct (N.eqb c 92).
      * destruct s as [|e r1]; [discriminate|]. simpl in Hn.
        repeat match goal with
        | |- context [if ?b then _ else _] => destruct b
        end; try discriminate;
        try (intros H; do 2 apply ends_plain_cons;
             refine (IH _ _ _ _ _ H); lia).
        destruct r1 as [|h1 [|h2 [|h3 [|h4 r2]]]]; try discriminate.
        destruct (hex4 h1 h2 h3 h4); [|discriminate].
        intros H. do 6 apply ends_plain_cons.
        refine (IH _ _ _ _ _ H). simpl in Hn. lia.
      * destruct (N.ltb c 32); [discriminate|].
        intros H. apply ends_plain_cons. refine (IH _ _ _ _ _ H). lia.
Qed.

Lemma ends_plain_or s r1 r2 :
  ends_plain s r1 -> r2 = r1 \/ ends_plain r1 r2 -> ends_plain s r2.
Proof. intros H [->|H']; [exact H | exact (ends_plain_trans _ _ _ H H')]. Qed.

Lemma json_fraction_ends s fp r :
  json_fraction s = (fp, r, true) -> r = s \/ ends_plain s r.
Proof.
  unfold json_fraction. destruct (strip_prefix [46%N] s) as [r0|] eqn:E.
  - apply strip_prefix_app in E as ->.
    destruct (span isDigit r0) as [ds r2] eqn:Es.
    destruct (span_app _ _ _ _ Es) as [-> F]. intros [= -> -> Hne].
    right. apply ends_plain_cons, digits_end; assumption.
  - intros [= _ ->]. left. reflexivity.
Qed.

Lemma json_exponent_ends s e r :
  json_exponent s = (e, r, true) -> r = s \/ ends_plain s r.
Proof.
  unfold json_exponent. destruct s as [|c r0]; [intros [= _ <-]; left; reflexivity|].
  destruct (N.eqb c 101 || N.eqb c 69); [|intros [= _ <-]; left; reflexivity].
  assert (forall (eneg : bool) t,
    (let (ds, r4) := span isDigit t in
     (if eneg then Z.opp (digits_val 10 digit_val ds) else digits_val 10 digit_val ds,
      r4, truthy_string ds)) = (e, r, true) -> ends_plain t r) as Hd.
  { intros eneg t. destruct (span isDigit t) as [ds r4] eqn:Es.
    destruct (span_app _ _ _ _ Es) as [-> F]. intros [= _ -> Hne].
    apply digits_end; assumption. }
  destruct (strip_prefix [43%N] r0) as [t|] eqn:E1.
  - apply strip_prefix_app in E1 as ->. intros H. right.
    do 2 apply ends_plain_cons. exact (Hd false _ H).
  - destruct (strip_prefix [45%N] r0) as [t|] eqn:E2.
    + apply strip_prefix_app in E2 as ->. intros H. right.
      do 2 apply ends_plain_cons. exact (Hd true _ H).
    + intros H. right. apply ends_plain_cons. exact (Hd false _ H).
Qed.

Lemma json_number_ends s n r : json_number s = Some (n, r) -> ends_plain s r.
Proof.
  unfold json_number.
  assert (forall neg s1,
    (let (ip, r1) := span isDigit s1 in
     let int_ok :=
       match ip with
       | [] => false
       | d :: more => negb (N.eqb d 48 && truthy_string more)
       end in
     let '(fp, r2, frac_ok) := json_fraction r1 in
     let '(e, r3, exp_ok) := json_exponent r2 in
     if int_ok && frac_ok && exp_ok then
       Some (decimal_to_number neg (digits_val 10 digit_val (ip ++ fp))
               (e - Z.of_nat (List.length fp)), r3)
     else None) = Some (n, r) -> ends_plain s1 r) as Hbody.
  { intros neg s1. destruct (span isDigit s1) as [ip r1] eqn:E1.
    destruct (span_app _ _ _ _ E1) as [-> F1]. cbv zeta.
    destruct (json_fraction r1) as [[fp r2] frac_ok] eqn:Ef.
    destruct (json_exponent r2) as [[e r3] exp_ok] eqn:Ee.
    destruct ip as [|d more]; [discriminate|].
    destruct (negb (N.eqb d 48 && truthy_string more)); [|discriminate].
    destruct frac_ok; [|discriminate]. destruct exp_ok; [|discriminate].
    intros [= _ <-].
    eapply ends_plain_or; [|exact (json_exponent_ends _ _ _ Ee)].
    eapply ends_plain_or; [|exact (json_fraction_ends _ _ _ Ef)].
    apply digits_end; [reflexivity | exact F1]. }
  destruct (strip_prefix [45%N] s) as [s1|] eqn:E0.
  - apply strip_prefix_app in E0 as ->. intros H.
    apply ends_plain_cons. exact (Hbody _ _ H).
  - apply Hbody.
Qed.

Section ContainersEnd.

Variable parse : jsstring -> option (value * jsstring).
Hypothesis parse_ends : forall s v r, parse s = Some (v, r) -> ends_plain s r.

Lemma json_members_ends fuel :
  forall s acc v r, json_members parse fuel s acc = Some (v, r) -> ends_plain s r.
Proof.
  induction fuel as [|f IH]; intros s acc v r; [discriminate|].
  cbn [json_members]. intros H. apply ends_plain_skip.
  destruct (skip_ws s) as [|c r0]; [discriminate|].
  destruct (N.eqb c 34); [|discriminate].
  destruct (json_string_body r0 []) as [[k r1]|] eqn:Es; [|discriminate].
  apply ends_plain_cons.
  apply (ends_plain_trans _ r1);
    [exact (json_string_body_ends _ _ _ _ _ (le_n _) Es)|].
  apply ends_plain_skip. destruct (skip_ws r1) as [|c1 r2]; [discriminate|].
  destruct (N.eqb c1 58); [|discriminate].
  destruct (parse r2) as [[v' r3]|] eqn:Ep; [|discriminate].
  apply ends_plain_cons, (ends_plain_trans _ r3); [exact (parse_ends _ _ _ Ep)|].
  apply ends_plain_skip. destruct (skip_ws r3) as [|c2 r4]; [discriminate|].
  destruct (N.eqb c2 44).
  - apply ends_plain_cons. exact (IH _ _ _ _ H).
  - destruct (N.eqb c2 125) eqn:E; [|discriminate]. injection H as _ <-.
    apply N.eqb_eq in E as ->. apply ends_plain_here. reflexivity.
Qed.

Lemma json_elements_ends fuel :
  forall s acc v r, json_elements parse fuel s acc = Some (v, r) -> ends_plain s r.
Proof.
  induction fuel as [|f IH]; intros s acc v r; [discriminate|].
  cbn [json_elements]. intros H.
  destruct (parse s) as [[v' r1]|] eqn:Ep; [|discriminate].
  apply (ends_plain_trans _ r1); [exact (parse_ends _ _ _ Ep)|].
  apply ends_plain_skip. destruct (skip_ws r1) as [|c r2]; [discriminate|].
  destruct (N.eqb c 44).
  - apply ends_plain_cons. exact (IH _ _ _ _ H).
  - destruct (N.eqb c 93) eqn:E; [|discriminate]. injection H as _ <-.
    apply N.eqb_eq in E as ->. apply ends_plain_here. reflexivity.
Qed.

End ContainersEnd.

(** A JSON value ends with a character that is not white space. *)
Lemma json_value_ends fuel :
  forall s v r, json_value fuel s = Some (v, r) -> ends_plain s r.
Proof.
  induction fuel as [|f IH]; intros s v r; [discriminate|].
  cbn [json_value]. intros H. apply ends_plain_skip.
  destruct (skip_ws s) as [|c r0]; [discriminate|].
  destruct (N.eqb c 123).
  { apply ends_plain_cons.
    destruct (strip_prefix [125%N] (skip_ws r0)) as [r'|] eqn:E.
    - injection H as _ <-. apply ends_plain_skip.
      apply strip_prefix_app in E as ->. apply ends_plain_here. reflexivity.
    - exact (json_members_ends _ IH _ _ _ _ _ H). }
  destruct (N.eqb c 91).
  { apply ends_plain_cons.
    destruct (strip_prefix [93%N] (skip_ws r0)) as [r'|] eqn:E.
    - injection H as _ <-. apply ends_plain_skip.
      apply strip_prefix_app in E as ->. apply ends_plain_here. reflexivity.
    - exact (json_elements_ends _ IH _ _ _ _ _ H). }
  destruct (N.eqb c 34).
  { destruct (json_string_body r0 []) as [[k r']|] eqn:E; [|discriminate].
    injection H as _ <-. apply ends_plain_cons.
    exact (json_string_body_ends _ _ _ _ _ (le_n _) E). }
  destruct (N.eqb c 45 || isDigit c).
  { destruct (json_number (c :: r0)) as [[n r']|] eqn:E; [|discriminate].
    injection H as _ <-. exact (json_number_ends _ _ _ E). }
  destruct (strip_prefix (str "true") (c :: r0)) as [r'|] eqn:Et.
  { injection H as _ <-. apply strip_prefix_app in Et. rewrite Et.
    exists (str "tru"), 101%N. split; reflexivity. }
  destruct (strip_prefix (str "false") (c :: r0)) as [r'|] eqn:Ef.
  { injection H as _ <-. apply strip_prefix_app in Ef. rewrite Ef.
    exists (str "fals"), 101%N. split; reflexivity. }
  destruct (strip_prefix (str "null") (c :: r0)) as [r'|] eqn:En; [|discriminate].
  injection H as _ <-. apply strip_prefix_app in En. rewrite En.
  exists (str "nul"), 108%N. split; reflexivity.
Qed.

(** A JSON value starts, after white space of JSON, with a character that
    is not white space. *)
Lemma json_value_starts fuel s v r :
  json_value fuel s = Some (v, r) ->
  exists c x, skip_ws s = c :: x /\ isWhiteSpace c = false.
Proof.
  destruct fuel as [|f]; [discriminate|].
  cbn [json_value]. destruct (skip_ws s) as [|c r0]; [discriminate|].
  intros H. exists c, r0. split; [reflexivity|].
  destruct (N.eqb c 123) eqn:E1; [apply N.eqb_eq in E1 as ->; reflexivity|].
  destruct (N.eqb c 91) eqn:E2; [apply N.eqb_eq in E2 as ->; reflexivity|].
  destruct (N.eqb c 34) eqn:E3; [apply N.eqb_eq in E3 as ->; reflexivity|].
  destruct (N.eqb c 45) eqn:E4; [apply N.eqb_eq in E4 as ->; reflexivity|].
  destruct (isDigit c) eqn:E5; [exact (isDigit_not_space _ E5)|].
  cbn [orb] in H.
  destruct (strip_prefix (str "true") (c :: r0)) as [r'|] eqn:Et;
    [apply strip_prefix_app in Et; injection Et as -> _; reflexivity|].
  destruct (strip_prefix (str "false") (c :: r0)) as [r'|] eqn:Ef;
    [apply strip_prefix_app in Ef; injection Ef as -> _; reflexivity|].
  destruct (strip_prefix (str "null") (c :: r0)) as [r'|] eqn:En;
    [apply strip_prefix_app in En; injection En as -> _; reflexivity|].
  discriminate.
Qed.

(** A text that [JSON.parse] accepts is, once trimmed, the JSON text
    without the white space of JSON around it. *)
Lemma JSON_parse_trim s v :
  JSON_parse s = Normal v ->
  trim s = strip isJsonWhiteSpace s
  /\ strip isJsonWhiteSpace (strip isJsonWhiteSpace s) = strip isJsonWhiteSpace s.
Proof.
  unfold JSON_parse. cbv zeta.
  destruct (strip_shape isJsonWhiteSpace s) as [w1 [w2 [Es [F1 F2]]]].
  set (t := strip isJsonWhiteSpace s) in *.
  destruct (json_value (S (List.length t)) t) as [[v' [|]]|] eqn:E; try discriminate.
  intros _.
  destruct (json_value_starts _ _ _ _ E) as [c [x [Hs Hc]]].
  destruct (json_value_ends _ _ _ _ E) as [pre [d [Hd Hd']]].
  destruct t as [|c0 mid] eqn:Et; [discriminate|].
  destruct (strip_ends isJsonWhiteSpace s c0 mid Et) as [Hc0 _].
  unfold skip_ws in Hs. simpl in Hs. rewrite Hc0 in Hs. injection Hs as <- <-.
  split.
  - rewrite trim_is_strip. rewrite Es at 1.
    apply (strip_core isWhiteSpace w1 w2 c0 d mid); auto.
    + rewrite forallb_forall in *. intros a Ha.
      apply json_white_space_is_white_space, F1, Ha.
    + rewrite forallb_forall in *. intros a Ha.
      apply json_white_space_is_white_space, F2, Ha.
    + exists pre. exact Hd.
  - rewrite <- (app_nil_r (c0 :: mid)) at 1.
    change (strip isJsonWhiteSpace ([] ++ (c0 :: mid) ++ []) = c0 :: mid).
    apply (strip_core isJsonWhiteSpace [] [] c0 d mid); auto.
    + apply not_white_space_not_json, Hd'.
    + exists pre. exact Hd.
Qed.

(** Trimming a text that [JSON.parse] accepts does not change its value. *)
Lemma JSON_parse_trimmed s v :
  JSON_parse s = Normal v -> JSON_parse (trim s) = Normal v.
Proof.
  intros H. destruct (JSON_parse_trim s v H) as [E1 E2].
  rewrite E1. revert H. unfold JSON_parse. cbv zeta. rewrite E2. tauto.
Qed.

(** ** The fuel of the JSON parser *)

Lemma ends_plain_length s r : ends_plain s r -> (List.length r < List.length s)%nat.
Proof.
  intros [pre [d [-> _]]]. rewrite length_app. simpl. lia.
Qed.

Lemma skip_ws_length s : (List.length (skip_ws s) <= List.length s)%nat.
Proof.
  destruct (dropWhile_split isJsonWhiteSpace s) as [w [E _]].
  rewrite E at 2. rewrite length_app. unfold skip_ws. lia.
Qed.

Section ContainersFuel.

Variable n : nat.
Variables parse parse' : jsstring -> option (value * jsstring).
Hypothesis parse_agree : forall x, (List.length x <= n)%nat -> parse x = parse' x.
Hypothesis parse_ends : forall s v r, parse s = Some (v, r) -> ends_plain s r.

Lemma json_members_fuel m :
  forall m' s acc,
    (List.length s <= n)%nat -> (List.length s < m)%nat -> (List.length s < m')%nat ->
    json_members parse m s acc = json_members parse' m' s acc.
Proof.
  induction m as [|m IH]; intros m' s acc Hn Hm Hm'; [lia|].
  destruct m' as [|m']; [lia|]. cbn [json_members].
  pose proof (skip_ws_length s) as Hsk.
  destruct (skip_ws s) as [|c r0]; [reflexivity|]. simpl in Hsk.
  destruct (N.eqb c 34); [|reflexivity].
  destruct (json_string_body r0 []) as [[k r1]|] eqn:Es; [|reflexivity].
  pose proof (ends_plain_length _ _ (json_string_body_ends _ _ _ _ _ (le_n _) Es)) as H1.
  pose proof (skip_ws_length r1) as Hsk1.
  destruct (skip_ws r1) as [|c1 r2]; [reflexivity|]. simpl in Hsk1.
  destruct (N.eqb c1 58); [|reflexivity].
  rewrite <- (parse_agree r2) by lia.
  destruct (parse r2) as [[v r3]|] eqn:Ep; [|reflexivity].
  pose proof (ends_plain_length _ _ (parse_ends _ _ _ Ep)) as H3.
  pose proof (skip_ws_length r3) as Hsk3.
  destruct (skip_ws r3) as [|c2 r4]; [reflexivity|]. simpl in Hsk3.
  destruct (N.eqb c2 44); [|reflexivity].
  apply IH; lia.
Qed.

Lemma json_elements_fuel m :
  forall m' s acc,
    (List.length s <= n)%nat -> (List.length s < m)%nat -> (List.length s < m')%nat ->
    json_elements parse m s acc = json_elements parse' m' s acc.
Proof.
  induction m as [|m IH]; intros m' s acc Hn Hm Hm'; [lia|].
  destruct m' as [|m']; [lia|]. cbn [json_elements].
  rewrite <- (parse_agree s) by lia.
  destruct (parse s) as [[v r1]|] eqn:Ep; [|reflexivity].
  pose proof (ends_plain_length _ _ (parse_ends _ _ _ Ep)) as H1.
  pose proof (skip_ws_length r1) as Hsk1.
  destruct (skip_ws r1) as [|c r2]; [reflexivity|]. simpl in Hsk1.
  destruct (N.eqb c 44); [|reflexivity].
  apply IH; lia.
Qed.

End ContainersFuel.

Lemma json_value_fuel_indep n :
  forall s f f',
    (List.length s <= n)%nat -> (n < f)%nat -> (n < f')%nat ->
    json_value f s = json_value f' s.
Proof.
  induction n as [|n IH]; intros s f f' Hs Hf Hf';
    (destruct f as [|g]; [lia|]); (destruct f' as [|g']; [lia|]).
  - destruct s; [reflexivity | simpl in Hs; lia].
  - cbn [json_value]. pose proof (skip_ws_length s) as Hsk.
    destruct (skip_ws s) as [|c r0]; [reflexivity|]. simpl in Hsk.
    assert (forall x, (List.length x <= n)%nat -> json_value g x = json_value g' x)
      as Hagree by (intros; apply IH; lia).
    rewrite (json_members_fuel n (json_value g) (json_value g') Hagree
               (json_value_ends g) g g' r0 []) by lia.
    rewrite (json_elements_fuel n (json_value g) (json_value g') Hagree
               (json_value_ends g) g g' r0 []) by lia.
    reflexivity.
Qed.

(** The fuel that [JSON_parse] gives is enough: more fuel reads the same
    value. *)
Lemma json_value_fuel text f :
  (List.length text < f)%nat ->
  json_value f text = json_value (S (List.length text)) text.
Proof.
  intros H. apply (json_value_fuel_indep (List.length text)); lia.
Qed.

(** ** The fuel of [decodeURIComponent] *)

Lemma take_escaped_length n :
  forall s bs r, take_escaped n s = Some (bs, r) -> (List.length r <= List.length s)%nat.
Proof.
  induction n as [|n IH]; intros s bs r; simpl.
  - intros [= _ <-]. lia.
  - destruct s as [|c [|h1 [|h2 r0]]]; try discriminate.
    destruct (N.eqb c 37 && isHexDigit h1 && isHexDigit h2); [|discriminate].
    destruct (take_escaped n r0) as [[bs' r']|] eqn:E; [|discriminate].
    intros [= _ <-]. apply IH in E. simpl. lia.
Qed.

Lemma decode_uri_fuel_indep n :
  forall s f f',
    (List.length s <= n)%nat -> (n < f)%nat -> (n < f')%nat ->
    decode_uri f s = decode_uri f' s.
Proof.
  induction n as [|n IH]; intros s f f' Hs Hf Hf';
    (destruct f as [|g]; [lia|]); (destruct f' as [|g']; [lia|]).
  - destruct s; [reflexivity | simpl in Hs; lia].
  - destruct s as [|c r]; [reflexivity|]. simpl in Hs. cbn [decode_uri]. cbv zeta.
    destruct (negb (N.eqb c 37)).
    + rewrite (IH r g g') by lia. reflexivity.
    + destruct r as [|h1 [|h2 r1]]; try reflexivity. simpl in Hs.
      destruct (isHexDigit h1 && isHexDigit h2); [|reflexivity].
      destruct (N.ltb (byte_of_hex h1 h2) 128).
      * rewrite (IH r1 g g') by lia. reflexivity.
      * destruct (if in_range 192 223 (byte_of_hex h1 h2) then 2%nat
                  else if in_range 224 239 (byte_of_hex h1 h2) then 3%nat
                  else if in_range 240 247 (byte_of_hex h1 h2) then 4%nat else 0%nat)
          as [|n']; [reflexivity|].
        destruct (take_escaped n' r1) as [[bs r2]|] eqn:E; [|reflexivity].
        apply take_escaped_length in E.
        destruct (utf8_strict (byte_of_hex h1 h2 :: bs)); [|reflexivity].
        rewrite (IH r2 g g') by lia. reflexivity.
Qed.

(** The fuel that [decodeURIComponent] gives is enough: a [URIError] is
    always a malformed escape. *)
Lemma decode_uri_fuel s f :
  (List.length s < f)%nat -> decode_uri f s = decodeURIComponent s.
Proof.
  intros H. apply (decode_uri_fuel_indep (List.length s)); lia.
Qed.

(** ** The JSON-like strategy: strict parse *)

Lemma JSON_parse_nonempty s v : JSON_parse s = Normal v -> truthy_string s = true.
Proof. destruct s; [discriminate | reflexivity]. Qed.

(** The strict half of [searchJsonLike] on an input whose trimmed text
    parses as an object, and a key without a dot: the property, unless it
    is [undefined] or has type ["object"]. *)
Lemma jsonStrict_top_level input key props :
  includes key dot = false ->
  JSON_parse (trim input) = Normal (VObject props) ->
  jsonStrict input key =
  Normal (let val := object_get props key in
          if negb (is_undefined val) && negb (type_tag_eqb (typeof val) TObject)
          then Some val else None).
Proof.
  intros Hdot Hparse. unfold jsonStrict, tryParseJson.
  rewrite (JSON_parse_nonempty _ _ Hparse), Hparse. simpl. rewrite Hdot. simpl.
  destruct (negb (is_undefined (object_get props key))
            && negb (type_tag_eqb (typeof (object_get props key)) TObject)); reflexivity.
Qed.

(** C2, amended: on an input that parses as a JSON object with a top-level
    field [key], where [key] has no dot and is not empty after trimming,
    [extractValue] returns the value of the field unchanged when it is a
    string, a number or a boolean. *)
Theorem extractValue_top_level_field U input key props v :
  trim key <> [] ->
  includes key dot = false ->
  JSON_parse input = Normal (VObject props) ->
  get_own props key = Some v ->
  (exists s, v = VString s) \/ (exists n, v = VNumber n) \/ (exists b, v = VBool b) ->
  extractValue U input key = Normal v.
Proof.
  intros Hkey Hdot Hparse Hget Hv. unfold extractValue, searchJsonLike.
  destruct (trim key) eqn:Ek; [congruence|]. simpl.
  rewrite (jsonStrict_top_level input key props Hdot (JSON_parse_trimmed _ _ Hparse)).
  unfold object_get. rewrite Hget.
  destruct Hv as [[s ->]|[[n ->]|[b ->]]]; reflexivity.
Qed.

(** A number, a string and a boolean field; the later [n] replaces the
    earlier. *)
Lemma extractValue_top_level_field_witness :
  JSON_parse (quoted " {`n`: 42, `s`: `A1`, `b`: false, `n`: 7.5} ")
  = Normal (VObject [(str "n", VNumber (Number (str "7.5")));
                     (str "s", VString (str "A1"));
                     (str "b", VBool false)])
  /\ extractValue basic_URL_parser (quoted " {`n`: 42, `s`: `A1`, `b`: false, `n`: 7.5} ")
       (str "n") = Normal (VNumber (Number (str "7.5")))
  /\ extractValue basic_URL_parser (quoted " {`n`: 42, `s`: `A1`, `b`: false, `n`: 7.5} ")
       (str "s") = Normal (VString (str "A1"))
  /\ extractValue basic_URL_parser (quoted " {`n`: 42, `s`: `A1`, `b`: false, `n`: 7.5} ")
       (str "b") = Normal (VBool false).
Proof.
  assert (JSON_parse (quoted " {`n`: 42, `s`: `A1`, `b`: false, `n`: 7.5} ")
          = Normal (VObject [(str "n", VNumber (Number (str "7.5")));
                             (str "s", VString (str "A1"));
                             (str "b", VBool false)])) as Hparse
    by (vm_compute; reflexivity).
  split; [exact Hparse|].
  split; [|split];
    (eapply extractValue_top_level_field;
     [ vm_compute; discriminate | vm_compute; reflexivity | exact Hparse
     | vm_compute; reflexivity | eauto ]).
Defined.

(** The claim as stated fails: the field named by one space is not found,
    since a blank key returns absent by the guard of [extractValue]; and a
    [null] field is shadowed by a nested field of the same name. *)
Lemma top_level_scalar_not_always_returned :
  extractValue basic_URL_parser (quoted "{` `: 1}") (str " ") = Normal VUndefined
  /\ extractValue basic_URL_parser (quoted "{`a`:{`k`:1},`k`:null}") (str "k")
     = Normal (VNumber (number_of_Z 1))
  /\ ~ top_level_scalar_returned.
Proof.
  split; [vm_compute; reflexivity|].
  split; [vm_compute; reflexivity|].
  intros H.
  specialize (H (quoted "{` `: 1}") (str " ") [(str " ", VNumber (number_of_Z 1))]
                (VNumber (number_of_Z 1))).
  assert (extractValue basic_URL_parser (quoted "{` `: 1}") (str " ")
          = Normal (VNumber (number_of_Z 1))) as E.
  { apply H; [vm_compute; reflexivity | vm_compute; reflexivity | vm_compute; reflexivity|].
    right; right; left; eauto. }
  vm_compute in E. discriminate.
Qed.

(** A top-level [null] field is skipped by the strict parse, whose test
    [typeof val !== "object"] rejects it; the result is then whatever the
    JSON-ish pattern finds first in the text. *)
Lemma null_field_left_to_the_pattern input key props :
  includes key dot = false ->
  JSON_parse input = Normal (VObject props) ->
  get_own props key = Some VNull ->
  searchJsonLike input key = jsonishFallback input key.
Proof.
  intros Hdot Hparse Hget. unfold searchJsonLike.
  rewrite (jsonStrict_top_level input key props Hdot (JSON_parse_trimmed _ _ Hparse)).
  unfold object_get. rewrite Hget. reflexivity.
Qed.

(** C3: [extractValue] returns a value that is neither a scalar nor absent.
    On a JSON object without a field [constructor], such as [{}], and the
    key [constructor], the lookup [parsed[key]] finds the function [Object]
    on the prototype chain; its type is ["function"], so the test
    [typeof val !== "object"] lets it through. *)
Theorem extractValue_returns_inherited_function U :
  (forall input props,
     JSON_parse input = Normal (VObject props) ->
     get_own props (str "constructor") = None ->
     extractValue U input (str "constructor") = Normal (VFunction (str "Object")))
  /\ JSON_parse (quoted "{}") = Normal (VObject [])
  /\ extractValue U (quoted "{}") (str "constructor") = Normal (VFunction (str "Object"))
  /\ extractValue U (quoted "{`a`:1}") (str "__proto__.toString")
     = Normal (VFunction (str "toString")).
Proof.
  split; [|repeat split; vm_compute; reflexivity].
  intros input props Hparse Hget.
  unfold extractValue, searchJsonLike.
  change (negb (truthy_string (trim (str "constructor")))) with false. cbv iota.
  rewrite (jsonStrict_top_level input (str "constructor") props eq_refl
             (JSON_parse_trimmed _ _ Hparse)).
  unfold object_get. rewrite Hget. reflexivity.
Qed.

(** What the strict parse does keep out: a value of type ["object"], that
    is an object, an array or [null]. *)
Lemma jsonStrict_not_object input key v :
  jsonStrict input key = Normal (Some v) -> typeof v <> TObject.
Proof.
  unfold jsonStrict.
  destruct (tryParseJson_normal input) as [parsed ->]. simpl.
  destruct (negb (is_undefined parsed)); [|discriminate].
  destruct (if includes key dot then getByPath parsed key
            else if isObject parsed then Get parsed key else Normal VUndefined)
    as [val|e]; simpl; [|discriminate].
  destruct (negb (is_undefined val)) eqn:E1; simpl; [|discriminate].
  destruct (type_tag_eqb (typeof val) TObject) eqn:E2; simpl; [discriminate|].
  intros H. injection H as <-. intros Ht. rewrite Ht in E2. discriminate.
Qed.

(** No strategy returns an object or an array: when the key resolves to
    one, the strict parse yields nothing and the JSON-ish pattern, then the
    other strategies, decide. *)
Lemma extractValue_no_json_composite U input key v :
  extractValue U input key = Normal v ->
  (forall elems, v <> VArray elems) /\ (forall props, v <> VObject props)
  /\ v <> VObjectPrototype.
Proof.
  intros Hv.
  assert (typeof v = TObject -> v = VNull) as Hscalar.
  { unfold extractValue in Hv.
    destruct (negb (truthy_string (trim key))); [injection Hv as <-; discriminate|].
    destruct (searchUrlLike_string U input key) as [u [Hu Hus]].
    destruct (genericFallback_string input key) as [g [Hg Hgs]].
    assert (forall j, searchJsonLike input key = Normal j -> typeof j = TObject -> j = VNull)
      as Hjson.
    { intros j Hj. unfold searchJsonLike in Hj.
      destruct (jsonStrict input key) as [[w|]|e] eqn:Es; simpl in Hj; try discriminate.
      - injection Hj as <-. intros Ht. now apply jsonStrict_not_object in Es.
      - unfold jsonishFallback in Hj. rewrite RegExp_new_jsonish in Hj. simpl in Hj.
        destruct (String_match _ _) as [m|]; [|injection Hj as <-; discriminate].
        destruct (group m 1), (group m 2), (group m 3), (group m 4);
          injection Hj as <-; try discriminate; try reflexivity;
          destruct (Number_isNaN _); discriminate. }
    destruct (searchJsonLike input key) as [j|e] eqn:Ej; simpl in Hv; [|discriminate].
    destruct (negb (is_undefined j)); [injection Hv as <-; now apply Hjson|].
    rewrite Hu in Hv. simpl in Hv.
    destruct (negb (is_undefined u)).
    { injection Hv as <-. destruct Hus as [->|[s ->]]; discriminate. }
    rewrite Hg in Hv. injection Hv as <-. destruct Hgs as [->|[s ->]]; discriminate. }
  repeat split; intros; intros ->; specialize (Hscalar eq_refl); discriminate.
Qed.

Lemma composite_falls_through input key props v :
  includes key dot = false ->
  JSON_parse input = Normal (VObject props) ->
  get_own props key = Some v ->
  typeof v = TObject ->
  searchJsonLike input key = jsonishFallback input key.
Proof.
  intros Hdot Hparse Hget Ht. unfold searchJsonLike.
  rewrite (jsonStrict_top_level input key props Hdot (JSON_parse_trimmed _ _ Hparse)).
  unfold object_get. rewrite Hget. simpl. rewrite Ht.
  rewrite andb_false_r. reflexivity.
Qed.

(** ** The path resolver *)

Lemma path_segments_from_app p1 : forall p2 cur,
  path_segments_from (p1 ++ dot :: p2) cur
  = path_segments_from p1 cur ++ path_segments p2.
Proof.
  induction p1 as [|c p1 IH]; intros p2 cur; simpl.
  - reflexivity.
  - destruct (N.eqb c dot).
    + rewrite IH, app_assoc. reflexivity.
    + apply IH.
Qed.

Lemma path_segments_dot_app p1 p2 :
  path_segments (p1 ++ dot :: p2) = path_segments p1 ++ path_segments p2.
Proof. apply path_segments_from_app. Qed.

Lemma split_cons sep s : exists p ps, split sep s = p :: ps.
Proof.
  induction s as [|c s [p [ps IH]]]; simpl; [eauto|].
  destruct (N.eqb c sep); [eauto|]. rewrite IH. eauto.
Qed.

Lemma truthy_rev s : truthy_string (rev s) = truthy_string s.
Proof.
  destruct s as [|c s]; [reflexivity|]. simpl.
  destruct (rev s); reflexivity.
Qed.

Lemma path_segments_from_split s : forall cur,
  path_segments_from s cur
  = filter truthy_string
      (match split dot s with
       | p :: ps => (rev cur ++ p) :: ps
       | [] => []
       end).
Proof.
  induction s as [|c s IH]; intros cur; simpl.
  - rewrite app_nil_r, truthy_rev. destruct (truthy_string cur); reflexivity.
  - destruct (N.eqb c dot) eqn:Ec.
    + simpl. rewrite app_nil_r, truthy_rev, IH.
      destruct (split_cons dot s) as [p [ps ->]]. simpl.
      destruct (truthy_string cur); reflexivity.
    + rewrite IH. destruct (split_cons dot s) as [p [ps ->]].
      simpl. rewrite <- app_assoc. reflexivity.
Qed.

(** [path.split(".").filter(Boolean)] yields the segments of the path. *)
Lemma split_filter_segments path :
  filter truthy_string (split dot path) = path_segments path.
Proof.
  unfold path_segments. rewrite path_segments_from_split.
  destruct (split_cons dot path) as [p [ps ->]]. reflexivity.
Qed.

Lemma getByPath_loop_undefined parts :
  getByPath_loop parts VUndefined = Normal VUndefined.
Proof. destruct parts; reflexivity. Qed.

Lemma getByPath_loop_resolve parts : forall cur,
  getByPath_loop parts cur = Normal (resolve cur parts).
Proof.
  induction parts as [|p rest IH]; intros cur; simpl; [reflexivity|].
  destruct cur; simpl; try reflexivity; try apply IH.
  destruct (Number_isInteger (Number p)); simpl;
    [apply IH | apply getByPath_loop_undefined].
Qed.

(** C5, amended: [getByPath] never throws.  On a value that is not a
    mapping (a sequence, a scalar, [null]) it returns absent without
    looking at the path.  On a mapping it walks the non-empty segments of
    the path: a null or absent current value fails, on a sequence the
    segment must convert to an integer index, on a mapping it is looked up
    as a key, and any other current value fails.  Leading, trailing and
    consecutive dots change nothing. *)
Theorem getByPath_resolves obj path :
  getByPath obj path
  = Normal (if isObject obj then resolve obj (path_segments path) else VUndefined)
  /\ getByPath obj (dot :: path) = getByPath obj path
  /\ getByPath obj (path ++ [dot]) = getByPath obj path
  /\ (forall p1 p2, path = p1 ++ dot :: p2 ->
        getByPath obj (p1 ++ dot :: dot :: p2) = getByPath obj path).
Proof.
  assert (forall p, getByPath obj p
                    = Normal (if isObject obj then resolve obj (path_segments p)
                              else VUndefined)) as E.
  { intros p. unfold getByPath. destruct (isObject obj); simpl; [|reflexivity].
    rewrite split_filter_segments. apply getByPath_loop_resolve. }
  split; [apply E|]. split; [|split].
  - rewrite !E. reflexivity.
  - rewrite !E, path_segments_dot_app. simpl. rewrite app_nil_r. reflexivity.
  - intros p1 p2 ->. rewrite !E, !path_segments_dot_app. reflexivity.
Qed.

(** The object [{"items": [10, 20]}]: [items..1] is the second element,
    [items.x] is absent. *)
Lemma getByPath_resolves_witness :
  getByPath (VObject [(str "items", VArray [VNumber (number_of_Z 10);
                                            VNumber (number_of_Z 20)])])
    (str "items..1") = Normal (VNumber (number_of_Z 20))
  /\ getByPath (VObject [(str "items", VArray [VNumber (number_of_Z 10);
                                               VNumber (number_of_Z 20)])])
       (str "items.x") = Normal VUndefined.
Proof.
  split.
  - pose proof (proj2 (proj2 (proj2 (getByPath_resolves
               (VObject [(str "items", VArray [VNumber (number_of_Z 10);
                                               VNumber (number_of_Z 20)])])
               (str "items.1")))) (str "items") (str "1") eq_refl) as H.
    change (str "items" ++ dot :: dot :: str "1") with (str "items..1") in H.
    rewrite H. vm_compute. reflexivity.
  - rewrite (proj1 (getByPath_resolves _ _)). vm_compute. reflexivity.
Defined.

(** The claim as stated fails: on the top-level sequence [[10, 20]] the
    walk of the path [0] would give [10]; [getByPath] gives absent. *)
Lemma resolver_stops_at_top_level_sequence :
  getByPath (VArray [VNumber (number_of_Z 10); VNumber (number_of_Z 20)]) (str "0")
  = Normal VUndefined
  /\ resolve (VArray [VNumber (number_of_Z 10); VNumber (number_of_Z 20)])
       (path_segments (str "0")) = VNumber (number_of_Z 10)
  /\ extractValue basic_URL_parser (quoted "[10,20]") (str "0.") = Normal VUndefined
  /\ ~ resolver_walks_any_shape.
Proof.
  split; [vm_compute; reflexivity|].
  split; [vm_compute; reflexivity|].
  split; [vm_compute; reflexivity|].
  intros H.
  specialize (H (VArray [VNumber (number_of_Z 10); VNumber (number_of_Z 20)]) (str "0")).
  vm_compute in H. discriminate.
Qed.

(** ** The matcher *)

(** Every case pair is a letter [a] to [z] with its capital, or lies
    from U+00B5 on together with its image. *)
Lemma case_pairs_bounds :
  forallb (fun e : N * N * N * N =>
             let '(lo, hi, stride, to) := e in
             (N.eqb lo 97 && N.eqb hi 122 && N.eqb stride 1 && N.eqb to 65)
             || (N.leb 181 lo && N.leb 181 to))
    case_pairs = true.
Proof. vm_compute. reflexivity. Qed.

(** What Canonicalize does to a code unit: a letter [a] to [z] becomes its
    capital, and any other code unit keeps itself or is mapped within the
    code units from U+00B5 on. *)
Lemma canonicalize_spec c :
  ((97 <= c <= 122)%N /\ canonicalize c = (c - 32)%N)
  \/ (~ (97 <= c <= 122)%N /\ canonicalize c = c)
  \/ ((181 <= c)%N /\ (181 <= canonicalize c)%N).
Proof.
  unfold canonicalize.
  destruct (find (in_case_entry c) case_pairs) as [[[[lo hi] stride] to]|] eqn:E.
  - apply find_some in E as [Hin Hc].
    pose proof case_pairs_bounds as Hb. rewrite forallb_forall in Hb.
    specialize (Hb _ Hin). cbv beta iota in Hb.
    unfold in_case_entry in Hc.
    apply andb_true_iff in Hc as [Hc _]. apply andb_true_iff in Hc as [H1 H2].
    apply N.leb_le in H1, H2.
    apply orb_true_iff in Hb as [Hb|Hb].
    + apply andb_true_iff in Hb as [Hb Hto]. apply andb_true_iff in Hb as [Hb _].
      apply andb_true_iff in Hb as [Hlo Hhi].
      apply N.eqb_eq in Hlo, Hhi, Hto. subst lo hi to.
      left. split; [split; assumption | lia].
    + apply andb_true_iff in Hb as [Hlo Hto]. apply N.leb_le in Hlo, Hto.
      right; right. split; lia.
  - right; left. split; [|reflexivity]. intros [H1 H2].
    assert (In (97, 122, 1, 65)%N case_pairs) as Hin by (left; reflexivity).
    pose proof (find_none _ _ E _ Hin) as Hn. unfold in_case_entry in Hn.
    rewrite N.mod_1_r in Hn.
    apply N.leb_le in H1, H2. rewrite H1, H2 in Hn. discriminate.
Qed.

(** A character outside the letters that letter case relates is matched
    by itself only. *)
Lemma canonicalize_plain a c :
  (a < 65 \/ 90 < a < 97 \/ 122 < a < 181)%N -> canonicalize c = a -> c = a.
Proof.
  intros Ha H. unfold char in *.
  destruct (canonicalize_spec c) as [[H1 H2]|[[H1 H2]|[H1 H2]]]; lia.
Qed.

Lemma canonicalize_plain_self a :
  (a < 65 \/ 90 < a < 97 \/ 122 < a < 181)%N -> canonicalize a = a.
Proof.
  intros Ha. unfold char in *.
  destruct (canonicalize_spec a) as [[H1 H2]|[[H1 H2]|[H1 H2]]]; lia.
Qed.

Lemma char_eq_plain a c :
  (a < 65 \/ 90 < a < 97 \/ 122 < a < 181)%N -> char_eq true a c = N.eqb c a.
Proof.
  intros Ha. unfold char_eq. rewrite (canonicalize_plain_self a Ha).
  destruct (N.eqb_spec c a) as [->|Hne].
  - rewrite (canonicalize_plain_self a Ha). apply N.eqb_refl.
  - apply N.eqb_neq. intros H. apply Hne. symmetry in H.
    exact (canonicalize_plain a c Ha H).
Qed.



(** A pattern that starts with a literal matches only a text that starts
    with that character up to letter case. *)
Lemma rmatch_literal_head a rest k pos s caps r :
  rmatch true (mk_cat (lit a :: rest)) k pos s caps = Some r ->
  exists c s',
    s = c :: s' /\ char_eq true a c = true
    /\ rmatch true (mk_cat rest) k (S pos) s' caps = Some r.
Proof.
  change (rmatch true (mk_cat (lit a :: rest)) k pos s caps)
    with (match s with
          | c :: s' =>
              if char_eq true a c then rmatch true (mk_cat rest) k (S pos) s' caps else None
          | [] => None
          end).
  destruct s as [|c s']; [discriminate|].
  destruct (char_eq true a c) eqn:Ec; [|discriminate].
  intros H. exists c, s'. auto.
Qed.

(** A pattern that starts with the literal characters of [key] matches
    only a text that starts with the same characters up to letter case. *)
Lemma rmatch_literals key : forall rest k pos s caps r,
  rmatch true (mk_cat (map lit key ++ rest)) k pos s caps = Some r ->
  exists s1 s2,
    s = s1 ++ s2 /\ same_letters key s1
    /\ rmatch true (mk_cat rest) k (pos + List.length key) s2 caps = Some r.
Proof.
  induction key as [|a key IH]; intros rest k pos s caps r H.
  - exists [], s. simpl List.length. rewrite Nat.add_0_r.
    split; [reflexivity|]. split; [constructor | exact H].
  - apply (rmatch_literal_head a (map lit key ++ rest)) in H.
    destruct H as [c [s' [-> [Ec H]]]].
    apply IH in H. destruct H as [s1 [s2 [-> [Hs Hr]]]].
    exists (c :: s1), s2. split; [reflexivity|]. split.
    + constructor; [|exact Hs]. unfold char_eq in Ec. now apply N.eqb_eq in Ec.
    + simpl List.length. rewrite Nat.add_succ_r. exact Hr.
Qed.


(** [search_from] returns the match at the first position that has one. *)
Lemma search_from_leftmost ic r s : forall pos m,
  search_from ic r pos s = Some m ->
  exists i,
    i <= List.length s
    /\ match_at ic r (pos + i) (skipn i s) = Some m
    /\ forall j, j < i -> match_at ic r (pos + j) (skipn j s) = None.
Proof.
  induction s as [|c s IH]; intros pos m H; simpl in H.
  - destruct (match_at ic r pos []) eqn:E; [|discriminate].
    exists 0. rewrite Nat.add_0_r. simpl. repeat split; [lia | congruence | lia].
  - destruct (match_at ic r pos (c :: s)) eqn:E.
    + exists 0. rewrite Nat.add_0_r. simpl. repeat split; [lia | congruence | lia].
    + apply IH in H. destruct H as [i [Hi [Hm Hj]]].
      exists (S i). simpl. repeat split.
      * lia.
      * rewrite Nat.add_succ_r. exact Hm.
      * intros [|j] Hlt; [rewrite Nat.add_0_r; exact E|].
        simpl. rewrite Nat.add_succ_r. apply Hj. lia.
Qed.

(** When the search finds nothing, the pattern matches nowhere. *)
Lemma search_from_none ic r s : forall pos,
  search_from ic r pos s = None ->
  forall i, i <= List.length s -> match_at ic r (pos + i) (skipn i s) = None.
Proof.
  induction s as [|c s IH]; intros pos H i Hi; simpl in H.
  - destruct (match_at ic r pos []) eqn:E; [discriminate|].
    assert (i = 0) as -> by (simpl in Hi; lia). rewrite Nat.add_0_r. exact E.
  - destruct (match_at ic r pos (c :: s)) eqn:E; [discriminate|].
    destruct i as [|i]; [rewrite Nat.add_0_r; exact E|].
    simpl. rewrite Nat.add_succ_r. apply (IH (S pos) H). simpl in Hi. lia.
Qed.


(** ** The captures of the JSON-ish pattern *)

(** A successful greedy repetition has consumed a run of characters of
    the class and then passed on to its continuation. *)
Lemma match_star_inv cs k s : forall pos caps r,
  match_star true cs k pos s caps = Some r ->
  exists t s',
    s = t ++ s' /\ forallb (charset_mem true cs) t = true
    /\ k (pos + List.length t) s' caps = Some r.
Proof.
  induction s as [|c s IH]; intros pos caps r H; simpl in H.
  - exists [], []. rewrite Nat.add_0_r. auto.
  - destruct (charset_mem true cs c) eqn:Ec.
    + destruct (match_star true cs k (S pos) s caps) as [r0|] eqn:Es.
      * injection H as ->. apply IH in Es. destruct Es as [t [s' [-> [Ht Hk]]]].
        exists (c :: t), s'. simpl. rewrite Ec, Ht, Nat.add_succ_r. auto.
      * exists [], (c :: s). rewrite Nat.add_0_r. auto.
    + exists [], (c :: s). rewrite Nat.add_0_r. auto.
Qed.

Lemma rmatch_plus_inv cs k pos s caps r :
  rmatch true (RPlus cs) k pos s caps = Some r ->
  exists t s',
    s = t ++ s' /\ t <> [] /\ forallb (charset_mem true cs) t = true
    /\ k (pos + List.length t) s' caps = Some r.
Proof.
  simpl. destruct s as [|c s]; [discriminate|].
  destruct (charset_mem true cs c) eqn:Ec; [|discriminate].
  intros H. apply match_star_inv in H. destruct H as [t [s' [-> [Ht Hk]]]].
  exists (c :: t), s'. simpl. rewrite Ec, Ht, Nat.add_succ_r.
  repeat split; [discriminate | exact Hk].
Qed.

Lemma firstn_consumed (t s' : jsstring) pos :
  firstn (pos + List.length t - pos) (t ++ s') = t.
Proof.
  replace (pos + List.length t - pos) with (List.length t + 0) by lia.
  rewrite firstn_app_2. simpl. apply app_nil_r.
Qed.

(** A captured run: the group holds the characters that the class
    accepted. *)
Lemma captured_run_inv n cs k pos s caps r :
  rmatch true (RGroup n (mk_cat [RPlus cs])) k pos s caps = Some r ->
  exists t s',
    s = t ++ s' /\ t <> [] /\ forallb (charset_mem true cs) t = true
    /\ k (pos + List.length t) s' ((n, t) :: caps) = Some r.
Proof.
  intros H. cbn [rmatch mk_cat fold_right] in H.
  apply rmatch_plus_inv in H. destruct H as [t [s' [-> [Hne [Ht Hk]]]]].
  rewrite firstn_consumed in Hk. exists t, s'. auto.
Qed.

Lemma quoted_value_inv q n k pos s caps r :
  rmatch true (quoted_value q n) k pos s caps = Some r ->
  exists t pos' s', t <> [] /\ k pos' s' ((n, t) :: caps) = Some r.
Proof.
  intros H. unfold quoted_value in H.
  apply rmatch_literal_head in H. destruct H as [c [s1 [-> [_ H]]]].
  change (rmatch true (RGroup n (mk_cat [RPlus (CSClass true [CIChar q])]))
            (fun pos' s' caps' => rmatch true (mk_cat [lit q]) k pos' s' caps')
            (S pos) s1 caps = Some r) in H.
  apply captured_run_inv in H. destruct H as [t [s2 [-> [Hne [_ H]]]]].
  apply rmatch_literal_head in H. destruct H as [c2 [s3 [-> [_ H]]]].
  cbn [rmatch mk_cat fold_right] in H. eauto.
Qed.

Lemma numeric_class_mem c :
  charset_mem true (CSClass false [CIChar 45; CIEscape CEDigit; CIChar 46]) c
  = isNumericChar c.
Proof.
  unfold isNumericChar. cbn [charset_mem existsb item_mem escape_mem xorb].
  rewrite orb_false_r.
  assert (forall a, (a = 45 \/ a = 46)%N -> char_eq true a c = N.eqb c a) as E
    by (intros a Ha; apply char_eq_plain; lia).
  rewrite !E by auto. rewrite orb_assoc. reflexivity.
Qed.

Lemma same_letters_length a b : same_letters a b -> List.length b = List.length a.
Proof. induction 1; simpl; congruence. Qed.

(** A captured word out of two: the group holds one of them up to letter
    case. *)
Lemma captured_word_inv n w1 w2 k pos s caps r :
  rmatch true (RGroup n (mk_alt (mk_cat (map lit w1)) [mk_cat (map lit w2)])) k pos s caps
  = Some r ->
  exists t pos' s',
    (same_letters w1 t \/ same_letters w2 t) /\ k pos' s' ((n, t) :: caps) = Some r.
Proof.
  intros H. cbn [rmatch mk_alt] in H.
  set (k' := fun (pos' : nat) (s' : jsstring) (caps' : captures) =>
               k pos' s' ((n, firstn (pos' - pos) s) :: caps')) in H.
  assert (forall w, rmatch true (mk_cat (map lit w)) k' pos s caps = Some r ->
            exists t pos' s', same_letters w t /\ k pos' s' ((n, t) :: caps) = Some r) as Hw.
  { intros w Hm. rewrite <- (app_nil_r (map lit w)) in Hm.
    apply rmatch_literals in Hm. destruct Hm as [t [s' [-> [Hs Hk]]]].
    cbn [rmatch mk_cat fold_right] in Hk. unfold k' in Hk.
    rewrite <- (same_letters_length _ _ Hs), firstn_consumed in Hk. eauto. }
  destruct (rmatch true (mk_cat (map lit w1)) k' pos s caps) as [r1|] eqn:E1.
  - injection H as ->. destruct (Hw w1 E1) as [t [pos' [s' [Hs Hk]]]]. eauto 6.
  - destruct (Hw w2 H) as [t [pos' [s' [Hs Hk]]]]. eauto 6.
Qed.

(** The captures of a match of the JSON-ish value alternatives: exactly
    one of the groups 1 to 4, or none for [null]. *)
Lemma jsonish_values_inv k pos s caps r :
  rmatch true (mk_cat [jsonish_values]) k pos s caps = Some r ->
  exists pos' s',
    (exists t, t <> [] /\ k pos' s' ((1, t) :: caps) = Some r)
    \/ (exists t, t <> [] /\ k pos' s' ((2, t) :: caps) = Some r)
    \/ (exists t, t <> [] /\ forallb isNumericChar t = true
                  /\ k pos' s' ((3, t) :: caps) = Some r)
    \/ (exists t, (same_letters (str "true") t \/ same_letters (str "false") t)
                  /\ k pos' s' ((4, t) :: caps) = Some r)
    \/ k pos' s' caps = Some r.
Proof.
  intros H. unfold jsonish_values in H. cbn [mk_cat fold_right mk_alt] in H.
  cbn [rmatch] in H.
  set (k0 := fun (pos' : nat) (s' : jsstring) (caps' : captures) => k pos' s' caps') in H.
  destruct (rmatch true (quoted_value 34 1) k0 pos s caps) as [r1|] eqn:E1.
  { injection H as ->. apply quoted_value_inv in E1.
    destruct E1 as [t [pos' [s' [Hne Hk]]]]. exists pos', s'. left. eauto. }
  destruct (rmatch true (quoted_value 39 2) k0 pos s caps) as [r2|] eqn:E2.
  { injection H as ->. apply quoted_value_inv in E2.
    destruct E2 as [t [pos' [s' [Hne Hk]]]]. exists pos', s'. right; left. eauto. }
  match type of H with
  | match ?a with _ => _ end = _ => destruct a as [r3|] eqn:E3
  end.
  { injection H as ->.
    apply captured_run_inv in E3. destruct E3 as [t [s' [-> [Hne [Ht Hk]]]]].
    exists (pos + List.length t), s'. right; right; left. exists t.
    repeat split; auto.
    rewrite <- Ht. clear. induction t as [|c t IH]; cbn [forallb]; [reflexivity|].
    rewrite numeric_class_mem, IH. reflexivity. }
  match type of H with
  | match ?a with _ => _ end = _ => destruct a as [r4|] eqn:E4
  end.
  { injection H as ->.
    apply captured_word_inv in E4. destruct E4 as [t [pos' [s' [Hs Hk]]]].
    exists pos', s'. right; right; right; left. eauto. }
  change (rmatch true (mk_cat (map lit (str "null") ++ [])) k0 pos s caps = Some r) in H.
  apply rmatch_literals in H. destruct H as [t [s' [-> [Hs Hk]]]].
  exists (pos + List.length (str "null")), s'. right; right; right; right. exact Hk.
Qed.

(** The shape of a match of the JSON-ish pattern: the whole match, and at
    most one capture. *)
Lemma jsonish_match_shape key pos s m :
  match_at true (jsonish_regex key) pos s = Some m ->
  exists w,
    (exists t, t <> [] /\ m = [(0, w); (1, t)])
    \/ (exists t, t <> [] /\ m = [(0, w); (2, t)])
    \/ (exists t, t <> [] /\ forallb isNumericChar t = true /\ m = [(0, w); (3, t)])
    \/ (exists t, (same_letters (str "true") t \/ same_letters (str "false") t)
                  /\ m = [(0, w); (4, t)])
    \/ m = [(0, w)].
Proof.
  unfold match_at, jsonish_regex. intros H.
  change ([lit 34] ++ map lit key ++ [lit 34; space_star; lit 58; space_star; jsonish_values])
    with (map lit (34%N :: key) ++ [lit 34; space_star; lit 58; space_star; jsonish_values]) in H.
  apply rmatch_literals in H. destruct H as [s1 [s2 [E [_ H]]]].
  apply rmatch_literal_head in H. destruct H as [c [s3 [-> [_ H]]]].
  cbn [mk_cat fold_right] in H. unfold space_star in H. cbn [rmatch] in H.
  apply match_star_inv in H. destruct H as [t1 [s4 [-> [_ H]]]].
  apply (rmatch_literal_head 58 [RStar (CSEscape CESpace); jsonish_values]) in H.
  destruct H as [c2 [s5 [-> [_ H]]]].
  cbn [mk_cat fold_right rmatch] in H.
  apply match_star_inv in H. destruct H as [t2 [s6 [-> [_ H]]]].
  apply (jsonish_values_inv
           (fun pos' _ caps => Some ((0, firstn (pos' - pos) s) :: caps))) in H.
  destruct H as [pos' [s' H]].
  exists (firstn (pos' - pos) s).
  destruct H as [[t [Hne H]]|[[t [Hne H]]|[[t [Hne [Ht H]]]|[[t [Hs H]]|H]]]];
    injection H as <-; eauto 8.
Qed.

Lemma canonicalize_lower a c :
  in_range 97 122 a = true -> canonicalize a = canonicalize c ->
  (if in_range 65 90 c then (c + 32)%N else c) = a.
Proof.
  unfold in_range. intros Ha. apply andb_true_iff in Ha. destruct Ha as [Ha1 Ha2].
  apply N.leb_le in Ha1, Ha2. intros H. unfold char in *.
  destruct (N.leb 65 c) eqn:E1; destruct (N.leb c 90) eqn:E2; cbn [andb];
    try apply N.leb_le in E1; try apply N.leb_gt in E1;
    try apply N.leb_le in E2; try apply N.leb_gt in E2;
    destruct (canonicalize_spec a) as [[A1 A2]|[[A1 A2]|[A1 A2]]];
    destruct (canonicalize_spec c) as [[C1 C2]|[[C1 C2]|[C1 C2]]]; lia.
Qed.

Lemma same_letters_lower w t :
  forallb (in_range 97 122) w = true -> same_letters w t -> toLowerCase t = w.
Proof.
  intros Hw Hs. induction Hs as [|a c w t Hc Hs IH]; [reflexivity|].
  simpl in Hw. apply andb_true_iff in Hw. destruct Hw as [Ha Hw].
  simpl. rewrite (IH Hw). f_equal. now apply canonicalize_lower.
Qed.

(** What the JSON-ish half of [searchJsonLike] can return: nothing, a
    quoted text, a numeric literal as a number or as its text, [true] for
    the token [true] and [false] for the token [false] in any letter case,
    or [null]. *)
Lemma jsonishFallback_result input key v :
  jsonishFallback input key = Normal v ->
  v = VUndefined
  \/ (exists t, t <> [] /\ v = VString t)
  \/ (exists t, t <> [] /\ forallb isNumericChar t = true
                /\ v = if Number_isNaN (Number t) then VString t else VNumber (Number t))
  \/ v = VBool true \/ v = VBool false
  \/ v = VNull.
Proof.
  unfold jsonishFallback. rewrite RegExp_new_jsonish. simpl.
  destruct (String_match input _) as [m|] eqn:Em; [|intros H; injection H as <-; auto].
  unfold String_match in Em. simpl in Em.
  apply search_from_leftmost in Em. destruct Em as [i [_ [Hat _]]].
  apply jsonish_match_shape in Hat.
  destruct Hat as [w [[t [Hne ->]]|[[t [Hne ->]]|[[t [Hne [Ht ->]]]|[[t [Hs ->]]| ->]]]]];
    cbn [group Nat.eqb]; intros H; injection H as <-; eauto 8.
  destruct Hs as [Hs|Hs];
    [rewrite (same_letters_lower (str "true") t eq_refl Hs)
    |rewrite (same_letters_lower (str "false") t eq_refl Hs)]; auto 8.
Qed.

(** ** Texts that the JSON-ish pattern does match *)

Lemma same_letters_refl a : same_letters a a.
Proof. induction a; constructor; auto. Qed.

(** The literal characters of a key match the key, and every text that
    agrees with it up to letter case. *)
Lemma rmatch_literals_same key k' : same_letters key k' ->
  forall rest k pos s caps,
    rmatch true (mk_cat (map lit key ++ rest)) k pos (k' ++ s) caps
    = rmatch true (mk_cat rest) k (pos + List.length key) s caps.
Proof.
  induction 1 as [|a c key k' Hc Hs IH]; intros rest k pos s caps.
  - simpl. rewrite Nat.add_0_r. reflexivity.
  - change (rmatch true (mk_cat (map lit (a :: key) ++ rest)) k pos ((c :: k') ++ s) caps)
      with (if char_eq true a c
            then rmatch true (mk_cat (map lit key ++ rest)) k (S pos) (k' ++ s) caps
            else None).
    assert (char_eq true a c = true) as -> by (unfold char_eq; now apply N.eqb_eq).
    rewrite IH. simpl List.length. rewrite Nat.add_succ_r. reflexivity.
Qed.

Lemma search_from_here ic r pos s m :
  match_at ic r pos s = Some m -> search_from ic r pos s = Some m.
Proof. intros H. destruct s; simpl; rewrite H; reflexivity. Qed.

(** After the quoted key, in any letter case, the rest of the pattern
    decides. *)
Lemma jsonish_match_after_key key k' pos tail :
  same_letters key k' ->
  match_at true (jsonish_regex key) pos (dq ++ k' ++ dq ++ tail)
  = rmatch true (mk_cat [space_star; lit 58; space_star; jsonish_values])
      (fun pos' _ caps => Some ((0, firstn (pos' - pos) (dq ++ k' ++ dq ++ tail)) :: caps))
      (S (pos + S (List.length key))) tail [].
Proof.
  intros Hs. unfold match_at, jsonish_regex.
  etransitivity.
  { refine (rmatch_literals_same (34%N :: key) (34%N :: k') _
              [lit 34; space_star; lit 58; space_star; jsonish_values]
              (fun pos' _ caps =>
                 Some ((0, firstn (pos' - pos) (dq ++ k' ++ dq ++ tail)) :: caps))
              pos (dq ++ tail) []).
    constructor; [reflexivity | exact Hs]. }
  reflexivity.
Qed.

(** A greedy repetition over a text whose characters are all in the class
    takes the whole text when the continuation accepts the end. *)
Lemma match_star_all cs k s : forall pos caps r,
  forallb (charset_mem true cs) s = true ->
  k (pos + List.length s) [] caps = Some r ->
  match_star true cs k pos s caps = Some r.
Proof.
  induction s as [|c s IH]; intros pos caps r Hall Hk; simpl in *.
  - rewrite Nat.add_0_r in Hk. exact Hk.
  - apply andb_true_iff in Hall. destruct Hall as [Hc Hs]. rewrite Hc.
    rewrite (IH (S pos) caps r Hs); [reflexivity|].
    rewrite <- Hk. f_equal. lia.
Qed.

Lemma numeric_char_cases c :
  isNumericChar c = true -> c = 45%N \/ c = 46%N \/ (48 <= c <= 57)%N.
Proof.
  unfold isNumericChar, isDigit. intros H.
  apply orb_true_iff in H. destruct H as [H|H].
  - apply orb_true_iff in H. destruct H as [H|H].
    + left. now apply N.eqb_eq.
    + right; right. apply andb_true_iff in H. destruct H as [H1 H2].
      apply N.leb_le in H1, H2. lia.
  - right; left. now apply N.eqb_eq.
Qed.

Lemma numeric_not_space c : isNumericChar c = true -> isWhiteSpace c = false.
Proof.
  intros H. apply numeric_char_cases in H.
  unfold isWhiteSpace. apply orb_false_iff. split.
  - cbn [existsb]. repeat (apply orb_false_iff; split); try reflexivity;
      apply N.eqb_neq; unfold char in *; lia.
  - apply andb_false_iff. left. apply N.leb_gt. unfold char in *; lia.
Qed.

Lemma numeric_canonical c : isNumericChar c = true -> canonicalize c = c.
Proof.
  intros H. apply numeric_char_cases in H. apply canonicalize_plain_self.
  unfold char in *. lia.
Qed.

Lemma numeric_not_quote q c :
  isNumericChar c = true -> (q = 34 \/ q = 39)%N -> char_eq true q c = false.
Proof.
  intros H Hq. unfold char_eq. rewrite (numeric_canonical c H).
  apply numeric_char_cases in H. apply N.eqb_neq.
  unfold char in *.
  destruct Hq as [-> | ->];
    [change (canonicalize 34) with 34%N | change (canonicalize 39) with 39%N]; lia.
Qed.

(** On a run of numeric characters that ends the text, the value
    alternatives capture the whole run in group 3. *)
Lemma jsonish_values_numeric k pos t caps r :
  t <> [] -> forallb isNumericChar t = true ->
  k (pos + List.length t) [] ((3, t) :: caps) = Some r ->
  rmatch true jsonish_values k pos t caps = Some r.
Proof.
  intros Hne Hall Hk. destruct t as [|c t]; [congruence|].
  pose proof Hall as Hall'. simpl in Hall'. apply andb_true_iff in Hall'.
  destruct Hall' as [Hc Ht].
  unfold jsonish_values, quoted_value.
  cbn [mk_cat fold_right mk_alt rmatch lit].
  change (charset_mem true (CSChar 34) c) with (char_eq true 34 c).
  change (charset_mem true (CSChar 39) c) with (char_eq true 39 c).
  rewrite (numeric_not_quote 34 c Hc) by auto.
  rewrite (numeric_not_quote 39 c Hc) by auto.
  rewrite numeric_class_mem, Hc.
  erewrite match_star_all; [reflexivity | |].
  - clear -Ht. induction t as [|d t IH]; cbn [forallb]; [reflexivity|].
    simpl in Ht. apply andb_true_iff in Ht. destruct Ht as [Hd Ht].
    rewrite numeric_class_mem, Hd. auto.
  - cbn beta.
    replace (S pos + List.length t - pos) with (S (List.length t)) by lia.
    cbn [firstn]. rewrite firstn_all.
    rewrite <- Hk. f_equal. simpl List.length. lia.
Qed.

(** For every key, whatever characters it holds, the text made of the
    quoted key, a colon and a numeric literal gives the literal to the
    JSON-ish half of [searchJsonLike]. *)
Lemma jsonishFallback_key_and_literal key t :
  t <> [] -> forallb isNumericChar t = true ->
  jsonishFallback (dq ++ key ++ dq ++ [58%N] ++ t) key
  = Normal (if Number_isNaN (Number t) then VString t else VNumber (Number t)).
Proof.
  intros Hne Hall.
  assert (exists w,
            String_match (dq ++ key ++ dq ++ [58%N] ++ t)
              (mkRegExp (jsonish_regex key) true) = Some [(0, w); (3, t)]) as [w Hm].
  { eexists. unfold String_match. simpl re_source. simpl re_ignoreCase.
    apply search_from_here. rewrite (jsonish_match_after_key key key 0 _ (same_letters_refl key)).
    destruct t as [|c t']; [congruence|].
    assert (isWhiteSpace c = false) as Hws.
    { apply numeric_not_space. simpl in Hall. apply andb_true_iff in Hall. tauto. }
    unfold space_star. cbn [mk_cat fold_right rmatch lit app match_star].
    change (charset_mem true (CSEscape CESpace) 58) with false.
    change (charset_mem true (CSChar 58) 58) with true. cbv iota.
    change (charset_mem true (CSEscape CESpace) c) with (isWhiteSpace c). rewrite Hws.
    apply jsonish_values_numeric; [discriminate | exact Hall | reflexivity]. }
  unfold jsonishFallback. rewrite RegExp_new_jsonish. cbn [bind]. rewrite Hm. reflexivity.
Qed.


(** ** The JSON-ish pattern: literal key, letter case, leftmost match *)




(** Letter case is folded in every script: the Cyrillic key [U+044F] is
    matched by ["U+042F"], and the Greek key [U+03BC] by the micro sign
    [U+00B5], whose upper case is the same.  The long s [U+017F], the
    dotless i [U+0131] and the Kelvin sign [U+212A] are no match for [s],
    [i] and [k], and the sharp s [U+00DF] none for [U+1E9E]. *)
Example jsonish_key_other_scripts :
  canonicalize 1103 = 1071%N
  /\ jsonishFallback ([34; 1071; 34] ++ str ": 5")%N [1103%N]
     = Normal (VNumber (number_of_Z 5))
  /\ canonicalize 956 = canonicalize 181
  /\ jsonishFallback ([34; 181; 34] ++ str ": 5")%N [956%N]
     = Normal (VNumber (number_of_Z 5))
  /\ canonicalize 383 = 383%N /\ canonicalize 305 = 305%N
  /\ canonicalize 8490 = 8490%N /\ canonicalize 223 = 223%N
  /\ jsonishFallback ([34; 383; 34] ++ str ": 5")%N (str "s") = Normal VUndefined
  /\ jsonishFallback ([34; 8490; 34] ++ str ": 5")%N (str "k") = Normal VUndefined
  /\ jsonishFallback ([34; 223; 34] ++ str ": 5")%N [7838%N] = Normal VUndefined.
Proof. repeat split; vm_compute; reflexivity. Qed.

(** ** The JSON-ish pattern: numeric literals *)

(** C8: a numeric literal matched by the JSON-ish pattern (group 3) is a
    non-empty run of [-], digits and [.]; the JSON-ish half of
    [searchJsonLike] returns [Number] of it when that is a number, and the
    literal itself, as a string, when [Number] of it is [NaN].  For every
    key, the text made of the quoted key, a colon and such a run is
    matched with the run in group 3. *)
Theorem jsonish_numeric_literal input key :
  (forall m s,
     String_match input (mkRegExp (jsonish_regex key) true) = Some m ->
     group m 3 = Some s ->
     s <> [] /\ forallb isNumericChar s = true
     /\ group m 1 = None /\ group m 2 = None
     /\ (Number_isNaN (Number s) = false ->
         jsonishFallback input key = Normal (VNumber (Number s)))
     /\ (Number_isNaN (Number s) = true ->
         jsonishFallback input key = Normal (VString s)))
  /\ (forall t, t <> [] -> forallb isNumericChar t = true ->
        jsonishFallback (dq ++ key ++ dq ++ [58%N] ++ t) key
        = Normal (if Number_isNaN (Number t) then VString t else VNumber (Number t))).
Proof.
  split; [|apply jsonishFallback_key_and_literal].
  intros m s Hm Hg.
  assert (jsonishFallback input key
          = match group m 1, group m 2, group m 3, group m 4 with
            | Some s, _, _, _ => Normal (VString s)
            | None, Some s, _, _ => Normal (VString s)
            | None, None, Some s, _ =>
                Normal (if Number_isNaN (Number s) then VString s else VNumber (Number s))
            | None, None, None, Some s =>
                Normal (VBool (jsstring_eqb (toLowerCase s) (str "true")))
            | None, None, None, None => Normal VNull
            end) as E.
  { unfold jsonishFallback. rewrite RegExp_new_jsonish. simpl. rewrite Hm. reflexivity. }
  unfold String_match in Hm. simpl in Hm.
  apply search_from_leftmost in Hm. destruct Hm as [i [_ [Hat _]]].
  apply jsonish_match_shape in Hat.
  destruct Hat as [w [[t [Hne ->]]|[[t [Hne ->]]|[[t [Hne [Ht ->]]]|[[t [Hs ->]]| ->]]]]];
    simpl in Hg; try discriminate.
  injection Hg as <-. simpl in E.
  repeat split; auto; intros Hn; rewrite E, Hn; reflexivity.
Qed.

(** The literals [1.2.3] and [-] are not numbers and come back as text;
    [-12.5] comes back as the number. *)
Lemma jsonish_numeric_literal_witness :
  Number (str "1.2.3") = NaN /\ Number (str "-") = NaN
  /\ jsonishFallback (quoted "{`k`: 1.2.3}") (str "k") = Normal (VString (str "1.2.3"))
  /\ jsonishFallback (quoted "`k`:-") (str "k") = Normal (VString (str "-"))
  /\ jsonishFallback (quoted "{`k`: -12.5, }") (str "k")
     = Normal (VNumber (Number (str "-12.5")))
  /\ extractValue basic_URL_parser (quoted "{`k`: 1.2.3}") (str "k")
     = Normal (VString (str "1.2.3")).
Proof.
  split; [vm_compute; reflexivity|].
  split; [vm_compute; reflexivity|].
  split.
  { refine (proj2 (proj2 (proj2 (proj2 (proj2
              (proj1 (jsonish_numeric_literal (quoted "{`k`: 1.2.3}") (str "k"))
                 [(0, quoted "`k`: 1.2.3"); (3, str "1.2.3")] (str "1.2.3") _ _))))) _);
      vm_compute; reflexivity. }
  split.
  { refine (proj2 (jsonish_numeric_literal [] (str "k")) (str "-") _ _).
    - discriminate.
    - reflexivity. }
  split.
  { refine (proj1 (proj2 (proj2 (proj2 (proj2
              (proj1 (jsonish_numeric_literal (quoted "{`k`: -12.5, }") (str "k"))
                 [(0, quoted "`k`: -12.5"); (3, str "-12.5")] (str "-12.5") _ _))))) _);
      vm_compute; reflexivity. }
  vm_compute. reflexivity.
Defined.

(** ** The orchestrator: failures and the order of the strategies *)




(** When the pattern matches somewhere, the search finds a match. *)
Lemma search_from_finds ic r s pos i m :
  i <= List.length s ->
  match_at ic r (pos + i) (skipn i s) = Some m ->
  exists m', search_from ic r pos s = Some m'.
Proof.
  intros Hi Hm. destruct (search_from ic r pos s) as [m'|] eqn:E; [eauto|].
  rewrite (search_from_none ic r s pos E i Hi) in Hm. discriminate.
Qed.

Lemma jsonishFallback_defined input key m :
  String_match input (mkRegExp (jsonish_regex key) true) = Some m ->
  exists v, jsonishFallback input key = Normal v /\ v <> VUndefined.
Proof.
  intros Hm. unfold jsonishFallback. rewrite RegExp_new_jsonish. cbn [bind].
  rewrite Hm.
  destruct (group m 1), (group m 2), (group m 3), (group m 4);
    eexists; (split; [reflexivity|]); try discriminate;
    destruct (Number_isNaN _); discriminate.
Qed.

Lemma jsonStrict_defined input key v :
  jsonStrict input key = Normal (Some v) -> v <> VUndefined.
Proof.
  unfold jsonStrict.
  destruct (tryParseJson_normal input) as [parsed ->]. simpl.
  destruct (negb (is_undefined parsed)); [|discriminate].
  destruct (if includes key dot then getByPath parsed key
            else if isObject parsed then Get parsed key else Normal VUndefined)
    as [val|e]; simpl; [|discriminate].
  destruct val; simpl; try discriminate; intros H; injection H as <-; discriminate.
Qed.

(** A text that holds the quoted key, a colon and a quoted value gives the
    JSON-like strategy a result, wherever it stands in the text. *)
Lemma searchJsonLike_finds_quoted_key key pre post :
  exists v,
    searchJsonLike (pre ++ dq ++ key ++ dq ++ quoted ":`A1`" ++ post) key = Normal v
    /\ v <> VUndefined.
Proof.
  set (text := pre ++ dq ++ key ++ dq ++ quoted ":`A1`" ++ post).
  unfold searchJsonLike.
  destruct (jsonStrict_normal text key) as [[v|] Hs]; rewrite Hs; cbn [bind].
  { exists v. split; [reflexivity|]. now apply jsonStrict_defined in Hs. }
  assert (exists m, match_at true (jsonish_regex key) (0 + List.length pre)
                      (skipn (List.length pre) text) = Some m) as [m Hm].
  { unfold text. rewrite skipn_app, skipn_all, Nat.sub_diag. cbn [app skipn].
    rewrite (jsonish_match_after_key key key _ _ (same_letters_refl key)).
    eexists. reflexivity. }
  apply search_from_finds in Hm.
  - destruct Hm as [m' Hm']. apply (jsonishFallback_defined text key m'). exact Hm'.
  - unfold text. rewrite length_app. lia.
Qed.

(** C1: for a key that is not empty after trimming, [extractValue] tries
    the JSON-like strategy, then the URL/query strategy, then the generic
    [key: value] pattern, and returns the first result that is not absent.
    The result of an earlier strategy does not depend on a later one: when
    the JSON-like strategy yields a value, [extractValue] returns it for
    every URL parser.  So on every text that holds the quoted key with a
    quoted value, as [{"eid":"A1"}] does, the JSON-like strategy decides,
    whatever else the text holds. *)
Theorem extractValue_first_strategy_wins U input key :
  trim key <> [] ->
  (exists j,
     searchJsonLike input key = Normal j
     /\ (j <> VUndefined -> forall U', extractValue U' input key = Normal j)
     /\ (j = VUndefined ->
         exists u,
           searchUrlLike U input key = Normal u
           /\ (u <> VUndefined -> extractValue U input key = Normal u)
           /\ (u = VUndefined -> extractValue U input key = genericFallback input key)))
  /\ (forall pre post,
        exists v,
          v <> VUndefined
          /\ searchJsonLike (pre ++ dq ++ key ++ dq ++ quoted ":`A1`" ++ post) key = Normal v
          /\ extractValue U (pre ++ dq ++ key ++ dq ++ quoted ":`A1`" ++ post) key
             = Normal v).
Proof.
  intros Hkey.
  assert (negb (truthy_string (trim key)) = false) as Hk.
  { destruct (trim key); [congruence | reflexivity]. }
  assert (forall text j, searchJsonLike text key = Normal j -> j <> VUndefined ->
                         forall U', extractValue U' text key = Normal j) as Hfirst.
  { intros text j Hj Hne U'. unfold extractValue. rewrite Hk, Hj. simpl.
    destruct j; simpl; congruence. }
  split.
  - destruct (searchJsonLike_normal input key) as [j Hj].
    exists j. split; [exact Hj|]. split; [now apply Hfirst|].
    intros ->.
    destruct (searchUrlLike_string U input key) as [u [Hu _]].
    exists u. split; [exact Hu|].
    unfold extractValue. rewrite Hk, Hj, Hu. simpl.
    split; [destruct u; simpl; congruence | intros ->; reflexivity].
  - intros pre post.
    destruct (searchJsonLike_finds_quoted_key key pre post) as [v [Hv Hne]].
    exists v. split; [exact Hne|]. split; [exact Hv|]. now apply Hfirst.
Qed.

(** The text [{"eid":"A1"} eid=B2] and the key [eid]: the generic pattern
    alone would find [B2]; [extractValue] returns [A1]. *)
Lemma extractValue_first_strategy_wins_witness :
  trim (str "eid") <> []
  /\ searchJsonLike (quoted "{`eid`:`A1`} eid=B2") (str "eid") = Normal (VString (str "A1"))
  /\ genericFallback (quoted "{`eid`:`A1`} eid=B2") (str "eid") = Normal (VString (str "B2"))
  /\ extractValue basic_URL_parser (quoted "{`eid`:`A1`} eid=B2") (str "eid")
     = Normal (VString (str "A1"))
  /\ extractValue basic_URL_parser (quoted "eid=B2 {`eid`:`A1`}") (str "eid")
     = Normal (VString (str "A1")).
Proof.
  assert (trim (str "eid") <> []) as Hk by (vm_compute; discriminate).
  split; [exact Hk|].
  split; [vm_compute; reflexivity|].
  split; [vm_compute; reflexivity|].
  split; [|vm_compute; reflexivity].
  destruct (proj1 (extractValue_first_strategy_wins basic_URL_parser
                     (quoted "{`eid`:`A1`} eid=B2") (str "eid") Hk)) as [j [Hj [Hfirst _]]].
  assert (j = VString (str "A1")) as ->.
  { assert (searchJsonLike (quoted "{`eid`:`A1`} eid=B2") (str "eid")
            = Normal (VString (str "A1"))) as E by (vm_compute; reflexivity).
    congruence. }
  apply Hfirst. discriminate.
Defined.

(** ** The examples of the specification (section 8) *)

Example specification_examples :
  extractValue basic_URL_parser (quoted "{`user`:{`id`:42}}") (str "user.id")
  = Normal (VNumber (number_of_Z 42))
  /\ extractValue basic_URL_parser (quoted "{`items`:[10,20,30]}") (str "items.1")
     = Normal (VNumber (number_of_Z 20))
  /\ extractValue basic_URL_parser (quoted "{`eid`:`A1`} eid=B2") (str "eid")
     = Normal (VString (str "A1"))
  /\ extractValue basic_URL_parser (str "https://example.com/?eid=abc%20def&x=1") (str "eid")
     = Normal (VString (str "abc def"))
  /\ extractValue basic_URL_parser (str "eid=hello&x=2") (str "eid")
     = Normal (VString (str "hello"))
  /\ extractValue basic_URL_parser (str "name: John; eid: 77") (str "eid")
     = Normal (VString (str "77"))
  /\ extractValue basic_URL_parser (str "totally unrelated text") (str "missing_key")
     = Normal VUndefined
  /\ extractValue basic_URL_parser (quoted "{`user`:{`id`:42}}") (str "user")
     = Normal VUndefined
  /\ extractValue basic_URL_parser (quoted "{`k`: null}") (str "k") = Normal VNull.
Proof. repeat split; vm_compute; reflexivity. Qed.

(** * Further properties of the code *)

(** ** Trimming *)

Lemma strip_idempotent p s : strip p (strip p s) = strip p s.
Proof.
  destruct (strip p s) as [|c mid] eqn:E; [reflexivity|].
  destruct (strip_ends p s c mid E) as [Hc [t' [d [Et Hd]]]].
  rewrite <- (app_nil_r (c :: mid)) at 1.
  change (strip p ([] ++ (c :: mid) ++ []) = c :: mid).
  apply (strip_core p [] [] c d mid); auto. exists t'. exact Et.
Qed.

Lemma trim_idempotent s : trim (trim s) = trim s.
Proof. apply (strip_idempotent isWhiteSpace). Qed.

(** A text that holds a character other than white space does not trim to
    the empty text. *)
Lemma trim_keeps c s :
  In c s -> isWhiteSpace c = false -> trim s <> [].
Proof.
  intros Hin Hc Ht.
  destruct (strip_shape isWhiteSpace s) as [w1 [w2 [E [F1 F2]]]].
  change (strip isWhiteSpace s) with (trim s) in E. rewrite Ht in E. simpl in E.
  rewrite E in Hin. apply in_app_or in Hin.
  rewrite forallb_forall in F1, F2.
  destruct Hin as [H|H]; [apply F1 in H | apply F2 in H]; congruence.
Qed.

(** ** The values that [JSON.parse] yields *)

Lemma set_prop_is_json props k v :
  forallb (fun p => is_json (snd p)) props = true -> is_json v = true ->
  forallb (fun p => is_json (snd p)) (set_prop props k v) = true.
Proof.
  intros Hp Hv. induction props as [|[k' v'] rest IH]; simpl in *.
  - rewrite Hv. reflexivity.
  - apply andb_true_iff in Hp as [H1 H2].
    destruct (jsstring_eqb k' k); simpl; [rewrite Hv, H2 | rewrite H1, IH]; auto.
Qed.

Section ContainersJson.

Variable parse : jsstring -> option (value * jsstring).
Hypothesis parse_is_json : forall s v r, parse s = Some (v, r) -> is_json v = true.

Lemma json_members_is_json fuel :
  forall s acc v r,
    forallb (fun p => is_json (snd p)) acc = true ->
    json_members parse fuel s acc = Some (v, r) -> is_json v = true.
Proof.
  induction fuel as [|f IH]; intros s acc v r Hacc; [discriminate|].
  cbn [json_members].
  destruct (skip_ws s) as [|c r0]; [discriminate|].
  destruct (N.eqb c 34); [|discriminate].
  destruct (json_string_body r0 []) as [[k r1]|]; [|discriminate].
  destruct (skip_ws r1) as [|c1 r2]; [discriminate|].
  destruct (N.eqb c1 58); [|discriminate].
  destruct (parse r2) as [[v' r3]|] eqn:Ep; [|discriminate].
  pose proof (set_prop_is_json acc k v' Hacc (parse_is_json _ _ _ Ep)) as Hset.
  destruct (skip_ws r3) as [|c2 r4]; [discriminate|].
  destruct (N.eqb c2 44); [exact (IH _ _ _ _ Hset)|].
  destruct (N.eqb c2 125); [|discriminate].
  intros [= <- _]. exact Hset.
Qed.

Lemma json_elements_is_json fuel :
  forall s acc v r,
    forallb is_json acc = true ->
    json_elements parse fuel s acc = Some (v, r) -> is_json v = true.
Proof.
  induction fuel as [|f IH]; intros s acc v r Hacc; [discriminate|].
  cbn [json_elements].
  destruct (parse s) as [[v' r1]|] eqn:Ep; [|discriminate].
  assert (forallb is_json (v' :: acc) = true) as Hcons
    by (simpl; rewrite (parse_is_json _ _ _ Ep), Hacc; reflexivity).
  destruct (skip_ws r1) as [|c r2]; [discriminate|].
  destruct (N.eqb c 44); [exact (IH _ _ _ _ Hcons)|].
  destruct (N.eqb c 93); [|discriminate].
  intros [= <- _]. cbn [is_json].
  rewrite forallb_forall in *. intros x Hx. apply Hcons, in_rev, Hx.
Qed.

End ContainersJson.

Lemma json_value_is_json fuel :
  forall s v r, json_value fuel s = Some (v, r) -> is_json v = true.
Proof.
  induction fuel as [|f IH]; intros s v r; [discriminate|].
  cbn [json_value].
  destruct (skip_ws s) as [|c r0]; [discriminate|].
  destruct (N.eqb c 123).
  { destruct (strip_prefix [125%N] (skip_ws r0)); [intros [= <- _]; reflexivity|].
    apply (json_members_is_json _ IH). reflexivity. }
  destruct (N.eqb c 91).
  { destruct (strip_prefix [93%N] (skip_ws r0)); [intros [= <- _]; reflexivity|].
    apply (json_elements_is_json _ IH). reflexivity. }
  destruct (N.eqb c 34).
  { destruct (json_string_body r0 []) as [[k r']|]; [|discriminate].
    intros [= <- _]. reflexivity. }
  destruct (N.eqb c 45 || isDigit c).
  { destruct (json_number (c :: r0)) as [[n r']|]; [|discriminate].
    intros [= <- _]. reflexivity. }
  destruct (strip_prefix (str "true") (c :: r0)); [intros [= <- _]; reflexivity|].
  destruct (strip_prefix (str "false") (c :: r0)); [intros [= <- _]; reflexivity|].
  destruct (strip_prefix (str "null") (c :: r0)); [intros [= <- _]; reflexivity|].
  discriminate.
Qed.

(** [JSON.parse] yields values of JSON only: never [undefined], never a
    function. *)
Lemma JSON_parse_is_json s v : JSON_parse s = Normal v -> is_json v = true.
Proof.
  unfold JSON_parse. cbv zeta.
  destruct (json_value _ _) as [[v' [|]]|] eqn:E; try discriminate.
  intros [= <-]. exact (json_value_is_json _ _ _ _ E).
Qed.

(** ** [tryParseJson] *)

(** X1: [tryParseJson] reads the trimmed input only, and its result is
    [undefined] exactly when the trimmed input is empty or is not a JSON
    text; every other result is a value of JSON. *)
Theorem tryParseJson_undefined_iff input :
  tryParseJson (trim input) = tryParseJson input
  /\ (tryParseJson input = Normal VUndefined
      <-> trim input = [] \/ exists e, JSON_parse (trim input) = Throw e)
  /\ (forall v, tryParseJson input = Normal v -> v <> VUndefined ->
        JSON_parse (trim input) = Normal v /\ is_json v = true).
Proof.
  split; [unfold tryParseJson; rewrite trim_idempotent; reflexivity|].
  unfold tryParseJson.
  destruct (trim input) as [|c t] eqn:Et; cbn [truthy_string negb].
  { split; [split; auto|]. intros v [= <-] H. congruence. }
  destruct (JSON_parse (c :: t)) as [v|e] eqn:Ep; cbn [try_catch].
  - pose proof (JSON_parse_is_json _ _ Ep) as Hj. split.
    + split.
      * intros [= ->]. discriminate.
      * intros [H|[e H]]; discriminate.
    + intros v' [= <-] _. auto.
  - split.
    + split; eauto.
    + intros v [= <-] H. congruence.
Qed.

(** X2: Where [JSON.parse] accepts the input, [tryParseJson] yields the same
    value. *)
Theorem tryParseJson_agrees_with_JSON_parse input v :
  JSON_parse input = Normal v -> tryParseJson input = Normal v.
Proof.
  intros H. pose proof (JSON_parse_trimmed _ _ H) as Ht.
  unfold tryParseJson. rewrite (JSON_parse_nonempty _ _ Ht), Ht. reflexivity.
Qed.

Lemma tryParseJson_agrees_with_JSON_parse_witness :
  JSON_parse (quoted "  [1, {`a`: null}] ")
  = Normal (VArray [VNumber (number_of_Z 1); VObject [(str "a", VNull)]])
  /\ tryParseJson (quoted "  [1, {`a`: null}] ")
     = Normal (VArray [VNumber (number_of_Z 1); VObject [(str "a", VNull)]]).
Proof.
  assert (JSON_parse (quoted "  [1, {`a`: null}] ")
          = Normal (VArray [VNumber (number_of_Z 1); VObject [(str "a", VNull)]])) as H
    by (vm_compute; reflexivity).
  split; [exact H|]. exact (tryParseJson_agrees_with_JSON_parse _ _ H).
Defined.

(** ** The page: the search and what it shows *)

Lemma extractValue_normal U input key : exists v, extractValue U input key = Normal v.
Proof.
  destruct (searchJsonLike_normal input key) as [j Hj].
  destruct (searchUrlLike_string U input key) as [u [Hu _]].
  destruct (genericFallback_normal input key) as [g Hg].
  unfold extractValue.
  destruct (negb (truthy_string (trim key))); [eauto|].
  rewrite Hj. simpl. destruct (negb (is_undefined j)); [eauto|].
  rewrite Hu. simpl. destruct (negb (is_undefined u)); eauto.
Qed.

(** X3: The search of the page never takes its [catch] branch, so the message
    [An error occurred while searching.] is never set.  On a blank input
    it clears the result and the message.  Otherwise the message is
    [No match found.] exactly when [extractValue], on the trimmed key,
    gives [undefined], and the result is what [extractValue] gives; when
    that is a function, React takes it for an updater, and the result is
    what the function returns for the result held before, or the render
    fails with what it throws. *)
Theorem search_effect_outcome U call raw propKey st :
  (trim raw = [] /\ search_effect U call raw propKey st = Normal (mkView VUndefined []))
  \/ (trim raw <> []
      /\ exists v,
           extractValue U raw (trim propKey) = Normal v
           /\ search_effect U call raw propKey st
              = (next <- match v with
                         | VFunction _ => call v (result st)
                         | _ => Normal v
                         end ;;
                 Normal (mkView next
                           (if is_undefined v then str "No match found." else [])))).
Proof.
  unfold search_effect.
  destruct (trim raw) as [|c t] eqn:Et; cbn [truthy_string negb].
  - left. split; reflexivity.
  - right. split; [discriminate|].
    destruct (extractValue_normal U raw (trim propKey)) as [v Hv].
    exists v. split; [exact Hv|]. rewrite Hv.
    destruct v; cbn [setResult setMessage result message bind is_undefined];
      try reflexivity.
    destruct (call (VFunction name) (result st)); reflexivity.
Qed.

(** X4: White space around the key changes nothing in the outcome of the
    search.  The result and the message held before change nothing either,
    unless [extractValue] gives a function, which React applies to the
    result held before. *)
Theorem search_effect_trims_key U call raw propKey st :
  search_effect U call raw propKey st = search_effect U call raw (trim propKey) st
  /\ ((forall name, extractValue U raw (trim propKey) <> Normal (VFunction name)) ->
      forall st', search_effect U call raw propKey st = search_effect U call raw propKey st').
Proof.
  split.
  - unfold search_effect. rewrite trim_idempotent. reflexivity.
  - intros Hfun st'. unfold search_effect.
    destruct (negb (truthy_string (trim raw))); [reflexivity|].
    destruct (extractValue U raw (trim propKey)) as [v|e]; [|reflexivity].
    destruct v; try reflexivity. now contradiction (Hfun name).
Qed.

(** X5: With an input that is not blank and a key field that is empty or
    blank, the page reports [No match found.], whatever the input holds. *)
Theorem search_effect_blank_key U call raw propKey st :
  trim raw <> [] -> forallb isWhiteSpace propKey = true ->
  search_effect U call raw propKey st
  = Normal (mkView VUndefined (str "No match found.")).
Proof.
  intros Hraw Hkey. unfold search_effect, extractValue.
  destruct (trim raw); [congruence|]. cbn [truthy_string negb].
  rewrite (trim_blank propKey Hkey). reflexivity.
Qed.

(** The input [{"": 1}] with an empty key field and with a key field of
    two spaces. *)
Lemma search_effect_blank_key_witness :
  search_effect basic_URL_parser call_Object_prototype (quoted "{``: 1}") []
    (mkView VNull (str "x"))
  = Normal (mkView VUndefined (str "No match found."))
  /\ search_effect basic_URL_parser call_Object_prototype (quoted "{``: 1}") (str "  ")
       (mkView VNull (str "x"))
     = Normal (mkView VUndefined (str "No match found.")).
Proof.
  split; apply search_effect_blank_key; solve [vm_compute; discriminate | reflexivity].
Defined.

Lemma digits_loop_nonempty fuel : forall z acc, acc <> [] -> digits_loop fuel z acc <> [].
Proof.
  induction fuel as [|f IH]; intros z acc H; simpl; [exact H|].
  destruct (z <? 10)%Z; [discriminate | apply IH; discriminate].
Qed.

Lemma decimal_digits_nonempty z : decimal_digits z <> [].
Proof.
  unfold decimal_digits. simpl.
  destruct (z <? 10)%Z; [discriminate | apply digits_loop_nonempty; discriminate].
Qed.

Lemma format_decimal_nonempty ds n : ds <> [] -> format_decimal ds n <> [].
Proof.
  intros H. unfold format_decimal.
  destruct ((-6 <? n)%Z && (n <=? 21)%Z).
  - destruct (Z.of_nat (List.length ds) <=? n)%Z.
    + destruct ds; [congruence | discriminate].
    + destruct (0 <? n)%Z; [|discriminate].
      intros E. apply app_eq_nil in E as [_ E]. discriminate.
  - destruct ds as [|d [|d' rest]]; [congruence | discriminate | discriminate].
Qed.

(** [String(n)] is never empty. *)
Lemma Number_toString_nonempty n : Number_toString n <> [].
Proof.
  destruct n as [s|[|]| |s m e]; [discriminate | discriminate | discriminate | discriminate |].
  unfold Number_toString.
  destruct (number_fraction m e) as [num den].
  destruct (shortest_decimal 16 (S754_finite false m e) num den
              (decimal_order num den) 1) as [digits n'].
  intros E. apply app_eq_nil in E as [_ E].
  exact (format_decimal_nonempty _ _ (decimal_digits_nonempty digits) E).
Qed.

(** X6: The result box of the page is hidden exactly when the result is
    [undefined], the empty string, or no scalar (an object, an array, a
    function); a number, a boolean and [null] are always shown, since
    [String] never writes them as the empty text.  What the box holds is
    the text of [display]. *)
Theorem shown_result_hidden_iff st :
  (shown_result st = None
   <-> match result st with
       | VNull | VBool _ | VNumber _ | VString (_ :: _) => False
       | VUndefined | VString [] | VArray _ | VObject _ | VObjectPrototype
       | VFunction _ => True
       end)
  /\ (forall t, shown_result st = Some t -> display (result st) = Some t /\ t <> []).
Proof.
  unfold shown_result. split.
  - destruct (result st) as [| |b|n|s|l|p| |f]; cbn [display]; try tauto.
    + split; [discriminate | tauto].
    + destruct b; split; try discriminate; tauto.
    + pose proof (Number_toString_nonempty n) as H.
      destruct (Number_toString n); [congruence|]. split; [discriminate | tauto].
    + destruct s; split; try discriminate; tauto.
  - intros t. destruct (display (result st)) as [[|c s]|]; try discriminate.
    intros [= <-]. split; [reflexivity | discriminate].
Qed.

(** X7: After a search the page never shows a message and a result at once,
    whatever an updater returns. *)
Theorem search_effect_message_or_result U call raw propKey st st' :
  search_effect U call raw propKey st = Normal st' ->
  shows_message st' = false \/ shown_result st' = None.
Proof.
  unfold search_effect.
  destruct (negb (truthy_string (trim raw))); [intros [= <-]; left; reflexivity|].
  destruct (extractValue_normal U raw (trim propKey)) as [v ->].
  destruct v; cbn [setResult setMessage result message bind is_undefined];
    try (intros [= <-]; cbn; auto).
  destruct (call (VFunction name) (result st)); cbn [bind]; [|discriminate].
  intros [= <-]. left. reflexivity.
Qed.

(** A number that is found, a key that is not, and the function [toString]
    as an updater. *)
Lemma search_effect_message_or_result_witness :
  search_effect basic_URL_parser call_Object_prototype (quoted "{`n`: 42}") (str "n")
    (mkView VUndefined [])
  = Normal (mkView (VNumber (number_of_Z 42)) [])
  /\ (shows_message (mkView (VNumber (number_of_Z 42)) []) = false
      \/ shown_result (mkView (VNumber (number_of_Z 42)) []) = None)
  /\ (shows_message (mkView VUndefined (str "No match found.")) = false
      \/ shown_result (mkView VUndefined (str "No match found.")) = None)
  /\ (shows_message (mkView (VString (str "[object Undefined]")) []) = false
      \/ shown_result (mkView (VString (str "[object Undefined]")) []) = None).
Proof.
  assert (search_effect basic_URL_parser call_Object_prototype (quoted "{`n`: 42}") (str "n")
            (mkView VUndefined [])
          = Normal (mkView (VNumber (number_of_Z 42)) [])) as H1
    by (vm_compute; reflexivity).
  split; [exact H1|]. split; [|split].
  - exact (search_effect_message_or_result _ _ _ _ _ _ H1).
  - apply (search_effect_message_or_result basic_URL_parser call_Object_prototype
             (quoted "{`n`: 42}") (str "m") (mkView VUndefined [])).
    vm_compute. reflexivity.
  - apply (search_effect_message_or_result basic_URL_parser call_Object_prototype
             (quoted "{`n`: 42}") (str "toString") (mkView VUndefined [])).
    vm_compute. reflexivity.
Defined.

(** X8: When [extractValue] finds the empty string, the page shows nothing at
    all: no result and no message. *)
Theorem search_effect_shows_nothing U call raw propKey st :
  trim raw <> [] ->
  extractValue U raw (trim propKey) = Normal (VString []) ->
  search_effect U call raw propKey st = Normal (mkView (VString []) [])
  /\ shows_message (mkView (VString []) []) = false
  /\ shown_result (mkView (VString []) []) = None.
Proof.
  intros Hraw Hv. unfold search_effect.
  destruct (trim raw); [congruence|]. cbn [truthy_string negb]. rewrite Hv.
  repeat split.
Qed.

(** The query [eid=] with the key [eid], and the JSON text [{"eid": ""}]. *)
Lemma search_effect_shows_nothing_witness :
  extractValue basic_URL_parser (str "eid=") (trim (str " eid ")) = Normal (VString [])
  /\ search_effect basic_URL_parser call_Object_prototype (str "eid=") (str " eid ")
       (mkView VNull (str "x"))
     = Normal (mkView (VString []) [])
  /\ search_effect basic_URL_parser call_Object_prototype (quoted "{`eid`: ``}") (str "eid")
       (mkView VNull (str "x"))
     = Normal (mkView (VString []) []).
Proof.
  assert (extractValue basic_URL_parser (str "eid=") (trim (str " eid "))
          = Normal (VString [])) as H1 by (vm_compute; reflexivity).
  split; [exact H1|]. split.
  - refine (proj1 (search_effect_shows_nothing basic_URL_parser call_Object_prototype
                     (str "eid=") (str " eid ") _ _ H1)). vm_compute. discriminate.
  - refine (proj1 (search_effect_shows_nothing basic_URL_parser call_Object_prototype
                     (quoted "{`eid`: ``}") (str "eid") _ _ _));
      [vm_compute; discriminate | vm_compute; reflexivity].
Defined.

(** ** [getByPath]: paths in parts *)

Lemma resolve_undefined segments : resolve VUndefined segments = VUndefined.
Proof. destruct segments; reflexivity. Qed.

Lemma resolve_app a : forall cur b, resolve cur (a ++ b) = resolve (resolve cur a) b.
Proof.
  induction a as [|p a IH]; intros cur b; [reflexivity|].
  destruct cur; cbn [app resolve]; try (symmetry; apply resolve_undefined); try apply IH.
  destruct (Number_isInteger (Number p)); [apply IH|].
  symmetry. apply resolve_undefined.
Qed.

(** X9: Walking a path in two parts: when the first part leads to an object,
    the whole path leads where the second part leads from that object. *)
Theorem getByPath_concat obj p1 p2 mid :
  getByPath obj p1 = Normal mid -> isObject mid = true ->
  getByPath obj (p1 ++ dot :: p2) = getByPath mid p2.
Proof.
  unfold getByPath. intros H Hmid. rewrite Hmid. cbn [negb].
  destruct (isObject obj); cbn [negb] in *.
  - rewrite !split_filter_segments, !getByPath_loop_resolve in *.
    injection H as <-. rewrite path_segments_dot_app, resolve_app. reflexivity.
  - injection H as <-. discriminate.
Qed.

(** The object [{"a": {"b": [1, 2]}}]: the path [a.b.1] is the path [b.1]
    from the field [a]. *)
Lemma getByPath_concat_witness :
  getByPath (VObject [(str "a", VObject [(str "b", VArray [VNumber (number_of_Z 1);
                                                          VNumber (number_of_Z 2)])])])
    (str "a.b.1")
  = getByPath (VObject [(str "b", VArray [VNumber (number_of_Z 1); VNumber (number_of_Z 2)])])
      (str "b.1")
  /\ getByPath (VObject [(str "b", VArray [VNumber (number_of_Z 1); VNumber (number_of_Z 2)])])
       (str "b.1") = Normal (VNumber (number_of_Z 2)).
Proof.
  split; [|vm_compute; reflexivity].
  apply (getByPath_concat _ (str "a") (str "b.1")); vm_compute; reflexivity.
Defined.

Lemma path_segments_dots path :
  forallb (N.eqb dot) path = true -> path_segments path = [].
Proof.
  unfold path_segments. induction path as [|c path IH]; [reflexivity|].
  intros H. cbn [forallb] in H. apply andb_true_iff in H as [Hc Hp].
  apply N.eqb_eq in Hc. subst c. cbn [path_segments_from].
  rewrite N.eqb_refl. exact (IH Hp).
Qed.

(** X10: A path without a segment, that is the empty path or a path of dots,
    leads nowhere: [getByPath] returns the object itself. *)
Theorem getByPath_no_segment obj path :
  isObject obj = true -> forallb (N.eqb dot) path = true ->
  getByPath obj path = Normal obj.
Proof.
  intros Hobj Hpath. unfold getByPath. rewrite Hobj. cbn [negb].
  rewrite split_filter_segments, (path_segments_dots path Hpath). reflexivity.
Qed.

Lemma getByPath_no_segment_witness :
  getByPath (VObject [(str "a", VNull)]) (str "...") = Normal (VObject [(str "a", VNull)])
  /\ getByPath (VObject [(str "a", VNull)]) [] = Normal (VObject [(str "a", VNull)]).
Proof. split; apply getByPath_no_segment; reflexivity. Defined.

(** ** [escapeRegExp]: the escaped text as a pattern *)

Lemma strip_prefix_isPrefix p : forall s,
  isPrefix p s = match strip_prefix p s with Some _ => true | None => false end.
Proof.
  induction p as [|a p IH]; intros [|b s]; simpl; try reflexivity.
  destruct (N.eqb a b); [apply IH | reflexivity].
Qed.

(** Without the flag [i], literal characters match themselves only. *)
Lemma rmatch_literals_exact key : forall rest k pos s caps,
  rmatch false (mk_cat (map lit key ++ rest)) k pos s caps
  = match strip_prefix key s with
    | Some s' => rmatch false (mk_cat rest) k (pos + List.length key) s' caps
    | None => None
    end.
Proof.
  induction key as [|a key IH]; intros rest k pos s caps.
  - simpl. rewrite Nat.add_0_r. reflexivity.
  - change (rmatch false (mk_cat (map lit (a :: key) ++ rest)) k pos s caps)
      with (match s with
            | c :: s' =>
                if N.eqb a c
                then rmatch false (mk_cat (map lit key ++ rest)) k (S pos) s' caps
                else None
            | [] => None
            end).
    destruct s as [|c s']; [reflexivity|]. cbn [strip_prefix].
    destruct (N.eqb a c); [|reflexivity].
    rewrite IH. simpl List.length. rewrite Nat.add_succ_r. reflexivity.
Qed.

Lemma match_at_literals_exact key pos s :
  match_at false (mk_cat (map lit key)) pos s
  = if isPrefix key s then Some [(0, key)] else None.
Proof.
  unfold match_at. rewrite <- (app_nil_r (map lit key)).
  rewrite rmatch_literals_exact, strip_prefix_isPrefix.
  destruct (strip_prefix key s) as [s'|] eqn:E; [|reflexivity].
  apply strip_prefix_app in E. subst s. cbn [mk_cat fold_right rmatch].
  rewrite firstn_consumed. reflexivity.
Qed.

Lemma search_from_literals_exact key s : forall pos,
  search_from false (mk_cat (map lit key)) pos s
  = if isInfix key s then Some [(0, key)] else None.
Proof.
  induction s as [|c s IH]; intros pos; cbn [search_from isInfix];
    rewrite match_at_literals_exact.
  - destruct (isPrefix key []); reflexivity.
  - destruct (isPrefix key (c :: s)); [reflexivity|]. cbn [orb]. apply IH.
Qed.

(** X11: [escapeRegExp s] is a pattern for every [s], with and without the
    flag [i], and the pattern stands for the text [s] itself: without
    flags it matches a text exactly when [s] occurs in it, and the match is
    [s]. *)
Theorem escapeRegExp_matches_itself s :
  (exists re,
     RegExp_new (escapeRegExp s) false = Normal re
     /\ forall text,
          String_match text re = if isInfix s text then Some [(0, s)] else None)
  /\ (exists re, RegExp_new (escapeRegExp s) true = Normal re).
Proof.
  assert (forall ic, RegExp_new (escapeRegExp s) ic
                     = Normal (mkRegExp (mk_cat (map lit s)) ic)) as Hnew.
  { intros ic.
    pose proof (RegExp_new_with_key [] s [] [] 0 [] 0 ic eq_refl) as H.
    cbn [app rev] in H. rewrite !app_nil_r in H. apply H.
    intros L. rewrite app_nil_r. reflexivity. }
  split.
  - eexists. split; [apply Hnew|]. intros text.
    unfold String_match. cbn [re_source re_ignoreCase].
    apply search_from_literals_exact.
  - eexists. apply Hnew.
Qed.

(** ** [decodeMaybe] *)

Lemma decode_uri_plain s : forall f,
  (List.length s < f)%nat -> includes s 37 = false -> decode_uri f s = Normal s.
Proof.
  induction s as [|c s IH]; intros f Hf Hs; (destruct f as [|g]; [simpl in Hf; lia|]).
  - reflexivity.
  - unfold includes in Hs. cbn [existsb] in Hs. apply orb_false_iff in Hs as [Hc Hs].
    cbn [decode_uri]. rewrite N.eqb_sym in Hc. rewrite Hc. cbn [negb].
    rewrite (IH g) by (simpl in Hf; auto; lia). reflexivity.
Qed.

(** X12: A text without a percent sign is its own decoding. *)
Theorem decodeMaybe_plain s :
  includes s 37 = false -> decodeMaybe s = Normal s.
Proof.
  intros H. unfold decodeMaybe, decodeURIComponent.
  rewrite decode_uri_plain; [reflexivity | lia | exact H].
Qed.

Lemma decodeMaybe_plain_witness :
  decodeMaybe (str "a+b c&d=e") = Normal (str "a+b c&d=e").
Proof. apply decodeMaybe_plain. reflexivity. Defined.

(** Reading escaped bytes does not go past a percent sign that is not
    followed by two hexadecimal digits. *)
Lemma take_escaped_stops n : forall x bad bs r,
  (forall h1 h2 t, bad = 37%N :: h1 :: h2 :: t -> isHexDigit h1 && isHexDigit h2 = false) ->
  (exists t, bad = 37%N :: t) ->
  take_escaped n (x ++ bad) = Some (bs, r) ->
  exists x', r = x' ++ bad /\ (List.length x' <= List.length x)%nat.
Proof.
  induction n as [|n IH]; intros x bad bs r Hbad [t Ht]; cbn [take_escaped].
  - intros [= _ <-]. exists x. split; [reflexivity | lia].
  - destruct x as [|c [|h1 [|h2 x']]]; cbn [app].
    + subst bad. destruct t as [|h1 [|h2 t']]; try discriminate.
      pose proof (Hbad h1 h2 t' eq_refl) as Hb.
      destruct (isHexDigit h1), (isHexDigit h2); try discriminate;
        rewrite ?andb_false_r; discriminate.
    + subst bad. destruct t as [|h2 t']; [discriminate|].
      change (isHexDigit 37) with false. rewrite andb_false_r. discriminate.
    + subst bad. change (isHexDigit 37) with false. rewrite !andb_false_r. discriminate.
    + destruct (N.eqb c 37 && isHexDigit h1 && isHexDigit h2); [|discriminate].
      destruct (take_escaped n (x' ++ bad)) as [[bs' r']|] eqn:E; [|discriminate].
      intros [= _ <-].
      destruct (IH x' bad bs' r' Hbad (ex_intro _ t Ht) E) as [x'' [-> Hl]].
      exists x''. split; [reflexivity | simpl; lia].
Qed.

Lemma decodeURIComponent_step c r :
  decodeURIComponent (c :: r)
  = if negb (N.eqb c 37) then rest <- decodeURIComponent r ;; Normal (c :: rest)
    else
      match r with
      | h1 :: h2 :: r1 =>
          if isHexDigit h1 && isHexDigit h2 then
            let b := byte_of_hex h1 h2 in
            if N.ltb b 128 then rest <- decodeURIComponent r1 ;; Normal (b :: rest)
            else
              match (if in_range 192 223 b then 2%nat
                     else if in_range 224 239 b then 3%nat
                     else if in_range 240 247 b then 4%nat else 0%nat) with
              | O => Throw URIError
              | S n' =>
                  match take_escaped n' r1 with
                  | Some (bs, r2) =>
                      match utf8_strict (b :: bs) with
                      | Some cp =>
                          rest <- decodeURIComponent r2 ;;
                          Normal (utf16_of_code_point cp ++ rest)
                      | None => Throw URIError
                      end
                  | None => Throw URIError
                  end
              end
          else Throw URIError
      | _ => Throw URIError
      end.
Proof.
  unfold decodeURIComponent at 1. cbn [decode_uri]. cbv zeta.
  destruct (negb (N.eqb c 37)).
  { rewrite decode_uri_fuel by (simpl; lia). reflexivity. }
  destruct r as [|h1 [|h2 r1]]; try reflexivity.
  destruct (isHexDigit h1 && isHexDigit h2); [|reflexivity].
  destruct (N.ltb (byte_of_hex h1 h2) 128).
  { rewrite decode_uri_fuel by (simpl; lia). reflexivity. }
  destruct (if in_range 192 223 (byte_of_hex h1 h2) then 2%nat
            else if in_range 224 239 (byte_of_hex h1 h2) then 3%nat
            else if in_range 240 247 (byte_of_hex h1 h2) then 4%nat else 0%nat)
    as [|n']; [reflexivity|].
  destruct (take_escaped n' r1) as [[bs r2]|] eqn:E; [|reflexivity].
  apply take_escaped_length in E.
  destruct (utf8_strict (byte_of_hex h1 h2 :: bs)); [|reflexivity].
  rewrite decode_uri_fuel by (simpl; lia). reflexivity.
Qed.

Lemma decodeURIComponent_malformed n : forall pre bad,
  (List.length pre <= n)%nat ->
  (forall h1 h2 t, bad = 37%N :: h1 :: h2 :: t -> isHexDigit h1 && isHexDigit h2 = false) ->
  (exists t, bad = 37%N :: t) ->
  decodeURIComponent (pre ++ bad) = Throw URIError.
Proof.
  induction n as [|n IH]; intros pre bad Hn Hbad [t Ht].
  - destruct pre; [|simpl in Hn; lia]. cbn [app]. subst bad.
    rewrite decodeURIComponent_step. cbn [N.eqb Pos.eqb negb].
    destruct t as [|h1 [|h2 t']]; try reflexivity.
    rewrite (Hbad h1 h2 t' eq_refl). reflexivity.
  - destruct pre as [|c pre]; [apply (IH [] bad); [simpl; lia | exact Hbad | eauto]|].
    simpl in Hn. cbn [app]. rewrite decodeURIComponent_step.
    destruct (negb (N.eqb c 37)).
    { rewrite (IH pre bad) by (eauto; lia). reflexivity. }
    destruct pre as [|h1 [|h2 pre']]; cbn [app].
    + subst bad. destruct t as [|h2 t']; [reflexivity|].
      change (isHexDigit 37) with false. reflexivity.
    + subst bad. change (isHexDigit 37) with false. rewrite andb_false_r. reflexivity.
    + simpl in Hn. destruct (isHexDigit h1 && isHexDigit h2); [|reflexivity]. cbv zeta.
      destruct (N.ltb (byte_of_hex h1 h2) 128).
      { rewrite (IH pre' bad) by (eauto; lia). reflexivity. }
      destruct (if in_range 192 223 (byte_of_hex h1 h2) then 2%nat
                else if in_range 224 239 (byte_of_hex h1 h2) then 3%nat
                else if in_range 240 247 (byte_of_hex h1 h2) then 4%nat else 0%nat)
        as [|n']; [reflexivity|].
      destruct (take_escaped n' (pre' ++ bad)) as [[bs r2]|] eqn:E; [|reflexivity].
      destruct (take_escaped_stops n' pre' bad bs r2 Hbad (ex_intro _ t Ht) E)
        as [x' [-> Hl]].
      destruct (utf8_strict (byte_of_hex h1 h2 :: bs)); [|reflexivity].
      rewrite (IH x' bad) by (eauto; lia). reflexivity.
Qed.

(** X13: Decoding is all or nothing: a text that holds, anywhere, a percent sign
    that is not followed by two hexadecimal digits comes back unchanged,
    the well-formed escapes in it included. *)
Theorem decodeMaybe_malformed pre rest :
  match rest with
  | h1 :: h2 :: _ => isHexDigit h1 && isHexDigit h2
  | _ => false
  end = false ->
  decodeURIComponent (pre ++ 37%N :: rest) = Throw URIError
  /\ decodeMaybe (pre ++ 37%N :: rest) = Normal (pre ++ 37%N :: rest).
Proof.
  intros H.
  assert (decodeURIComponent (pre ++ 37%N :: rest) = Throw URIError) as E.
  { apply (decodeURIComponent_malformed (List.length pre)); [lia| |eauto].
    intros h1 h2 t [= ->]. exact H. }
  split; [exact E|]. unfold decodeMaybe. rewrite E. reflexivity.
Qed.

(** The text [a%20b is 100% sure]: the escape [%20] stays as it is. *)
Lemma decodeMaybe_malformed_witness :
  decodeMaybe (str "a%20b is 100% sure") = Normal (str "a%20b is 100% sure")
  /\ decodeMaybe (str "a%20b") = Normal (str "a b").
Proof.
  split; [|vm_compute; reflexivity].
  apply (decodeMaybe_malformed (str "a%20b is 100") (str " sure")). reflexivity.
Defined.

(** ** The URL/query strategy: the query string *)

(** X14: When the input is no URL, or a URL without the key, and the trimmed
    input without one leading [?] or [#], read as a query string, holds the
    key, the strategy returns its value passed through [decodeMaybe]: the
    value is percent-decoded a second time, after [URLSearchParams]. *)
Theorem searchUrlLike_query_string U input key val :
  (forall u, U (trim input) = Normal u ->
             URLSearchParams_get (searchParams u) key = None) ->
  URLSearchParams_get (URLSearchParams_new (strip_leading_mark (trim input))) key
  = Some val ->
  searchUrlLike U input key
  = Normal (VString (match decodeURIComponent val with
                     | Normal d => d
                     | Throw _ => val
                     end)).
Proof.
  intros HU Hget. unfold searchUrlLike.
  destruct (U (trim input)) as [u|e] eqn:Eu; cbn [bind try_catch].
  - rewrite (HU u eq_refl). cbn [bind try_catch]. rewrite Hget, decodeMaybe_eq. reflexivity.
  - rewrite Hget, decodeMaybe_eq. reflexivity.
Qed.

(** The query [?a=1&eid=%2541&z=]: the value [%2541] of [eid] is [%41]
    for [URLSearchParams] and [A] after [decodeMaybe]; the value of [z] is
    the empty string. *)
Lemma searchUrlLike_query_string_witness :
  URLSearchParams_get (URLSearchParams_new (str "a=1&eid=%2541&z=")) (str "eid")
  = Some (str "%41")
  /\ searchUrlLike basic_URL_parser (str " ?a=1&eid=%2541&z= ") (str "eid")
     = Normal (VString (str "A"))
  /\ searchUrlLike basic_URL_parser (str " ?a=1&eid=%2541&z= ") (str "z")
     = Normal (VString []).
Proof.
  split; [vm_compute; reflexivity|].
  split.
  - rewrite (searchUrlLike_query_string basic_URL_parser _ (str "eid") (str "%41")).
    + vm_compute. reflexivity.
    + intros u Hu. vm_compute in Hu. discriminate.
    + vm_compute. reflexivity.
  - rewrite (searchUrlLike_query_string basic_URL_parser _ (str "z") []).
    + vm_compute. reflexivity.
    + intros u Hu. vm_compute in Hu. discriminate.
    + vm_compute. reflexivity.
Defined.

(** ** The two [key = value] patterns: what a match captures *)

Lemma rmatch_capture_free r :
  capture_free r = true ->
  forall k pos s caps res,
    rmatch true r k pos s caps = Some res ->
    exists pos' s', k pos' s' caps = Some res.
Proof.
  induction r as [| cs | cs | cs | | | r1 IH1 r2 IH2 | r1 IH1 r2 IH2 | n r IH];
    intros Hfree k pos s caps res H; cbn [capture_free] in Hfree; cbn [rmatch] in H.
  - eauto.
  - destruct s as [|c s']; [discriminate|].
    destruct (charset_mem true cs c); [eauto | discriminate].
  - apply match_star_inv in H. destruct H as [t [s' [_ [_ H]]]]. eauto.
  - change (rmatch true (RPlus cs) k pos s caps = Some res) in H.
    apply rmatch_plus_inv in H. destruct H as [t [s' [_ [_ [_ H]]]]]. eauto.
  - destruct (Nat.eqb pos 0); [eauto | discriminate].
  - destruct s; [eauto | discriminate].
  - apply andb_true_iff in Hfree as [H1 H2].
    apply (IH1 H1) in H. destruct H as [pos1 [s1 H]].
    apply (IH2 H2) in H. exact H.
  - apply andb_true_iff in Hfree as [H1 H2].
    destruct (rmatch true r1 k pos s caps) as [res1|] eqn:E1.
    + injection H as ->. exact (IH1 H1 _ _ _ _ _ E1).
    + exact (IH2 H2 _ _ _ _ _ H).
  - discriminate.
Qed.

Lemma rmatch_mk_cat_capture_free items :
  forallb capture_free items = true ->
  forall last k pos s caps res,
    rmatch true (mk_cat (items ++ [last])) k pos s caps = Some res ->
    exists pos' s', rmatch true last k pos' s' caps = Some res.
Proof.
  induction items as [|a items IH]; intros Hfree last k pos s caps res H.
  - cbn [app mk_cat fold_right rmatch] in H. eauto.
  - cbn [forallb] in Hfree. apply andb_true_iff in Hfree as [Ha Hitems].
    cbn [app mk_cat fold_right rmatch] in H.
    apply (rmatch_capture_free a Ha) in H. destruct H as [pos1 [s1 H]].
    exact (IH Hitems _ _ _ _ _ _ H).
Qed.

Lemma literals_capture_free key : forallb capture_free (map lit key) = true.
Proof. induction key; simpl; auto. Qed.

(** A match of the value alternatives captures the value in group 1 and,
    never empty, in exactly one of the groups 2, 3 and 4. *)
Lemma separator_values_inv stops k pos s caps res :
  rmatch true (separator_values stops) k pos s caps = Some res ->
  exists w t j pos' s',
    t <> [] /\ (j = 2 \/ j = 3 \/ j = 4)
    /\ k pos' s' ((1, w) :: (j, t) :: caps) = Some res.
Proof.
  unfold separator_values. cbn [mk_alt rmatch]. intros H.
  set (k1 := fun (pos' : nat) (s' : jsstring) (caps' : captures) =>
               k pos' s' ((1, firstn (pos' - pos) s) :: caps')) in H.
  destruct (rmatch true (quoted_value 34 2) k1 pos s caps) as [r1|] eqn:E1.
  { injection H as ->. apply quoted_value_inv in E1.
    destruct E1 as [t [pos' [s' [Hne Hk]]]]. unfold k1 in Hk. eauto 12. }
  destruct (rmatch true (quoted_value 39 3) k1 pos s caps) as [r2|] eqn:E2.
  { injection H as ->. apply quoted_value_inv in E2.
    destruct E2 as [t [pos' [s' [Hne Hk]]]]. unfold k1 in Hk. eauto 12. }
  cbn [mk_cat fold_right rmatch] in H.
  change (rmatch true (RGroup 4 (mk_cat [RPlus (CSClass true stops)]))
            (fun pos' s' caps' => k1 pos' s' caps') pos s caps = Some res) in H.
  apply captured_run_inv in H. destruct H as [t [s' [_ [Hne [_ Hk]]]]].
  unfold k1 in Hk. eauto 12.
Qed.

(** The shape of a match of a [key = value] pattern. *)
Lemma key_value_match_shape before stops key pos s m :
  match_at true (key_value_regex before stops key) pos s = Some m ->
  exists w0 w t j,
    t <> [] /\ (j = 2 \/ j = 3 \/ j = 4) /\ m = [(0, w0); (1, w); (j, t)].
Proof.
  unfold match_at, key_value_regex. intros H.
  match type of H with
  | rmatch true (mk_cat ([?a] ++ map lit key ++ [?b; ?c; ?d; ?e])) _ _ _ _ = _ =>
      replace ([a] ++ map lit key ++ [b; c; d; e])
        with ((a :: map lit key ++ [b; c; d]) ++ [e]) in H
        by (cbn [app]; rewrite <- app_assoc; reflexivity)
  end.
  apply rmatch_mk_cat_capture_free in H.
  - destruct H as [pos1 [s1 H]].
    apply separator_values_inv in H.
    destruct H as [w [t [j [pos' [s' [Hne [Hj H]]]]]]].
    cbv beta in H. injection H as <-. eauto 10.
  - cbn [forallb]. rewrite forallb_app, literals_capture_free. reflexivity.
Qed.

Lemma key_value_match_value m w0 w t j :
  t <> [] -> (j = 2 \/ j = 3 \/ j = 4) -> m = [(0, w0); (1, w); (j, t)] ->
  or_else (or_else (group m 2) (group m 3)) (group m 4) = Some t.
Proof.
  intros Hne Hj ->. destruct t as [|c t]; [congruence|].
  destruct Hj as [->|[->| ->]]; reflexivity.
Qed.

Lemma genericFallback_matched input key m :
  String_match input (mkRegExp (generic_regex key) true) = Some m ->
  exists t, t <> [] /\ genericFallback input key = Normal (VString t).
Proof.
  intros Em. unfold genericFallback. rewrite RegExp_new_generic. cbn [bind]. rewrite Em.
  unfold String_match in Em. cbn [re_source re_ignoreCase] in Em.
  apply search_from_leftmost in Em. destruct Em as [i [_ [Hat _]]].
  apply key_value_match_shape in Hat.
  destruct Hat as [w0 [w [t [j [Hne [Hj Hm]]]]]].
  rewrite (key_value_match_value m w0 w t j Hne Hj Hm). eauto.
Qed.


(** X16: The pattern of the URL/query strategy, which runs when neither the URL
    nor the query string holds the key: when it matches, the value that
    goes to [decodeMaybe] is a captured text that is not empty, never the
    text [undefined] of a missing group. *)
Theorem searchUrlLike_pattern_value U input key :
  (forall u, U (trim input) = Normal u ->
             URLSearchParams_get (searchParams u) key = None) ->
  URLSearchParams_get (URLSearchParams_new (strip_leading_mark (trim input))) key = None ->
  (String_match (strip_leading_mark (trim input)) (mkRegExp (url_regex key) true) = None
   /\ searchUrlLike U input key = Normal VUndefined)
  \/ (exists m t,
        String_match (strip_leading_mark (trim input)) (mkRegExp (url_regex key) true)
        = Some m
        /\ t <> [] /\ (group m 2 = Some t \/ group m 3 = Some t \/ group m 4 = Some t)
        /\ searchUrlLike U input key
           = Normal (VString (match decodeURIComponent t with
                              | Normal d => d
                              | Throw _ => t
                              end))).
Proof.
  intros HU Hget.
  assert (searchUrlLike U input key
          = (re <- RegExp_new (urlPattern key) true ;;
             match String_match (strip_leading_mark (trim input)) re with
             | Some m =>
                 d <- decodeMaybe
                        (ToString (or_else (or_else (group m 2) (group m 3)) (group m 4))) ;;
                 Normal (VString d)
             | None => Normal VUndefined
             end)) as E.
  { unfold searchUrlLike.
    destruct (U (trim input)) as [u|e] eqn:Eu; cbn [bind try_catch].
    - rewrite (HU u eq_refl). cbn [bind try_catch]. rewrite Hget. reflexivity.
    - rewrite Hget. reflexivity. }
  rewrite E, RegExp_new_url. cbn [bind].
  destruct (String_match _ _) as [m|] eqn:Em; [right | left; auto].
  pose proof Em as Em'.
  unfold String_match in Em'. cbn [re_source re_ignoreCase] in Em'.
  apply search_from_leftmost in Em'. destruct Em' as [i [_ [Hat _]]].
  apply key_value_match_shape in Hat.
  destruct Hat as [w0 [w [t [j [Hne [Hj Hm]]]]]].
  exists m, t. split; [reflexivity|]. split; [exact Hne|]. split.
  - subst m. destruct Hj as [->|[->| ->]]; cbn; auto.
  - rewrite (key_value_match_value m w0 w t j Hne Hj Hm), decodeMaybe_eq. reflexivity.
Qed.

(** The text [name: John; eid: 50%25] is a URL of scheme [name] without a
    query, and no query string with the key [eid]; the pattern captures
    [50%25], which decodes to [50%]. *)
Lemma searchUrlLike_pattern_value_witness :
  searchUrlLike basic_URL_parser (str "name: John; eid: 50%25") (str "eid")
  = Normal (VString (str "50%"))
  /\ searchUrlLike basic_URL_parser (str "name: John; eid: ") (str "eid")
     = Normal VUndefined.
Proof.
  split.
  - destruct (searchUrlLike_pattern_value basic_URL_parser
                (str "name: John; eid: 50%25") (str "eid")) as [[Hn _]|[m [t [Hm [_ [Hg H]]]]]].
    + intros u Hu. vm_compute in Hu. injection Hu as <-. vm_compute. reflexivity.
    + vm_compute. reflexivity.
    + vm_compute in Hn. discriminate.
    + vm_compute in Hm. injection Hm as <-.
      destruct Hg as [Hg|[Hg|Hg]]; vm_compute in Hg; try discriminate Hg.
      injection Hg as <-. rewrite H. vm_compute. reflexivity.
  - vm_compute. reflexivity.
Defined.

(** ** The JSON-like strategy: dotted keys, top-level values, [null] *)

Lemma includes_In s c : includes s c = true -> In c s.
Proof.
  unfold includes. intros H. apply existsb_exists in H as [x [Hin Hx]].
  apply N.eqb_eq in Hx. subst x. exact Hin.
Qed.

Lemma dotted_key_not_blank key : includes key dot = true -> trim key <> [].
Proof. intros H. apply (trim_keeps dot); [now apply includes_In | reflexivity]. Qed.

Lemma is_json_not_undefined v : is_json v = true -> is_undefined v = false.
Proof. destruct v; simpl; congruence. Qed.

(** X17: For a key with a dot and an input that [JSON.parse] accepts,
    [extractValue] returns what the path leads to in the parsed value when
    that is a string, a number or a boolean; the key is never blank, and
    no other strategy is consulted. *)
Theorem extractValue_dotted_key U input key parsed v :
  includes key dot = true ->
  JSON_parse input = Normal parsed ->
  getByPath parsed key = Normal v ->
  (exists s, v = VString s) \/ (exists n, v = VNumber n) \/ (exists b, v = VBool b) ->
  extractValue U input key = Normal v.
Proof.
  intros Hdot Hparse Hpath Hv. unfold extractValue, searchJsonLike, jsonStrict.
  pose proof (dotted_key_not_blank key Hdot) as Hkey.
  destruct (trim key); [congruence|]. cbn [truthy_string negb].
  pose proof (JSON_parse_trimmed _ _ Hparse) as Htrim. unfold tryParseJson.
  rewrite (JSON_parse_nonempty _ _ Htrim), Htrim. cbn [negb try_catch bind].
  rewrite (is_json_not_undefined _ (JSON_parse_is_json _ _ Hparse)). cbn [negb].
  rewrite Hdot, Hpath. cbn [bind].
  destruct Hv as [[s ->]|[[n ->]|[b ->]]]; reflexivity.
Qed.

(** The text [{"user": {"id": 42, "tags": ["a", "b"]}}] with the keys
    [user.id] and [user.tags.1]. *)
Lemma extractValue_dotted_key_witness :
  extractValue basic_URL_parser (quoted "{`user`: {`id`: 42, `tags`: [`a`, `b`]}}")
    (str "user.id") = Normal (VNumber (number_of_Z 42))
  /\ extractValue basic_URL_parser (quoted "{`user`: {`id`: 42, `tags`: [`a`, `b`]}}")
       (str "user.tags.1") = Normal (VString (str "b")).
Proof.
  assert (JSON_parse (quoted "{`user`: {`id`: 42, `tags`: [`a`, `b`]}}")
          = Normal (VObject [(str "user",
                              VObject [(str "id", VNumber (number_of_Z 42));
                                       (str "tags", VArray [VString (str "a");
                                                            VString (str "b")])])]))
    as Hparse by (vm_compute; reflexivity).
  split.
  - apply (extractValue_dotted_key _ _ (str "user.id") _ _ eq_refl Hparse);
      [vm_compute; reflexivity | eauto].
  - apply (extractValue_dotted_key _ _ (str "user.tags.1") _ _ eq_refl Hparse);
      [vm_compute; reflexivity | eauto].
Defined.

(** X18: When the trimmed input is a JSON text whose top level is no object (an
    array, a string, a number, a boolean, [null]), the strict parse finds
    nothing for any key, with or without a dot, and the JSON-ish pattern
    decides. *)
Theorem searchJsonLike_top_level_not_object input key parsed :
  JSON_parse (trim input) = Normal parsed -> isObject parsed = false ->
  jsonStrict input key = Normal None
  /\ searchJsonLike input key = jsonishFallback input key.
Proof.
  intros Hparse Hobj.
  assert (jsonStrict input key = Normal None) as E.
  { unfold jsonStrict, tryParseJson.
    rewrite (JSON_parse_nonempty _ _ Hparse), Hparse. cbn [negb try_catch bind].
    rewrite (is_json_not_undefined _ (JSON_parse_is_json _ _ Hparse)). cbn [negb].
    unfold getByPath. rewrite Hobj. cbn [negb].
    destruct (includes key dot); reflexivity. }
  split; [exact E|]. unfold searchJsonLike. rewrite E. reflexivity.
Qed.

(** The text [[{"eid": 7}]]: the path [0.eid] finds nothing, and the key
    [eid] is found by the pattern, not by the parse. *)
Lemma searchJsonLike_top_level_not_object_witness :
  JSON_parse (trim (quoted "[{`eid`: 7}]"))
  = Normal (VArray [VObject [(str "eid", VNumber (number_of_Z 7))]])
  /\ searchJsonLike (quoted "[{`eid`: 7}]") (str "0.eid") = Normal VUndefined
  /\ jsonStrict (quoted "[{`eid`: 7}]") (str "eid") = Normal None
  /\ searchJsonLike (quoted "[{`eid`: 7}]") (str "eid") = Normal (VNumber (number_of_Z 7)).
Proof.
  assert (JSON_parse (trim (quoted "[{`eid`: 7}]"))
          = Normal (VArray [VObject [(str "eid", VNumber (number_of_Z 7))]])) as Hparse
    by (vm_compute; reflexivity).
  split; [exact Hparse|].
  split; [|split].
  - rewrite (proj2 (searchJsonLike_top_level_not_object _ (str "0.eid") _ Hparse eq_refl)).
    vm_compute. reflexivity.
  - exact (proj1 (searchJsonLike_top_level_not_object _ (str "eid") _ Hparse eq_refl)).
  - rewrite (proj2 (searchJsonLike_top_level_not_object _ (str "eid") _ Hparse eq_refl)).
    vm_compute. reflexivity.
Defined.

(** X19: A [null] result never comes from the parsed JSON: the strict parse
    has found nothing, and the JSON-ish pattern has read the token [null]
    in the text. *)
Theorem searchJsonLike_null_from_pattern input key :
  searchJsonLike input key = Normal VNull ->
  jsonStrict input key = Normal None /\ jsonishFallback input key = Normal VNull.
Proof.
  unfold searchJsonLike.
  destruct (jsonStrict_normal input key) as [[v|] Hs]; rewrite Hs; cbn [bind].
  - intros [= ->]. apply jsonStrict_not_object in Hs. now contradiction Hs.
  - auto.
Qed.

Lemma searchJsonLike_null_from_pattern_witness :
  searchJsonLike (quoted "{`a`: {`k`: null}}") (str "k") = Normal VNull
  /\ jsonStrict (quoted "{`a`: {`k`: null}}") (str "k") = Normal None.
Proof.
  assert (searchJsonLike (quoted "{`a`: {`k`: null}}") (str "k") = Normal VNull) as H
    by (vm_compute; reflexivity).
  split; [exact H|]. exact (proj1 (searchJsonLike_null_from_pattern _ _ H)).
Defined.

(** ** The kinds of result *)

(** X20: [extractValue] always returns, and what it returns is [undefined],
    [null], a boolean, a number, a string, or a function that the strict
    parse has read from the prototype of a parsed object; never an object
    or an array. *)
Theorem extractValue_result_kinds U input key :
  exists v,
    extractValue U input key = Normal v
    /\ (v = VUndefined \/ v = VNull \/ (exists b, v = VBool b) \/ (exists n, v = VNumber n)
        \/ (exists s, v = VString s)
        \/ (exists name, v = VFunction name /\ jsonStrict input key = Normal (Some v))).
Proof.
  destruct (searchUrlLike_string U input key) as [u [Hu Hus]].
  destruct (genericFallback_string input key) as [g [Hg Hgs]].
  unfold extractValue.
  destruct (negb (truthy_string (trim key))); [eauto|].
  unfold searchJsonLike.
  destruct (jsonStrict_normal input key) as [[w|] Hs]; rewrite Hs; cbn [bind].
  - pose proof (jsonStrict_not_object _ _ _ Hs) as Ht.
    pose proof (jsonStrict_defined _ _ _ Hs) as Hd.
    destruct w; cbn [is_undefined negb]; try congruence; eauto 12;
      simpl in Ht; congruence.
  - destruct (jsonishFallback_normal input key) as [j Hj]. rewrite Hj. cbn [bind].
    pose proof (jsonishFallback_result _ _ _ Hj) as Hr.
    destruct (negb (is_undefined j)) eqn:Ej.
    + exists j. split; [reflexivity|].
      destruct Hr as [->|[[t [_ ->]]|[[t [_ [_ ->]]]|[->|[->| ->]]]]]; eauto 12.
      destruct (Number_isNaN (Number t)); eauto 12.
    + rewrite Hu. cbn [bind].
      destruct (negb (is_undefined u)).
      * exists u. split; [reflexivity|]. destruct Hus as [->|[s ->]]; eauto 12.
      * rewrite Hg. exists g. split; [reflexivity|]. destruct Hgs as [->|[s ->]]; eauto 12.
Qed.

(** ** The generic pattern on [key=value] and [key:value] *)

Lemma generic_stop_class c :
  charset_mem true (CSClass true [CIEscape CESpace; CIChar 44; CIChar 59; CIChar 124]) c
  = negb (isGenericStop c).
Proof.
  unfold isGenericStop. cbn [charset_mem existsb item_mem escape_mem].
  rewrite !char_eq_plain by lia. rewrite orb_false_r, !orb_assoc.
  destruct (isWhiteSpace c || N.eqb c 44 || N.eqb c 59 || N.eqb c 124); reflexivity.
Qed.

(** After the key: the separator, then a value that starts with neither
    white space nor a quote and runs to the end of the text without a
    stop, is captured whole in the groups 1 and 4. *)
Lemma generic_tail_value k pos sep c v caps r :
  (sep = 61 \/ sep = 58)%N ->
  forallb (fun x => negb (isGenericStop x)) (c :: v) = true ->
  c <> 34%N -> c <> 39%N ->
  k (pos + S (S (List.length v))) [] ((1, c :: v) :: (4, c :: v) :: caps) = Some r ->
  rmatch true
    (mk_cat [space_star; mk_alt (mk_cat [lit 61]) [mk_cat [lit 58]]; space_star;
             separator_values [CIEscape CESpace; CIChar 44; CIChar 59; CIChar 124]])
    k pos (sep :: c :: v) caps = Some r.
Proof.
  intros Hsep Hall Hq1 Hq2 Hk.
  pose proof Hall as Hall'. cbn [forallb] in Hall'.
  apply andb_true_iff in Hall' as [Hc Hv].
  assert (isWhiteSpace c = false) as Hws.
  { unfold isGenericStop in Hc. destruct (isWhiteSpace c); [discriminate | reflexivity]. }
  assert (isWhiteSpace sep = false) as Hsws by (destruct Hsep as [-> | ->]; reflexivity).
  assert (char_eq true 34 c = false) as H34
    by (rewrite char_eq_plain by lia; now apply N.eqb_neq).
  assert (char_eq true 39 c = false) as H39
    by (rewrite char_eq_plain by lia; now apply N.eqb_neq).
  assert (forallb (charset_mem true
            (CSClass true [CIEscape CESpace; CIChar 44; CIChar 59; CIChar 124])) v = true)
    as Hcls.
  { clear -Hv. induction v as [|d v IH]; [reflexivity|].
    cbn [forallb] in *. apply andb_true_iff in Hv as [Hd Hv].
    rewrite generic_stop_class, Hd, (IH Hv). reflexivity. }
  set (values := separator_values [CIEscape CESpace; CIChar 44; CIChar 59; CIChar 124]).
  assert (rmatch true (mk_cat [space_star; values]) k (S pos) (c :: v) caps = Some r) as Hval.
  { unfold space_star. cbn [mk_cat fold_right rmatch match_star charset_mem escape_mem].
    rewrite Hws. unfold values, separator_values, quoted_value.
    cbn [mk_cat fold_right mk_alt rmatch lit].
    change (charset_mem true (CSChar 34) c) with (char_eq true 34 c).
    change (charset_mem true (CSChar 39) c) with (char_eq true 39 c).
    rewrite H34, H39, generic_stop_class, Hc.
    erewrite match_star_all; [reflexivity | exact Hcls |].
    cbn beta.
    replace (S (S pos) + List.length v - S pos) with (S (List.length v)) by lia.
    cbn [firstn]. rewrite firstn_all.
    rewrite <- Hk. f_equal. lia. }
  unfold space_star. cbn [mk_cat fold_right rmatch match_star charset_mem escape_mem].
  rewrite Hsws. cbn [mk_alt rmatch lit].
  change (charset_mem true (CSChar 61) sep) with (char_eq true 61 sep).
  change (charset_mem true (CSChar 58) sep) with (char_eq true 58 sep).
  unfold space_star in Hval. cbn [mk_cat fold_right rmatch] in Hval.
  destruct Hsep as [-> | ->].
  - change (char_eq true 61 61) with true. cbv iota. rewrite Hval. reflexivity.
  - change (char_eq true 61 58) with false. change (char_eq true 58 58) with true.
    cbv iota. exact Hval.
Qed.

(** X21: For every key, whatever characters it holds, the generic pattern
    finds in the text [key=value] or [key:value] the whole value, when the
    value starts with no quote and holds no white space, [,], [;] or
    [|]. *)
Theorem genericFallback_key_value key sep c v :
  (sep = 61 \/ sep = 58)%N ->
  forallb (fun x => negb (isGenericStop x)) (c :: v) = true ->
  c <> 34%N -> c <> 39%N ->
  genericFallback (key ++ sep :: c :: v) key = Normal (VString (c :: v)).
Proof.
  intros Hsep Hall Hq1 Hq2.
  assert (exists w,
            String_match (key ++ sep :: c :: v) (mkRegExp (generic_regex key) true)
            = Some [(0, w); (1, c :: v); (4, c :: v)]) as [w Hm].
  { eexists. unfold String_match. cbn [re_source re_ignoreCase].
    apply search_from_here. unfold match_at, generic_regex, key_value_regex.
    cbn [app mk_cat fold_right mk_alt rmatch Nat.eqb].
    match goal with
    | |- match ?a with _ => _ end = _ =>
        assert (a = Some [(0, firstn (0 + List.length key + S (S (List.length v)) - 0)
                               (key ++ sep :: c :: v)); (1, c :: v); (4, c :: v)]) as ->;
        [|reflexivity]
    end.
    change (fold_right RCat REmpty ?l) with (mk_cat l).
    rewrite (rmatch_literals_same key key (same_letters_refl key)).
    apply generic_tail_value; auto. }
  unfold genericFallback. rewrite RegExp_new_generic. cbn [bind]. rewrite Hm.
  reflexivity.
Qed.

(** The key [a.b(c)] holds characters that are special in a pattern; the
    value after [:] is found as it is. *)
Lemma genericFallback_key_value_witness :
  genericFallback (str "a.b(c):x=1/2") (str "a.b(c)") = Normal (VString (str "x=1/2"))
  /\ genericFallback (str "eid=77") (str "eid") = Normal (VString (str "77")).
Proof.
  split.
  - apply (genericFallback_key_value (str "a.b(c)") 58 120 (str "=1/2"));
      solve [auto | reflexivity | discriminate].
  - apply (genericFallback_key_value (str "eid") 61 55 (str "7"));
      solve [auto | reflexivity | discriminate].
Defined.

(** ** The JSON-ish pattern on a quoted value *)

(** A greedy repetition stops at the first character outside the class. *)
Lemma match_star_run cs k v : forall pos q post caps r,
  forallb (charset_mem true cs) v = true ->
  charset_mem true cs q = false ->
  k (pos + List.length v) (q :: post) caps = Some r ->
  match_star true cs k pos (v ++ q :: post) caps = Some r.
Proof.
  induction v as [|c v IH]; intros pos q post caps r Hall Hq Hk.
  - cbn [app match_star]. rewrite Hq. rewrite Nat.add_0_r in Hk. exact Hk.
  - cbn [forallb] in Hall. apply andb_true_iff in Hall as [Hc Hv].
    cbn [app match_star]. rewrite Hc.
    rewrite (IH (S pos) q post caps r Hv Hq); [reflexivity|].
    rewrite <- Hk. f_equal. simpl. lia.
Qed.

Lemma not_quote_class q c :
  (q = 34 \/ q = 39)%N ->
  charset_mem true (CSClass true [CIChar q]) c = negb (N.eqb c q).
Proof.
  intros Hq. cbn [charset_mem existsb item_mem]. rewrite char_eq_plain by lia.
  rewrite orb_false_r. reflexivity.
Qed.

Lemma includes_false_forallb v a :
  includes v a = false -> forallb (fun c => negb (N.eqb c a)) v = true.
Proof.
  unfold includes. induction v as [|c v IH]; cbn [existsb forallb]; [reflexivity|].
  intros H. apply orb_false_iff in H as [Hc Hv].
  rewrite N.eqb_sym, Hc, (IH Hv). reflexivity.
Qed.

Lemma not_quote_run q v :
  (q = 34 \/ q = 39)%N -> includes v q = false ->
  forallb (charset_mem true (CSClass true [CIChar q])) v = true.
Proof.
  intros Hquote Hq. apply includes_false_forallb in Hq.
  induction v as [|d v IH]; [reflexivity|].
  cbn [forallb] in *. apply andb_true_iff in Hq as [Hd Hv].
  rewrite (not_quote_class q d Hquote), Hd, (IH Hv). reflexivity.
Qed.

Lemma firstn_captured (c : char) v rest n :
  n = S (List.length v) -> firstn n (c :: v ++ rest) = c :: v.
Proof.
  intros ->. cbn [firstn]. rewrite firstn_app, Nat.sub_diag, firstn_all. cbn [firstn].
  rewrite app_nil_r. reflexivity.
Qed.

(** The match of the JSON-ish pattern on the quoted key, a colon and a
    value between double quotes (group 1) or single quotes (group 2). *)
Lemma jsonish_match_quoted key q c v post :
  (q = 34 \/ q = 39)%N -> includes (c :: v) q = false ->
  exists w,
    String_match (dq ++ key ++ dq ++ [58%N] ++ [q] ++ (c :: v) ++ [q] ++ post)
      (mkRegExp (jsonish_regex key) true)
    = Some [(0, w); (if N.eqb q 34 then 1%nat else 2%nat, c :: v)].
Proof.
  intros Hquote Hq.
  pose proof (not_quote_run q (c :: v) Hquote Hq) as Hall. cbn [forallb] in Hall.
  apply andb_true_iff in Hall as [Hc Hcls].
  pose proof (match_star_run (CSClass true [CIChar q])) as Hrun.
  destruct Hquote as [-> | ->]; eexists;
    unfold String_match; cbn [re_source re_ignoreCase];
    apply search_from_here;
    rewrite (jsonish_match_after_key key key 0 _ (same_letters_refl key));
    unfold dq, jsonish_values, quoted_value, space_star;
    cbn [app mk_cat fold_right mk_alt rmatch lit match_star];
    change (charset_mem true (CSEscape CESpace) 58) with false;
    change (charset_mem true (CSChar 58) 58) with true;
    cbv iota.
  - change (charset_mem true (CSEscape CESpace) 34) with false.
    change (charset_mem true (CSChar 34) 34) with true.
    cbv iota. rewrite Hc.
    erewrite Hrun; [reflexivity | exact Hcls | reflexivity |].
    cbn beta. change (charset_mem true (CSChar 34) 34) with true. cbv iota.
    rewrite (firstn_captured c v) by lia. reflexivity.
  - change (charset_mem true (CSEscape CESpace) 39) with false.
    change (charset_mem true (CSChar 34) 39) with false.
    change (charset_mem true (CSChar 39) 39) with true.
    cbv iota. rewrite Hc.
    erewrite Hrun; [reflexivity | exact Hcls | reflexivity |].
    cbn beta. change (charset_mem true (CSChar 39) 39) with true. cbv iota.
    rewrite (firstn_captured c v) by lia. reflexivity.
Qed.

(** X22: For every key, the text that starts with the quoted key, a colon and a
    value between double quotes, or between single quotes, gives the
    JSON-ish half of [searchJsonLike] the characters between the quotes as
    they are, whatever follows; backslash escapes are not decoded. *)
Theorem jsonishFallback_key_and_quoted key q v post :
  (q = 34 \/ q = 39)%N ->
  v <> [] -> includes v q = false ->
  jsonishFallback (dq ++ key ++ dq ++ [58%N] ++ [q] ++ v ++ [q] ++ post) key
  = Normal (VString v).
Proof.
  intros Hquote Hne Hq. destruct v as [|c v]; [congruence|].
  destruct (jsonish_match_quoted key q c v post Hquote Hq) as [w Hm].
  unfold jsonishFallback. rewrite RegExp_new_jsonish. cbn [bind]. rewrite Hm.
  destruct Hquote as [-> | ->]; reflexivity.
Qed.

(** The text ["eid":"a\nb" and more] is no JSON text; the value comes back
    with its backslash.  A value between single quotes is read too. *)
Lemma jsonishFallback_key_and_quoted_witness :
  jsonishFallback (quoted "`eid`:`a\nb` and more") (str "eid")
  = Normal (VString (str "a\nb"))
  /\ jsonishFallback (quoted "`eid`:'it is'}") (str "eid") = Normal (VString (str "it is"))
  /\ searchJsonLike (quoted "`eid`:`a\nb` and more") (str "eid")
     = Normal (VString (str "a\nb"))
  /\ searchJsonLike (quoted "{`eid`:`a\nb`}") (str "eid")
     = Normal (VString [97; 10; 98]%N).
Proof.
  split; [|split; [|split; vm_compute; reflexivity]].
  - apply (jsonishFallback_key_and_quoted (str "eid") 34 (str "a\nb") (str " and more"));
      [auto | discriminate | reflexivity].
  - apply (jsonishFallback_key_and_quoted (str "eid") 39 (str "it is") (str "}"));
      [auto | discriminate | reflexivity].
Defined.

(** ** The generic pattern anywhere in the text *)

Lemma match_star_total cs (k : continuation) s :
  (forall pos s' caps, k pos s' caps <> None) ->
  forall pos caps, match_star true cs k pos s caps <> None.
Proof.
  intros Hk. induction s as [|c s IH]; intros pos caps; cbn [match_star]; [apply Hk|].
  destruct (charset_mem true cs c); [|apply Hk].
  destruct (match_star true cs k (S pos) s caps) eqn:E; [discriminate|].
  now apply IH in E.
Qed.

Lemma generic_before_class b :
  charset_mem true (CSClass false [CIEscape CESpace; CIChar 44; CIChar 59; CIChar 124]) b
  = isGenericStop b.
Proof.
  unfold isGenericStop. cbn [charset_mem existsb item_mem escape_mem].
  rewrite !char_eq_plain by lia. rewrite orb_false_r, !orb_assoc. reflexivity.
Qed.

Lemma option_not_none {A} (o : option A) : o <> None -> exists r, o = Some r.
Proof. destruct o; [eauto | congruence]. Qed.

(** After the key: white space, the separator, white space and a character
    that starts an unquoted value are matched, whatever follows. *)
Lemma generic_tail_total (k : continuation) pos ws1 sep ws2 c rest caps :
  (forall pos' s' caps', k pos' s' caps' <> None) ->
  forallb isWhiteSpace ws1 = true -> forallb isWhiteSpace ws2 = true ->
  (sep = 61 \/ sep = 58)%N ->
  isGenericStop c = false -> c <> 34%N -> c <> 39%N ->
  exists r,
    rmatch true
      (mk_cat [space_star; mk_alt (mk_cat [lit 61]) [mk_cat [lit 58]]; space_star;
               separator_values [CIEscape CESpace; CIChar 44; CIChar 59; CIChar 124]])
      k pos (ws1 ++ sep :: ws2 ++ c :: rest) caps = Some r.
Proof.
  intros Hk Hw1 Hw2 Hsep Hc Hq1 Hq2.
  assert (isWhiteSpace c = false) as Hws.
  { unfold isGenericStop in Hc. destruct (isWhiteSpace c); [discriminate | reflexivity]. }
  assert (isWhiteSpace sep = false) as Hsws by (destruct Hsep as [-> | ->]; reflexivity).
  assert (char_eq true 34 c = false) as H34
    by (rewrite char_eq_plain by lia; now apply N.eqb_neq).
  assert (char_eq true 39 c = false) as H39
    by (rewrite char_eq_plain by lia; now apply N.eqb_neq).
  set (values := separator_values [CIEscape CESpace; CIChar 44; CIChar 59; CIChar 124]).
  assert (forall p, exists r, rmatch true (mk_cat [values]) k p (c :: rest) caps = Some r)
    as Hval.
  { intros p. apply option_not_none.
    unfold values, separator_values, quoted_value.
    cbn [mk_cat fold_right mk_alt rmatch lit].
    change (charset_mem true (CSChar 34) c) with (char_eq true 34 c).
    change (charset_mem true (CSChar 39) c) with (char_eq true 39 c).
    rewrite H34, H39, generic_stop_class, Hc. cbn [negb].
    apply match_star_total. intros pos' s' caps'. apply Hk. }
  assert (forall p, exists r,
            rmatch true (mk_cat [space_star; values]) k p (ws2 ++ c :: rest) caps = Some r)
    as Hval2.
  { intros p. destruct (Hval (p + List.length ws2)) as [r Hr]. exists r.
    unfold space_star. cbn [mk_cat fold_right rmatch].
    apply match_star_run; [exact Hw2 | exact Hws |].
    cbn [mk_cat fold_right rmatch] in Hr. exact Hr. }
  destruct (Hval2 (S (pos + List.length ws1))) as [r Hr]. exists r.
  unfold space_star. cbn [mk_cat fold_right rmatch].
  apply match_star_run; [exact Hw1 | exact Hsws |].
  cbn [mk_alt rmatch lit mk_cat fold_right].
  change (charset_mem true (CSChar 61) sep) with (char_eq true 61 sep).
  change (charset_mem true (CSChar 58) sep) with (char_eq true 58 sep).
  unfold space_star in Hr. cbn [mk_cat fold_right rmatch] in Hr.
  destruct Hsep as [-> | ->].
  - change (char_eq true 61 61) with true. cbv iota. rewrite Hr. reflexivity.
  - change (char_eq true 61 58) with false. change (char_eq true 58 58) with true.
    cbv iota. exact Hr.
Qed.

(** X23: Wherever the text holds a stop (white space, [,], [;] or [|]), the
    key, [=] or [:] with or without white space around it, and a character
    that starts an unquoted value, the generic pattern finds a value, for
    every key; it is the value of the leftmost match, not always of this
    place. *)
Theorem genericFallback_finds key pre b ws1 sep ws2 c rest :
  isGenericStop b = true ->
  forallb isWhiteSpace ws1 = true -> forallb isWhiteSpace ws2 = true ->
  (sep = 61 \/ sep = 58)%N ->
  isGenericStop c = false -> c <> 34%N -> c <> 39%N ->
  exists t,
    t <> []
    /\ genericFallback (pre ++ b :: key ++ ws1 ++ sep :: ws2 ++ c :: rest) key
       = Normal (VString t).
Proof.
  intros Hb Hw1 Hw2 Hsep Hc Hq1 Hq2.
  set (text := pre ++ b :: key ++ ws1 ++ sep :: ws2 ++ c :: rest).
  assert (exists m, match_at true (generic_regex key) (0 + List.length pre)
                      (skipn (List.length pre) text) = Some m) as [m Hm].
  { unfold text. rewrite skipn_app, skipn_all, Nat.sub_diag. cbn [app skipn].
    unfold match_at, generic_regex, key_value_regex.
    cbn [app mk_cat fold_right mk_alt rmatch].
    change (fold_right RCat REmpty ?l) with (mk_cat l).
    match goal with
    | |- exists m, match ?a with _ => _ end = Some m => destruct a; [eauto|]
    end.
    rewrite generic_before_class, Hb.
    rewrite (rmatch_literals_same key key (same_letters_refl key)).
    apply generic_tail_total; auto. discriminate. }
  apply search_from_finds in Hm; [|unfold text; rewrite length_app; lia].
  destruct Hm as [m' Hm']. exact (genericFallback_matched text key m' Hm').
Qed.

(** The text [name: John | eid: 77] with the key [eid]. *)
Lemma genericFallback_finds_witness :
  (exists t, t <> [] /\ genericFallback (str "name: John | eid: 77") (str "eid")
                        = Normal (VString t))
  /\ genericFallback (str "name: John | eid: 77") (str "eid") = Normal (VString (str "77")).
Proof.
  split; [|vm_compute; reflexivity].
  apply (genericFallback_finds (str "eid") (str "name: John |") 32 [] 58 (str " ") 55
           (str "7")); solve [auto | reflexivity | discriminate].
Defined.

(** ** A key that is no field of the parsed object *)

(** X24: For a key without a dot: when the input is a JSON object without a
    top-level field [key], and [key] names nothing on the prototype
    either, the strict parse finds nothing and the JSON-ish pattern reads
    the text: a field of that name nested anywhere in the text is found. *)
Theorem searchJsonLike_missing_field input key props :
  includes key dot = false ->
  JSON_parse input = Normal (VObject props) ->
  object_get props key = VUndefined ->
  searchJsonLike input key = jsonishFallback input key.
Proof.
  intros Hdot Hparse Hget. unfold searchJsonLike.
  rewrite (jsonStrict_top_level input key props Hdot (JSON_parse_trimmed _ _ Hparse)).
  rewrite Hget. reflexivity.
Qed.

(** The text [{"a": {"k": 1}, "b": [{"k": 2}]}] has no top-level field [k];
    the result is the first [k] of the text. *)
Lemma searchJsonLike_missing_field_witness :
  searchJsonLike (quoted "{`a`: {`k`: 1}, `b`: [{`k`: 2}]}") (str "k")
  = jsonishFallback (quoted "{`a`: {`k`: 1}, `b`: [{`k`: 2}]}") (str "k")
  /\ searchJsonLike (quoted "{`a`: {`k`: 1}, `b`: [{`k`: 2}]}") (str "k")
     = Normal (VNumber (number_of_Z 1)).
Proof.
  split; [|vm_compute; reflexivity].
  apply (searchJsonLike_missing_field _ _
           [(str "a", VObject [(str "k", VNumber (number_of_Z 1))]);
            (str "b", VArray [VObject [(str "k", VNumber (number_of_Z 2))]])]);
    vm_compute; reflexivity.
Defined.

(** ** [String] of a Number on known values *)

Example Number_toString_examples :
  map (fun s => Number_toString (Number (str s)))
    [ "42"; "7.5"; "100000"; "1e21"; "1e-7"; "0.000001"; "0.1";
      "0.30000000000000004"; "5e-324"; "1.7976931348623157e308";
      "123456789012345680000"; "1e23"; "-0"; "-1.5e-10"; "9007199254740993";
      "0x10"; "-Infinity"; "abc"; "4.35"; "1e300" ]%string
  = map str
      [ "42"; "7.5"; "100000"; "1e+21"; "1e-7"; "0.000001"; "0.1";
        "0.30000000000000004"; "5e-324"; "1.7976931348623157e+308";
        "123456789012345680000"; "1e+23"; "0"; "-1.5e-10"; "9007199254740992";
        "16"; "-Infinity"; "NaN"; "4.35"; "1e+300" ]%string.
Proof. vm_compute. reflexivity. Qed.

Example page_examples :
  search_effect basic_URL_parser call_Object_prototype (quoted "{`user`:{`id`:42}}")
    (str " user.id ") (mkView VUndefined [])
  = Normal (mkView (VNumber (number_of_Z 42)) [])
  /\ shown_result (mkView (VNumber (number_of_Z 42)) []) = Some (str "42")
  /\ search_effect basic_URL_parser call_Object_prototype (str "totally unrelated text")
       (str "missing_key") (mkView VUndefined [])
     = Normal (mkView VUndefined (str "No match found."))
  /\ search_effect basic_URL_parser call_Object_prototype (str "   ") (str "eid")
       (mkView VNull (str "x"))
     = Normal (mkView VUndefined [])
  /\ shown_result (mkView VNull []) = Some (str "null")
  /\ shown_result (mkView (VBool false) []) = Some (str "false").
Proof. repeat split; vm_compute; reflexivity. Qed.

(** A function that [extractValue] returns is never stored: on a fresh
    page the key [constructor] stores an empty object, which is not shown,
    the key [toString] stores and shows a text, the key [isPrototypeOf]
    stores [false]; after an object is stored, [isPrototypeOf] fails the
    render. *)
Example page_updater_examples :
  search_effect basic_URL_parser call_Object_prototype (quoted "{}") (str "constructor")
    (mkView VUndefined [])
  = Normal (mkView (VObject []) [])
  /\ shown_result (mkView (VObject []) []) = None
  /\ search_effect basic_URL_parser call_Object_prototype (quoted "{}") (str "toString")
       (mkView VUndefined [])
     = Normal (mkView (VString (str "[object Undefined]")) [])
  /\ shown_result (mkView (VString (str "[object Undefined]")) [])
     = Some (str "[object Undefined]")
  /\ search_effect basic_URL_parser call_Object_prototype (quoted "{}") (str "isPrototypeOf")
       (mkView VUndefined [])
     = Normal (mkView (VBool false) [])
  /\ search_effect basic_URL_parser call_Object_prototype (quoted "{}") (str "isPrototypeOf")
       (mkView (VObject []) [])
     = Throw TypeError.
Proof. repeat split; vm_compute; reflexivity. Qed.
